(** * Webpify: the upload queue, the WebP conversion helper and the
      comparison view, embedded from [src/lib/imageConverter.ts],
      [src/lib/ImageComparison.svelte] and the page component.

    The handlers of the page and of the view are functions in a state monad
    with exceptions.  The state holds what the browser hands out (object
    URLs, bitmaps, UUIDs), a log of the calls made to the browser, the heap
    of state proxies of [UploadItem] objects, and the variables of the
    components.  An asynchronous handler is run from its call to its
    completion; the callback of a timer is a step of its own. *)

From Stdlib Require Import Ascii String ZArith Floats Lia.
From stdpp Require Import base option list gmap strings.

Open Scope string_scope.
Open Scope list_scope.

(** ** Regular expressions, as far as the page uses them

    The only pattern in the sources is [/\.(jpe?g|png)$/i], applied with
    [String.prototype.replace] and an empty replacement.  The matcher below is
    the backtracking matcher of the language definition restricted to the
    constructs of that pattern: literal characters, sequence, alternation
    (left alternative first), the greedy optional [?] and the end assertion
    [$] (no [m] flag, so only the end of the input).  A JavaScript string is
    a sequence of code units; file names are represented by [string], whose
    characters stand for the code units. *)
Module Regex.

Inductive regex : Type :=
| Chr (c : ascii)
| Cat (r1 r2 : regex)
| Alt (r1 r2 : regex)
| Opt (r : regex)
| Eos.

Definition is_lower_letter (c : ascii) : bool :=
  (97 <=? nat_of_ascii c)%nat && (nat_of_ascii c <=? 122)%nat.

(** [Canonicalize] of the [i] flag: a character is compared through its
    upper-case form; only the letters a-z have an upper-case form among the
    characters below 128, and no character from 128 on is mapped below 128. *)
Definition canonicalize (c : ascii) : ascii :=
  if is_lower_letter c then ascii_of_nat (nat_of_ascii c - 32) else c.

Definition char_match (ignoreCase : bool) (c d : ascii) : bool :=
  if ignoreCase then Ascii.eqb (canonicalize c) (canonicalize d)
  else Ascii.eqb c d.

(** [run i r s k]: match [r] at the front of [s], then continue with [k] on
    the rest; the first success in backtracking order wins. *)
Fixpoint run (i : bool) (r : regex) (s : string)
         (k : string -> option string) : option string :=
  match r with
  | Chr c =>
      match s with
      | String d s' => if char_match i c d then k s' else None
      | EmptyString => None
      end
  | Cat r1 r2 => run i r1 s (fun s1 => run i r2 s1 k)
  | Alt r1 r2 =>
      match run i r1 s k with
      | Some rest => Some rest
      | None => run i r2 s k
      end
  | Opt r1 =>
      match run i r1 s k with
      | Some rest => Some rest
      | None => k s
      end
  | Eos =>
      match s with
      | EmptyString => k s
      | String _ _ => None
      end
  end.

(** A match attempt at the current position: what is left after the match. *)
Definition exec_here (i : bool) (r : regex) (s : string) : option string :=
  run i r s Some.

(** [s.replace(re, repl)] for a pattern without the [g] flag and a
    replacement without [$] sequences: the leftmost position at which the
    pattern matches is replaced, everything else is kept. *)
Fixpoint replace (i : bool) (r : regex) (repl : string) (s : string) : string :=
  match exec_here i r s with
  | Some rest => repl +:+ rest
  | None =>
      match s with
      | EmptyString => EmptyString
      | String c s' => String c (replace i r repl s')
      end
  end.

End Regex.

(** ** Output names *)

(** [/\.(jpe?g|png)$/i] *)
Definition extension_re : Regex.regex :=
  Regex.Cat (Regex.Chr ".")
    (Regex.Cat
       (Regex.Alt
          (Regex.Cat (Regex.Chr "j")
             (Regex.Cat (Regex.Chr "p")
                (Regex.Cat (Regex.Opt (Regex.Chr "e")) (Regex.Chr "g"))))
          (Regex.Cat (Regex.Chr "p") (Regex.Cat (Regex.Chr "n") (Regex.Chr "g"))))
       Regex.Eos).

(** [name.replace(/\.(jpe?g|png)$/i, '') + '.webp'], the expression used by
    [convertAll], by [downloadAllZip] and by the preview callback. *)
Definition outputNameOf (name : string) : string :=
  Regex.replace true extension_re "" name +:+ ".webp".

(** The same name, following the words of the specification: the file name
    with one trailing [.jpg], [.jpeg] or [.png] (in any letter case) taken
    off, and [.webp] put after it. *)
Definition lower_char (c : ascii) : ascii :=
  if ((65 <=? nat_of_ascii c)%nat && (nat_of_ascii c <=? 90)%nat)
  then ascii_of_nat (nat_of_ascii c + 32) else c.

Fixpoint lower_string (s : string) : string :=
  match s with
  | EmptyString => EmptyString
  | String c s' => String (lower_char c) (lower_string s')
  end.

Definition source_extensions : list string := [".jpg"; ".jpeg"; ".png"].

Definition has_extension (ext name : string) : bool :=
  (String.length ext <=? String.length name)%nat &&
  String.eqb
    (lower_string
       (substring (String.length name - String.length ext) (String.length ext) name))
    ext.

Definition spec_outputName (name : string) : string :=
  match List.find (fun ext => has_extension ext name) source_extensions with
  | Some ext =>
      substring 0 (String.length name - String.length ext) name +:+ ".webp"
  | None => name +:+ ".webp"
  end.

(** ** Values of the host

    A [File] carries what the page reads from it; a [Blob] is an encoded
    image (a tag tells blobs apart).  Object URLs, UUIDs, bitmaps and heap
    objects are tokens: [URL.createObjectURL] and [crypto.randomUUID] give a
    new one on every call, which the counters of the state provide. *)
Record File : Type := mkFile {
  file_name : string;
  file_type : string;
  file_size : N
}.

Record Blob : Type := mkBlob {
  blob_tag : nat;
  blob_size : N
}.

Abbreviation url := nat (only parsing).
Abbreviation loc := nat (only parsing).

(** What a [catch] clause receives: an [Error] with its message, or some
    other value. *)
Inductive thrown : Type :=
| ErrorObj (message : string)
| NotAnError.

Inductive UploadStatus : Type := queued | converting | done | error.

Definition status_eqb (a b : UploadStatus) : bool :=
  match a, b with
  | queued, queued | converting, converting | done, done | error, error => true
  | _, _ => false
  end.

(** [type UploadItem]; an optional field that is absent is [None].  The
    identifier stands for the string made by [crypto.randomUUID()]. *)
Record UploadItem : Type := mkItem {
  id : nat;
  file : File;
  status : UploadStatus;
  errorMessage : option string;
  outputUrl : option url;
  outputBlob : option Blob;
  outputName : option string;
  sizeBefore : N;
  sizeAfter : option N;
  thumbnailUrl : option url
}.

Definition set_status (st : UploadStatus) (it : UploadItem) : UploadItem :=
  mkItem (id it) (file it) st (errorMessage it) (outputUrl it) (outputBlob it)
         (outputName it) (sizeBefore it) (sizeAfter it) (thumbnailUrl it).

Definition set_errorMessage (m : string) (it : UploadItem) : UploadItem :=
  mkItem (id it) (file it) (status it) (Some m) (outputUrl it) (outputBlob it)
         (outputName it) (sizeBefore it) (sizeAfter it) (thumbnailUrl it).

Definition set_outputBlob (b : Blob) (it : UploadItem) : UploadItem :=
  mkItem (id it) (file it) (status it) (errorMessage it) (outputUrl it) (Some b)
         (outputName it) (sizeBefore it) (sizeAfter it) (thumbnailUrl it).

Definition set_outputUrl (u : url) (it : UploadItem) : UploadItem :=
  mkItem (id it) (file it) (status it) (errorMessage it) (Some u) (outputBlob it)
         (outputName it) (sizeBefore it) (sizeAfter it) (thumbnailUrl it).

Definition set_outputName (n : string) (it : UploadItem) : UploadItem :=
  mkItem (id it) (file it) (status it) (errorMessage it) (outputUrl it) (outputBlob it)
         (Some n) (sizeBefore it) (sizeAfter it) (thumbnailUrl it).

Definition set_sizeAfter (n : N) (it : UploadItem) : UploadItem :=
  mkItem (id it) (file it) (status it) (errorMessage it) (outputUrl it) (outputBlob it)
         (outputName it) (sizeBefore it) (Some n) (thumbnailUrl it).

(** The URL state of the mounted comparison view
    ([originalUrl], [webpUrl], ... of [ImageComparison.svelte]); the empty
    string of the source is [None]. *)
Record Preview : Type := mkPreview {
  originalUrl : option url;
  webpUrl : option url;
  originalSize : N;
  webpSize : N;
  isLoading : bool
}.

(** The calls to the browser and to the archive library, and the writes of
    an item's status, in the order in which they happen. *)
Inductive event : Type :=
| CreateObjectURL (u : url)
| RevokeObjectURL (u : url)
| BitmapOpened (b : nat)
| BitmapClosed (b : nat)
| ConvertCalled (f : File) (q : float)
| StatusWritten (l : loc) (st : UploadStatus)
| ZipGenerated (files : gmap string Blob)
| DownloadClicked (href : url) (filename : string).

(** What the browser answers during one call of [convertImageToWebP]. *)
Record HostAnswers : Type := mkAnswers {
  bitmap_ok : bool;               (* createImageBitmap(file) resolves *)
  context_ok : bool;              (* getContext('2d') gives a context *)
  encoded : option Blob;          (* the argument of the toBlob callback *)
  decode_error : option thrown    (* img.decode(): None when it resolves *)
}.

(** The browser is consulted per call: the number of the call and the file. *)
Definition Host : Type := nat -> File -> HostAnswers.

(** The counters of the browser, the log, the heap [objs], and the variables
    [items], [selectedPreviewItem] and [quality] of the page; the view is
    mounted when [preview] is not [None].

    [items] and [selectedPreviewItem] are [$state] variables.  An object
    stored in them is wrapped in a state proxy, and a proxy that is stored
    again stays the same proxy.  A proxy keeps the fields written through it
    and reads the others from the object that it wraps; a write never
    reaches the wrapped object.  So the wrapped (raw) objects never change:
    a raw object is the record that its object literal made, and a proxy is
    a mutable copy of it, an object of the heap [objs].  [items] is a list
    of proxies and [selectedPreviewItem] is a proxy or [null]; two proxies
    of the same raw object are two objects of the heap. *)
Record State : Type := mkState {
  next_url : nat;
  next_bitmap : nat;
  next_uuid : nat;
  next_loc : nat;
  calls : nat;
  log : list event;
  objs : gmap loc UploadItem;
  items : list loc;
  selectedPreviewItem : option loc;
  quality : float;
  preview : option Preview
}.

(** [let quality = $state(0.8)]: the double nearest to 0.8. *)
Definition initial_quality : float := 0x1.999999999999ap-1%float.

Definition initial : State :=
  mkState 0 0 0 0 0 [] ∅ [] None initial_quality None.

(** ** A state monad with exceptions *)
Inductive result (A : Type) : Type :=
| Returned (a : A)
| Threw (e : thrown).
Arguments Returned {A} a.
Arguments Threw {A} e.

Definition M (A : Type) : Type := State -> result A * State.

Definition ret {A} (a : A) : M A := fun s => (Returned a, s).

Definition bind {A B} (m : M A) (k : A -> M B) : M B :=
  fun s =>
    match m s with
    | (Returned a, s') => k a s'
    | (Threw e, s') => (Threw e, s')
    end.

Definition throw {A} (e : thrown) : M A := fun s => (Threw e, s).

Definition try_catch {A} (m : M A) (h : thrown -> M A) : M A :=
  fun s =>
    match m s with
    | (Returned a, s') => (Returned a, s')
    | (Threw e, s') => h e s'
    end.

Definition gets {A} (f : State -> A) : M A := fun s => (Returned (f s), s).
Definition modify (f : State -> State) : M unit := fun s => (Returned tt, f s).
Definition exec {A} (m : M A) (s : State) : State := snd (m s).

Notation "x <- m ;; k" := (bind m (fun x => k))
  (at level 100, m at next level, right associativity).
Notation "m ;;; k" := (bind m (fun _ => k))
  (at level 100, right associativity).

Fixpoint for_each {A} (l : list A) (body : A -> M unit) : M unit :=
  match l with
  | [] => ret tt
  | x :: l' => body x ;;; for_each l' body
  end.

Definition when (b : bool) (m : M unit) : M unit := if b then m else ret tt.

(** State updates, one per field that is written. *)
Definition emit (e : event) : M unit :=
  modify (fun s => mkState (next_url s) (next_bitmap s) (next_uuid s) (next_loc s)
                     (calls s) (log s ++ [e]) (objs s) (items s)
                     (selectedPreviewItem s) (quality s) (preview s)).

Definition set_objs (o : gmap loc UploadItem) (s : State) : State :=
  mkState (next_url s) (next_bitmap s) (next_uuid s) (next_loc s) (calls s) (log s)
          o (items s) (selectedPreviewItem s) (quality s) (preview s).

Definition set_items (l : list loc) (s : State) : State :=
  mkState (next_url s) (next_bitmap s) (next_uuid s) (next_loc s) (calls s) (log s)
          (objs s) l (selectedPreviewItem s) (quality s) (preview s).

Definition set_selectedPreviewItem (o : option loc) (s : State) : State :=
  mkState (next_url s) (next_bitmap s) (next_uuid s) (next_loc s) (calls s) (log s)
          (objs s) (items s) o (quality s) (preview s).

Definition set_quality (q : float) (s : State) : State :=
  mkState (next_url s) (next_bitmap s) (next_uuid s) (next_loc s) (calls s) (log s)
          (objs s) (items s) (selectedPreviewItem s) q (preview s).

Definition set_preview (p : option Preview) (s : State) : State :=
  mkState (next_url s) (next_bitmap s) (next_uuid s) (next_loc s) (calls s) (log s)
          (objs s) (items s) (selectedPreviewItem s) (quality s) p.

(** [URL.createObjectURL]: a new URL, recorded in the log. *)
Definition createObjectURL : M url :=
  fun s =>
    (Returned (next_url s),
     mkState (S (next_url s)) (next_bitmap s) (next_uuid s) (next_loc s) (calls s)
             (log s ++ [CreateObjectURL (next_url s)]) (objs s) (items s)
             (selectedPreviewItem s) (quality s) (preview s)).

Definition revokeObjectURL (u : url) : M unit := emit (RevokeObjectURL u).

(** [crypto.randomUUID()] *)
Definition randomUUID : M nat :=
  fun s =>
    (Returned (next_uuid s),
     mkState (next_url s) (next_bitmap s) (S (next_uuid s)) (next_loc s) (calls s)
             (log s) (objs s) (items s) (selectedPreviewItem s) (quality s) (preview s)).

(** A raw object is stored in a [$state] variable: a new proxy for it. *)
Definition alloc (it : UploadItem) : M loc :=
  fun s =>
    (Returned (next_loc s),
     mkState (next_url s) (next_bitmap s) (next_uuid s) (S (next_loc s)) (calls s)
             (log s) (<[next_loc s := it]> (objs s)) (items s)
             (selectedPreviewItem s) (quality s) (preview s)).

(** [item.field = v] on the object at [l]. *)
Definition write (l : loc) (f : UploadItem -> UploadItem) : M unit :=
  modify (fun s => set_objs (alter f l (objs s)) s).

Definition read (l : loc) : M (option UploadItem) := gets (fun s => objs s !! l).

(** ** [imageConverter.ts] *)

Definition next_call : M nat :=
  fun s =>
    (Returned (calls s),
     mkState (next_url s) (next_bitmap s) (next_uuid s) (next_loc s) (S (calls s))
             (log s) (objs s) (items s) (selectedPreviewItem s) (quality s) (preview s)).

(** [await createImageBitmap(file).catch(() => null)] *)
Definition createImageBitmap (h : HostAnswers) : M (option nat) :=
  if bitmap_ok h then
    fun s =>
      (Returned (Some (next_bitmap s)),
       mkState (next_url s) (S (next_bitmap s)) (next_uuid s) (next_loc s) (calls s)
               (log s ++ [BitmapOpened (next_bitmap s)]) (objs s) (items s)
               (selectedPreviewItem s) (quality s) (preview s))
  else ret None.

(** [canvas.getContext('2d')] followed by [if (!ctx) throw ...] *)
Definition getContext (h : HostAnswers) : M unit :=
  if context_ok h then ret tt else throw (ErrorObj "Canvas not supported").

(** The promise around [canvas.toBlob] *)
Definition toBlob (h : HostAnswers) : M Blob :=
  match encoded h with
  | Some b => ret b
  | None => throw (ErrorObj "Blob conversion failed")
  end.

(** [await img.decode()] *)
Definition decode (h : HostAnswers) : M unit :=
  match decode_error h with
  | None => ret tt
  | Some e => throw e
  end.

Definition convertImageToWebP (host : Host) (f : File) (q : float) : M Blob :=
  n <- next_call ;;
  emit (ConvertCalled f q) ;;;
  bitmap <- createImageBitmap (host n f) ;;
  match bitmap with
  | Some b =>
      getContext (host n f) ;;;
      blob <- toBlob (host n f) ;;
      emit (BitmapClosed b) ;;;
      ret blob
  | None =>
      src <- createObjectURL ;;
      decode (host n f) ;;;
      getContext (host n f) ;;;
      blob <- toBlob (host n f) ;;
      revokeObjectURL src ;;;
      ret blob
  end.

(** ** The page component: the upload queue *)

Definition unsupported_message : string :=
  "Unsupported file type. Please upload JPEG or PNG.".

(** [acceptedTypes.has(file.type)] *)
Definition accepted (f : File) : bool :=
  String.eqb (file_type f) "image/jpeg" || String.eqb (file_type f) "image/png".

(** One round of the loop of [handleFiles]: the object literal pushed to
    [newItems], a raw object. *)
Definition new_item (f : File) : M UploadItem :=
  if negb (accepted f) then
    i <- randomUUID ;;
    ret (mkItem i f error (Some unsupported_message) None None None
                (file_size f) None None)
  else
    thumbnail <- createObjectURL ;;
    i <- randomUUID ;;
    ret (mkItem i f queued None None None None (file_size f) None (Some thumbnail)).

Fixpoint new_items (fileList : list File) : M (list UploadItem) :=
  match fileList with
  | [] => ret []
  | f :: rest =>
      raw <- new_item f ;;
      raws <- new_items rest ;;
      ret (raw :: raws)
  end.

(** [items.push(...newItems)]: the list receives a new proxy for each of the
    raw objects. *)
Fixpoint push (newItems : list UploadItem) : M unit :=
  match newItems with
  | [] => ret tt
  | raw :: rest =>
      l <- alloc raw ;;
      modify (fun s => set_items (items s ++ [l]) s) ;;;
      push rest
  end.

(** [handleFiles]; the result is the array [newItems] of raw objects
    captured by the 100 ms timer when the timer is armed. *)
Definition handleFiles (fileList : list File) : M (option (list UploadItem)) :=
  newItems <- new_items fileList ;;
  push newItems ;;;
  sel <- gets selectedPreviewItem ;;
  if negb (bool_decide (is_Some sel)) && (0 <? List.length newItems)%nat
  then ret (Some newItems) else ret None.

Definition item_satisfies (p : UploadItem -> bool) (s : State) (l : loc) : bool :=
  match objs s !! l with
  | Some it => p it
  | None => false
  end.

Definition not_error (it : UploadItem) : bool := negb (status_eqb (status it) error).

(** [ls.find(p)] on a list of proxies *)
Definition find_item (p : UploadItem -> bool) (ls : list loc) : M (option loc) :=
  gets (fun s => List.find (item_satisfies p s) ls).

(** The callback of the timer armed by [handleFiles]: [newItems.find] reads
    the raw objects, and the assignment of the raw object that it finds to
    [selectedPreviewItem] makes a new proxy for it, which is not the proxy
    that the list holds. *)
Definition handleFiles_timeout (newItems : list UploadItem) : M unit :=
  sel <- gets selectedPreviewItem ;;
  when (negb (bool_decide (is_Some sel)))
    (match List.find not_error newItems with
     | Some firstValid =>
         l <- alloc firstValid ;;
         modify (set_selectedPreviewItem (Some l))
     | None => ret tt
     end).

(** [item.status = st]; the write is also recorded in the log. *)
Definition write_status (l : loc) (st : UploadStatus) : M unit :=
  write l (set_status st) ;;; emit (StatusWritten l st).

(** [err instanceof Error ? err.message : 'Failed to convert to WebP.'] *)
Definition failure_message (e : thrown) : string :=
  match e with
  | ErrorObj m => m
  | NotAnError => "Failed to convert to WebP."
  end.

(** The [continue] test of [convertAll] *)
Definition pending (it : UploadItem) : bool :=
  status_eqb (status it) queued || status_eqb (status it) error.

(** The [try] block of [convertAll] *)
Definition convert_and_store (host : Host) (l : loc) (item : UploadItem) : M unit :=
  q <- gets quality ;;
  blob <- convertImageToWebP host (file item) q ;;
  u <- createObjectURL ;;
  write l (set_outputBlob blob) ;;;
  write l (set_outputUrl u) ;;;
  write l (set_outputName (outputNameOf (file_name (file item)))) ;;;
  write l (set_sizeAfter (blob_size blob)) ;;;
  write_status l done.

(** The [catch] block of [convertAll] *)
Definition store_failure (l : loc) (err : thrown) : M unit :=
  write_status l error ;;;
  write l (set_errorMessage (failure_message err)).

(** One round of the loop of [convertAll] *)
Definition convertItem (host : Host) (l : loc) : M unit :=
  o <- read l ;;
  match o with
  | None => ret tt
  | Some item =>
      if negb (pending item) then ret tt
      else
        write_status l converting ;;;
        try_catch (convert_and_store host l item) (store_failure l)
  end.

(** [convertAll], run from its call to its completion. *)
Definition convertAll (host : Host) : M unit :=
  ls <- gets items ;;
  for_each ls (convertItem host).

Definition revoke_if (o : option url) : M unit :=
  match o with
  | Some u => revokeObjectURL u
  | None => ret tt
  end.

Definition revoke_item (l : loc) : M unit :=
  o <- read l ;;
  match o with
  | Some item => revoke_if (outputUrl item) ;;; revoke_if (thumbnailUrl item)
  | None => ret tt
  end.

Definition clearAll : M unit :=
  ls <- gets items ;;
  for_each ls revoke_item ;;;
  modify (set_items []) ;;;
  modify (set_selectedPreviewItem None).

(** [ls.findIndex(p)]: [None] stands for -1. *)
Fixpoint findIndex (p : loc -> bool) (ls : list loc) : option nat :=
  match ls with
  | [] => None
  | l :: ls' => if p l then Some 0 else S <$> findIndex p ls'
  end.

(** [selectedPreviewItem?.id === id] *)
Definition selected_has_id (i : nat) (s : State) : bool :=
  match selectedPreviewItem s with
  | Some l => item_satisfies (fun it => Nat.eqb (id it) i) s l
  | None => false
  end.

Definition deleteItem (i : nat) : M unit :=
  ls <- gets items ;;
  index <- gets (fun s => findIndex (item_satisfies (fun it => Nat.eqb (id it) i) s) ls) ;;
  match index with
  | None => ret tt
  | Some index =>
      match ls !! index with
      | None => ret tt
      | Some l =>
          revoke_item l ;;;
          sel <- gets (selected_has_id i) ;;
          when sel
            (next <- find_item not_error (delete index ls) ;;
             modify (set_selectedPreviewItem next)) ;;;
          modify (set_items (delete index ls))
      end
  end.

(** [downloadBlob]: the result is the URL that the 1000 ms timer revokes. *)
Definition downloadBlob (filename : string) : M url :=
  href <- createObjectURL ;;
  emit (DownloadClicked href filename) ;;;
  ret href.

Definition downloadBlob_timeout (href : url) : M unit := revokeObjectURL href.

(** The loop of [downloadAllZip].  JSZip is a dependency and not part of
    these sources: its archive keeps the entries in a table keyed by entry
    name, and [zip.file(name, data)] puts [data] under [name], in place of
    an entry of that name if there is one. *)
Fixpoint zip_items (ls : list loc) (zip : gmap string Blob) (added : nat)
  : M (gmap string Blob * nat) :=
  match ls with
  | [] => ret (zip, added)
  | l :: ls' =>
      o <- read l ;;
      match o with
      | Some item =>
          match status item, outputBlob item with
          | done, Some blob =>
              zip_items ls'
                (<[default (outputNameOf (file_name (file item))) (outputName item) := blob]> zip)
                (S added)
          | _, _ => zip_items ls' zip added
          end
      | None => zip_items ls' zip added
      end
  end.

Definition downloadAllZip : M (option url) :=
  ls <- gets items ;;
  r <- zip_items ls ∅ 0 ;;
  if Nat.eqb (snd r) 0 then ret None
  else
    emit (ZipGenerated (fst r)) ;;;
    href <- downloadBlob "converted-webp.zip" ;;
    ret (Some href).

(** The [onWebPGenerated] callback that the page hands to the view: its
    writes go to the proxy in [selectedPreviewItem]. *)
Definition onWebPGenerated (blob : Blob) (size : N) : M unit :=
  sel <- gets selectedPreviewItem ;;
  match sel with
  | None => ret tt
  | Some l =>
      write l (set_sizeAfter size) ;;;
      o <- read l ;;
      match o with
      | None => ret tt
      | Some item =>
          match outputBlob item, outputUrl item with
          | Some _, Some u => revokeObjectURL u
          | _, _ => ret tt
          end ;;;
          write l (set_outputBlob blob) ;;;
          u <- createObjectURL ;;
          write l (set_outputUrl u) ;;;
          write l (set_outputName (outputNameOf (file_name (file item))))
      end
  end.

(** The argument that a click on a thumbnail passes to
    [updatePreviewItemDebounced] (the proxy of the list, or [null]), and the
    callback of its timer, which stores that proxy. *)
Definition thumbnail_target (l : loc) : M (option loc) :=
  gets (fun s => if item_satisfies not_error s l then Some l else None).

Definition updatePreviewItemDebounced_timeout (item : option loc) : M unit :=
  modify (set_selectedPreviewItem item).

(** ** The URL part of [ImageComparison.svelte] *)

Definition set_originalUrl (u : url) (p : Preview) : Preview :=
  mkPreview (Some u) (webpUrl p) (originalSize p) (webpSize p) (isLoading p).
Definition set_webpUrl (u : url) (p : Preview) : Preview :=
  mkPreview (originalUrl p) (Some u) (originalSize p) (webpSize p) (isLoading p).
Definition set_originalSize (n : N) (p : Preview) : Preview :=
  mkPreview (originalUrl p) (webpUrl p) n (webpSize p) (isLoading p).
Definition set_webpSize (n : N) (p : Preview) : Preview :=
  mkPreview (originalUrl p) (webpUrl p) (originalSize p) n (isLoading p).
Definition set_isLoading (b : bool) (p : Preview) : Preview :=
  mkPreview (originalUrl p) (webpUrl p) (originalSize p) (webpSize p) b.

Definition write_preview (f : Preview -> Preview) : M unit :=
  modify (fun s => set_preview (f <$> preview s) s).

(** The view is created when an item becomes selected. *)
Definition view_mount : M unit :=
  modify (set_preview (Some (mkPreview None None 0 0 true))).

(** The [originalFile] property: [selectedPreviewItem.file]. *)
Definition originalFile (s : State) : option File :=
  match selectedPreviewItem s with
  | Some l => file <$> objs s !! l
  | None => None
  end.

(** The first effect ("Generate URLs and WebP conversion"), with its
    asynchronous part run to completion. *)
Definition effect_generate (host : Host) : M unit :=
  p <- gets preview ;;
  f <- gets originalFile ;;
  match p, f with
  | Some _, Some f =>
      u <- createObjectURL ;;
      write_preview (set_originalUrl u) ;;;
      write_preview (set_originalSize (file_size f)) ;;;
      write_preview (set_isLoading true) ;;;
      try_catch
        (q <- gets quality ;;
         webpBlob <- convertImageToWebP host f q ;;
         w <- createObjectURL ;;
         write_preview (set_webpUrl w) ;;;
         write_preview (set_webpSize (blob_size webpBlob)) ;;;
         onWebPGenerated webpBlob (blob_size webpBlob))
        (fun _ => ret tt) ;;;
      write_preview (set_isLoading false)
  | _, _ => ret tt
  end.

(** The second effect ("Re-convert when quality changes"). *)
Definition effect_reconvert (host : Host) : M unit :=
  p <- gets preview ;;
  f <- gets originalFile ;;
  match p, f with
  | Some _, Some f =>
      try_catch
        (q <- gets quality ;;
         webpBlob <- convertImageToWebP host f q ;;
         p' <- gets preview ;;
         revoke_if (p' ≫= webpUrl) ;;;
         w <- createObjectURL ;;
         write_preview (set_webpUrl w) ;;;
         write_preview (set_webpSize (blob_size webpBlob)) ;;;
         onWebPGenerated webpBlob (blob_size webpBlob))
        (fun _ => ret tt)
  | _, _ => ret tt
  end.

(** The function returned from [onMount], run when the view is destroyed. *)
Definition view_teardown : M unit :=
  p <- gets preview ;;
  revoke_if (p ≫= originalUrl) ;;;
  revoke_if (p ≫= webpUrl) ;;;
  modify (set_preview None).

(** ** Sessions: what the user and the timers do, one step at a time *)
Inductive action : Type :=
| HandleFiles (fileList : list File)
| HandleFilesTimeout (newItems : list UploadItem)
| ConvertAll
| DeleteItem (i : nat)
| ClearAll
| SelectPreview (item : option loc)
| DownloadAllZip
| DownloadTimeout (href : url)
| SetQuality (q : float)
| PreviewGenerated (blob : Blob)
| ViewMount
| ViewGenerate
| ViewReconvert
| ViewTeardown.

Definition step (host : Host) (a : action) : State -> State :=
  match a with
  | HandleFiles fl => exec (handleFiles fl)
  | HandleFilesTimeout ls => exec (handleFiles_timeout ls)
  | ConvertAll => exec (convertAll host)
  | DeleteItem i => exec (deleteItem i)
  | ClearAll => exec clearAll
  | SelectPreview o => exec (updatePreviewItemDebounced_timeout o)
  | DownloadAllZip => exec downloadAllZip
  | DownloadTimeout u => exec (downloadBlob_timeout u)
  | SetQuality q => set_quality q
  | PreviewGenerated b => exec (onWebPGenerated b (blob_size b))
  | ViewMount => exec view_mount
  | ViewGenerate => exec (effect_generate host)
  | ViewReconvert => exec (effect_reconvert host)
  | ViewTeardown => exec view_teardown
  end.

Definition run (host : Host) (acts : list action) (s : State) : State :=
  foldl (fun s a => step host a s) s acts.

(** ** Observations on states and logs *)

(** The items of the queue, in order. *)
Definition queue (s : State) : list UploadItem :=
  omap (fun l => objs s !! l) (items s).

(** An optional value as a list of at most one element. *)
Definition option_list {A} (o : option A) : list A :=
  match o with Some a => [a] | None => [] end.

(** The URLs that an item holds, in the order in which [clearAll] and
    [deleteItem] revoke them. *)
Definition item_urls (it : UploadItem) : list url :=
  option_list (outputUrl it) ++ option_list (thumbnailUrl it).

(** The URLs held by the items of the list. *)
Definition held_urls (s : State) : list url :=
  concat (map item_urls (queue s)).

(** The URLs created and the URLs revoked in a log, one per call. *)
Definition created (lg : list event) : list url :=
  omap (fun e => match e with CreateObjectURL u => Some u | _ => None end) lg.

Definition revoked (lg : list event) : list url :=
  omap (fun e => match e with RevokeObjectURL u => Some u | _ => None end) lg.

Definition count_occ_url (u : url) (l : list url) : nat :=
  List.length (List.filter (Nat.eqb u) l).

(** Every URL created in the log has exactly one revoke call in it. *)
Definition every_url_revoked_once (lg : list event) : bool :=
  forallb (fun u => Nat.eqb (count_occ_url u (revoked lg)) 1) (created lg).

(** The files on which the conversion service was called, and the bitmaps
    opened and closed. *)
Definition conversions (lg : list event) : list File :=
  omap (fun e => match e with ConvertCalled f _ => Some f | _ => None end) lg.

Definition bitmaps_opened (lg : list event) : list nat :=
  omap (fun e => match e with BitmapOpened b => Some b | _ => None end) lg.

Definition bitmaps_closed (lg : list event) : list nat :=
  omap (fun e => match e with BitmapClosed b => Some b | _ => None end) lg.

(** The events of a log after a given earlier log. *)
Definition since (before : State) (after : State) : list event :=
  drop (List.length (log before)) (log after).

(** ** Zoom and pan of [ImageComparison.svelte]

    JavaScript numbers are binary64 floating-point numbers, and so are the
    numbers of this module; [===] and [<=] on numbers are the comparisons of
    the standard. *)
Module View.

Local Open Scope float_scope.

(** The zoom and pan variables of the component. *)
Record Zoom : Type := mkZoom {
  scale : float;
  panX : float;
  panY : float;
  isPanning : bool;
  lastPanX : float;
  lastPanY : float;
  hasInteracted : bool
}.

Definition initial : Zoom := mkZoom 1 0 0 false 0 0 false.

(** The literals [1.1] and [0.9] of the source. *)
Definition zoom_in_factor : float := 0x1.199999999999ap+0.

Definition zoom_out_factor : float := 0x1.ccccccccccccdp-1.

(** [Math.max] and [Math.min] of two numbers (the sign of a zero aside,
    which the bounds 0.5 and 3 never meet). *)
Definition Math_max (a b : float) : float :=
  if PrimFloat.is_nan a || PrimFloat.is_nan b then nan
  else if a <? b then b else a.

Definition Math_min (a b : float) : float :=
  if PrimFloat.is_nan a || PrimFloat.is_nan b then nan
  else if b <? a then b else a.

Record WheelEvent : Type := mkWheel {
  ctrlKey : bool;
  metaKey : bool;
  altKey : bool;
  deltaY : float
}.

(** A mouse event: whether its target lies inside [[data-divider]], and
    the position of the pointer. *)
Record MouseEvent : Type := mkMouse {
  onDivider : bool;
  clientX : float;
  clientY : float
}.

(** A keyboard event on the container: the key, whether the target is the
    container or inside it, and whether the focused element is. *)
Record KeyboardEvent : Type := mkKey {
  key : string;
  targetInside : bool;
  activeInside : bool
}.

Definition set_scale (x : float) (z : Zoom) : Zoom :=
  mkZoom x (panX z) (panY z) (isPanning z) (lastPanX z) (lastPanY z) (hasInteracted z).
Definition set_pan (x y : float) (z : Zoom) : Zoom :=
  mkZoom (scale z) x y (isPanning z) (lastPanX z) (lastPanY z) (hasInteracted z).
Definition set_isPanning (b : bool) (z : Zoom) : Zoom :=
  mkZoom (scale z) (panX z) (panY z) b (lastPanX z) (lastPanY z) (hasInteracted z).
Definition set_lastPan (x y : float) (z : Zoom) : Zoom :=
  mkZoom (scale z) (panX z) (panY z) (isPanning z) x y (hasInteracted z).
Definition set_hasInteracted (b : bool) (z : Zoom) : Zoom :=
  mkZoom (scale z) (panX z) (panY z) (isPanning z) (lastPanX z) (lastPanY z) b.

(** [if (scale === 1) { panX = 0; panY = 0; }] *)
Definition reset_pan_at_one (z : Zoom) : Zoom :=
  if scale z =? 1 then set_pan 0 0 z else z.

Definition handleWheel (e : WheelEvent) (z : Zoom) : Zoom :=
  if ctrlKey e || metaKey e || altKey e then
    let z1 := set_hasInteracted true z in
    let delta := - deltaY e in
    let scaleFactor := if 0 <? delta then zoom_in_factor else zoom_out_factor in
    let newScale := Math_max 0.5 (Math_min 3 (scale z1 * scaleFactor)) in
    if negb (newScale =? scale z1)
    then reset_pan_at_one (set_scale newScale z1)
    else z1
  else z.

Definition handleImageMouseDown (e : MouseEvent) (z : Zoom) : Zoom :=
  if onDivider e then z
  else
    let z1 := set_hasInteracted true z in
    if scale z1 <=? 1 then z1
    else set_lastPan (clientX e) (clientY e) (set_isPanning true z1).

Definition handleImageMouseMove (e : MouseEvent) (z : Zoom) : Zoom :=
  if negb (isPanning z) then z
  else
    let deltaX := clientX e - lastPanX z in
    let deltaY := clientY e - lastPanY z in
    set_lastPan (clientX e) (clientY e)
      (set_pan (panX z + deltaX) (panY z + deltaY) z).

Definition handleImageMouseUp (z : Zoom) : Zoom := set_isPanning false z.

Definition resetZoom (z : Zoom) : Zoom := set_pan 0 0 (set_scale 1 z).

Definition key_is (e : KeyboardEvent) (k : string) : bool := String.eqb (key e) k.

Definition handleKeyDown (e : KeyboardEvent) (z : Zoom) : Zoom :=
  if negb (targetInside e) then z
  else
    let z1 := set_hasInteracted true z in
    if key_is e "Enter" then resetZoom z1
    else if key_is e " " then (if activeInside e then resetZoom z1 else z1)
    else if key_is e "+" || key_is e "=" then
      set_scale (Math_min 3 (scale z1 * zoom_in_factor)) z1
    else if key_is e "-" then
      reset_pan_at_one (set_scale (Math_max 0.5 (scale z1 * zoom_out_factor)) z1)
    else if key_is e "ArrowLeft" then
      (if 1 <? scale z1 then set_pan (panX z1 + 20) (panY z1) z1 else z1)
    else if key_is e "ArrowRight" then
      (if 1 <? scale z1 then set_pan (panX z1 - 20) (panY z1) z1 else z1)
    else if key_is e "ArrowUp" then
      (if 1 <? scale z1 then set_pan (panX z1) (panY z1 + 20) z1 else z1)
    else if key_is e "ArrowDown" then
      (if 1 <? scale z1 then set_pan (panX z1) (panY z1 - 20) z1 else z1)
    else z1.

(** The [keydown] listener on the document: the key and whether the target
    is a form control or editable. *)
Definition handleGlobalKeyDown (k : string) (onControl : bool) (z : Zoom) : Zoom :=
  if String.eqb k "Enter" && hasInteracted z &&
     (negb (scale z =? 1) || negb (panX z =? 0) || negb (panY z =? 0))
  then (if onControl then z else resetZoom z)
  else z.

(** What reaches the view. *)
Inductive input : Type :=
| Wheel (e : WheelEvent)
| MouseDown (e : MouseEvent)
| MouseMove (e : MouseEvent)
| MouseUp
| KeyDown (e : KeyboardEvent)
| GlobalKeyDown (k : string) (onControl : bool)
| ResetButton.

Definition handle (i : input) : Zoom -> Zoom :=
  match i with
  | Wheel e => handleWheel e
  | MouseDown e => handleImageMouseDown e
  | MouseMove e => handleImageMouseMove e
  | MouseUp => handleImageMouseUp
  | KeyDown e => handleKeyDown e
  | GlobalKeyDown k c => handleGlobalKeyDown k c
  | ResetButton => resetZoom
  end.

Definition play (inputs : list input) (z : Zoom) : Zoom :=
  foldl (fun z i => handle i z) z inputs.

End View.


(** ** What the page derives from the list *)

(** [const hasQueued = $derived(items.some((i) => i.status === 'queued' ||
    i.status === 'error'))]: the "Convert all" button is disabled when it is
    false. *)
Definition hasQueued (s : State) : bool :=
  existsb (fun i => status_eqb (status i) queued || status_eqb (status i) error)
          (queue s).

(** [const hasDone = $derived(items.some((i) => i.status === 'done' &&
    i.outputBlob))]: the "Download all (zip)" button is disabled when it is
    false. *)
Definition hasDone (s : State) : bool :=
  existsb (fun i => status_eqb (status i) done && bool_decide (is_Some (outputBlob i)))
          (queue s).

(** ** The page with its timers

    The page calls [setTimeout] in three places: [handleFiles] (the
    automatic selection, 100 ms), [updatePreviewItemDebounced] (150 ms) and
    [downloadBlob] (the release of the download URL, 1000 ms).  The browser
    keeps the active timers in a table under their handles, which are
    positive integers; a timer runs once and leaves the table when it runs,
    and [clearTimeout] takes it off the table.  Time is not represented: a
    pending timer may run between any two handlers. *)
Module Timed.

Inductive callback : Type :=
| AutoSelect (newItems : list UploadItem)
| SetPreviewItem (item : option loc)
| RevokeDownload (href : url).

(** The variables of the page component ([page_state] and the handle
    [previewUpdateTimeout]) and the timer table of the browser. *)
Record Page : Type := mkPage {
  page_state : State;
  previewUpdateTimeout : option nat;
  timers : gmap nat callback;
  next_timer : nat
}.

Definition initial : Page := mkPage initial None ∅ 1.

Definition set_page_state (s : State) (p : Page) : Page :=
  mkPage s (previewUpdateTimeout p) (timers p) (next_timer p).

Definition set_previewUpdateTimeout (h : option nat) (p : Page) : Page :=
  mkPage (page_state p) h (timers p) (next_timer p).

(** [setTimeout(callback, delay)]: the handle of the new timer. *)
Definition setTimeout (c : callback) (p : Page) : nat * Page :=
  (next_timer p,
   mkPage (page_state p) (previewUpdateTimeout p) (<[next_timer p := c]> (timers p))
          (S (next_timer p))).

Definition clearTimeout (h : nat) (p : Page) : Page :=
  mkPage (page_state p) (previewUpdateTimeout p) (delete h (timers p)) (next_timer p).

(** A handler of the page run on the state of the page. *)
Definition in_state {A} (m : M A) (p : Page) : result A * Page :=
  ((m (page_state p)).1, set_page_state (m (page_state p)).2 p).

(** [updatePreviewItemDebounced]: a handle is a number, and [if
    (previewUpdateTimeout)] tests that it is neither [null] nor 0. *)
Definition updatePreviewItemDebounced (item : option loc) (p : Page) : Page :=
  let p1 :=
    match previewUpdateTimeout p with
    | Some h => if Nat.eqb h 0 then p else clearTimeout h p
    | None => p
    end in
  let r := setTimeout (SetPreviewItem item) p1 in
  set_previewUpdateTimeout (Some r.1) r.2.

(** [handleFiles] with the timer that it arms. *)
Definition handleFiles (fileList : list File) (p : Page) : Page :=
  match in_state (handleFiles fileList) p with
  | (Returned (Some newItems), p1) => (setTimeout (AutoSelect newItems) p1).2
  | (_, p1) => p1
  end.

(** [onFileInputChange]: [target.files] may be [null]. *)
Definition onFileInputChange (files : option (list File)) (p : Page) : Page :=
  match files with
  | None => p
  | Some files => handleFiles files p
  end.

(** [onDrop]: [event.dataTransfer] may be [null]. *)
Definition onDrop (dataTransfer : option (list File)) (p : Page) : Page :=
  match dataTransfer with
  | None => p
  | Some files => handleFiles files p
  end.

(** [downloadAllZip], whose [downloadBlob] arms the timer that revokes the
    URL of the download. *)
Definition downloadAllZip (p : Page) : Page :=
  match in_state downloadAllZip p with
  | (Returned (Some href), p1) => (setTimeout (RevokeDownload href) p1).2
  | (_, p1) => p1
  end.

(** The three arrow functions given to [setTimeout]. *)
Definition run_callback (c : callback) (p : Page) : Page :=
  match c with
  | AutoSelect newItems => (in_state (handleFiles_timeout newItems) p).2
  | SetPreviewItem item =>
      set_previewUpdateTimeout None
        (in_state (updatePreviewItemDebounced_timeout item) p).2
  | RevokeDownload href => (in_state (downloadBlob_timeout href) p).2
  end.

(** The browser runs the timer with handle [h], if it is active. *)
Definition fire (h : nat) (p : Page) : Page :=
  match timers p !! h with
  | Some c => run_callback c (clearTimeout h p)
  | None => p
  end.

(** The buttons of the list entry of the item at [l], which exist while the
    item is in the list: [deleteItem(item.id)] and
    [updatePreviewItemDebounced(item.status !== 'error' ? item : null)]. *)
Definition click_delete (l : loc) (p : Page) : Page :=
  match objs (page_state p) !! l with
  | Some item =>
      if bool_decide (l ∈ items (page_state p))
      then (in_state (deleteItem (id item)) p).2 else p
  | None => p
  end.

Definition click_thumbnail (l : loc) (p : Page) : Page :=
  if bool_decide (l ∈ items (page_state p))
  then
    match in_state (thumbnail_target l) p with
    | (Returned item, p1) => updatePreviewItemDebounced item p1
    | (Threw _, p1) => p1
    end
  else p.

(** What happens to the page: the user's input, a timer that runs, and the
    comparison view (its creation, its two effects, a call of the
    [onWebPGenerated] callback, its destruction).  A disabled button is not
    clicked. *)
Inductive happening : Type :=
| Drop (dataTransfer : option (list File))
| FileInputChange (files : option (list File))
| ClickConvertAll
| ClickDownloadAll
| ClickClearList
| ClickDelete (l : loc)
| ClickThumbnail (l : loc)
| QualityInput (q : float)
| TimerRuns (h : nat)
| ViewCreated
| ViewGenerates
| ViewReconverts
| ViewCallsBack (blob : Blob)
| ViewDestroyed.

Definition step (host : Host) (e : happening) (p : Page) : Page :=
  match e with
  | Drop dt => onDrop dt p
  | FileInputChange files => onFileInputChange files p
  | ClickConvertAll =>
      if hasQueued (page_state p) then (in_state (convertAll host) p).2 else p
  | ClickDownloadAll =>
      if hasDone (page_state p) then downloadAllZip p else p
  | ClickClearList => (in_state clearAll p).2
  | ClickDelete l => click_delete l p
  | ClickThumbnail l => click_thumbnail l p
  | QualityInput q => set_page_state (set_quality q (page_state p)) p
  | TimerRuns h => fire h p
  | ViewCreated => (in_state view_mount p).2
  | ViewGenerates => (in_state (effect_generate host) p).2
  | ViewReconverts => (in_state (effect_reconvert host) p).2
  | ViewCallsBack blob => (in_state (onWebPGenerated blob (blob_size blob)) p).2
  | ViewDestroyed => (in_state view_teardown p).2
  end.

Definition run (host : Host) (es : list happening) (p : Page) : Page :=
  foldl (fun p e => step host e p) p es.

End Timed.

(** ** The divider of [ImageComparison.svelte] *)
Module Divider.

Local Open Scope float_scope.

(** What [getBoundingClientRect()] gives of the container. *)
Record DOMRect : Type := mkRect {
  left : float;
  width : float
}.

Record Divider : Type := mkDivider {
  isDragging : bool;
  dividerPosition : float
}.

(** [let isDragging = $state(false); let dividerPosition = $state(50)] *)
Definition initial : Divider := mkDivider false 50.

(** [((event.clientX - rect.left) / rect.width) * 100] *)
Definition percentage (rect : DOMRect) (clientX : float) : float :=
  ((clientX - left rect) / width rect) * 100.

(** [updateDividerPosition]: [containerRef] is [None] while the container
    is not in the document. *)
Definition updateDividerPosition (containerRef : option DOMRect) (clientX : float)
           (d : Divider) : Divider :=
  match containerRef with
  | None => d
  | Some rect =>
      mkDivider (isDragging d)
                (View.Math_max 5 (View.Math_min 95 (percentage rect clientX)))
  end.

Definition handleMouseDown (containerRef : option DOMRect) (clientX : float)
           (d : Divider) : Divider :=
  updateDividerPosition containerRef clientX (mkDivider true (dividerPosition d)).

Definition handleMouseMove (containerRef : option DOMRect) (clientX : float)
           (d : Divider) : Divider :=
  if negb (isDragging d) then d else updateDividerPosition containerRef clientX d.

Definition handleMouseUp (d : Divider) : Divider :=
  mkDivider false (dividerPosition d).

(** A mouse event on the divider or, while the listeners are attached, on
    the document, with the container as it is at that time. *)
Inductive input : Type :=
| MouseDown (containerRef : option DOMRect) (clientX : float)
| MouseMove (containerRef : option DOMRect) (clientX : float)
| MouseUp.

Definition handle (i : input) : Divider -> Divider :=
  match i with
  | MouseDown c x => handleMouseDown c x
  | MouseMove c x => handleMouseMove c x
  | MouseUp => handleMouseUp
  end.

Definition play (inputs : list input) (d : Divider) : Divider :=
  foldl (fun d i => handle i d) d inputs.

End Divider.

(** * Definitions used to state and prove the properties *)

(** ** Output names *)

(** The whole string is one of the three extensions, in any letter case. *)
Definition is_source_extension (s : string) : bool :=
  existsb (String.eqb (lower_string s)) source_extensions.

(** The file name without its source extension. *)
Definition strip_extension (name : string) : string :=
  match List.find (fun ext => has_extension ext name) source_extensions with
  | Some ext => substring 0 (String.length name - String.length ext) name
  | None => name
  end.

(** ** The conversion helper in closed form *)

(** What [convertImageToWebP] does once the image is decoded: the canvas
    context, then the encoding. *)
Definition after_decoding (h : HostAnswers) : result Blob :=
  if context_ok h then
    match encoded h with
    | Some b => Returned b
    | None => Threw (ErrorObj "Blob conversion failed")
    end
  else Threw (ErrorObj "Canvas not supported").

(** The result of a call of [convertImageToWebP], from the answers of the
    browser. *)
Definition outcome (h : HostAnswers) : result Blob :=
  if bitmap_ok h then after_decoding h
  else match decode_error h with
       | Some e => Threw e
       | None => after_decoding h
       end.

Definition succeeded {A} (r : result A) : bool :=
  match r with Returned _ => true | Threw _ => false end.

(** The resources that a call takes and gives back, with [nu] the next URL
    and [nb] the next bitmap. *)
Definition converter_events (h : HostAnswers) (nu nb : nat) : list event :=
  if bitmap_ok h then
    BitmapOpened nb :: (if succeeded (outcome h) then [BitmapClosed nb] else [])
  else
    CreateObjectURL nu :: (if succeeded (outcome h) then [RevokeObjectURL nu] else []).

(** The state after a call. *)
Definition after_convert (h : HostAnswers) (f : File) (q : float) (s : State) : State :=
  mkState (if bitmap_ok h then next_url s else S (next_url s))
          (if bitmap_ok h then S (next_bitmap s) else next_bitmap s)
          (next_uuid s) (next_loc s) (S (calls s))
          (log s ++ ConvertCalled f q :: converter_events h (next_url s) (next_bitmap s))
          (objs s) (items s) (selectedPreviewItem s) (quality s) (preview s).

(** Browsers for the examples: one that converts everything, one that
    decodes JPEG and PNG only, one without a canvas context, one whose
    encoder gives nothing on the image-element path, and (below) one whose
    errors carry no message. *)
Definition good_host : Host :=
  fun n _ => mkAnswers true true (Some (mkBlob n 100)) None.


Definition no_context_host : Host :=
  fun _ _ => mkAnswers true false None None.

Definition no_blob_host : Host :=
  fun _ _ => mkAnswers false true None None.

(** A browser that decodes nothing and rejects [img.decode()] with
    [new Error()], whose message is the empty string. *)
Definition mute_host : Host :=
  fun _ _ => mkAnswers false true None (Some (ErrorObj "")).

Definition sample_jpeg : File := mkFile "photo.JPG" "image/jpeg" 2048.
Definition sample_png : File := mkFile "photo.png" "image/png" 4096.
Definition sample_gif : File := mkFile "anim.gif" "image/gif" 512.

(** ** The batch conversion in closed form *)

(** An item after a conversion that returned [b], with [u] its new output
    URL, and after a conversion that threw [e]. *)
Definition converted (it : UploadItem) (b : Blob) (u : url) : UploadItem :=
  mkItem (id it) (file it) done (errorMessage it) (Some u) (Some b)
         (Some (outputNameOf (file_name (file it)))) (sizeBefore it)
         (Some (blob_size b)) (thumbnailUrl it).

Definition failed (it : UploadItem) (e : thrown) : UploadItem :=
  mkItem (id it) (file it) error (Some (failure_message e)) (outputUrl it)
         (outputBlob it) (outputName it) (sizeBefore it) (sizeAfter it)
         (thumbnailUrl it).

Definition settled (it : UploadItem) (r : result Blob) (u : url) : UploadItem :=
  match r with
  | Returned b => converted it b u
  | Threw e => failed it e
  end.

Definition final_status {A} (r : result A) : UploadStatus :=
  if succeeded r then done else error.

(** The state after one round of the loop on a pending item. *)
Definition after_item (host : Host) (l : loc) (it : UploadItem) (s : State) : State :=
  let h := host (calls s) (file it) in
  let s1 := after_convert h (file it) (quality s) s in
  mkState (if succeeded (outcome h) then S (next_url s1) else next_url s1)
          (next_bitmap s1) (next_uuid s1) (next_loc s1) (calls s1)
          (log s ++ [StatusWritten l converting; ConvertCalled (file it) (quality s)]
             ++ converter_events h (next_url s) (next_bitmap s)
             ++ (if succeeded (outcome h) then [CreateObjectURL (next_url s1)] else [])
             ++ [StatusWritten l (final_status (outcome h))])
          (<[l := settled it (outcome h) (next_url s1)]> (objs s))
          (items s) (selectedPreviewItem s) (quality s) (preview s).

(** One round of the loop, and the loop. *)
Definition convert_step (host : Host) (l : loc) (s : State) : State :=
  match objs s !! l with
  | Some it => if pending it then after_item host l it s else s
  | None => s
  end.

Definition batch (host : Host) (ls : list loc) (s : State) : State :=
  foldl (fun s l => convert_step host l s) s ls.






(** Two files are queued and a first call of [convertAll] has reached the
    first [await] of the conversion of the first item. *)
Definition first_call_suspended : State :=
  exec (write_status 0 converting ;;;
        n <- next_call ;;
        emit (ConvertCalled sample_jpeg initial_quality))
       (exec (handleFiles [sample_jpeg; sample_png]) initial).

(** The second of these files once a later call of [convertAll] has
    converted it. *)
Definition second_item_done : UploadItem :=
  mkItem 1 sample_png done None (Some 2) (Some (mkBlob 1 100)) (Some "photo.webp")
         4096 (Some 100%N) (Some 1).

(** ** Invariants *)

(** A [done] item has its output; an [error] item has its message, and the
    message is empty only if the browser could not make a bitmap of the
    item's file and rejected [img.decode()] with an [Error] whose message
    is empty. *)
Definition item_ok (host : Host) (it : UploadItem) : Prop :=
  (status it = done ->
   is_Some (outputBlob it) /\ is_Some (outputUrl it) /\
   exists n, outputName it = Some n /\ n <> "") /\
  (status it = error ->
   exists m, errorMessage it = Some m /\
     (m = "" ->
      exists n, bitmap_ok (host n (file it)) = false /\
                decode_error (host n (file it)) = Some (ErrorObj ""))).

Definition heap_ok (host : Host) (s : State) : Prop :=
  forall l it, l ∈ items s -> objs s !! l = Some it -> item_ok host it.

(** A computation keeps a property of states, whether it returns or throws. *)
Definition keeps (P : State -> Prop) {A} (m : M A) : Prop :=
  forall s, P s -> P (m s).2.

(** ** Revoking and deleting in closed form *)

Definition append_log (evs : list event) (s : State) : State :=
  mkState (next_url s) (next_bitmap s) (next_uuid s) (next_loc s) (calls s)
          (log s ++ evs) (objs s) (items s) (selectedPreviewItem s) (quality s)
          (preview s).

(** The URLs held by the object at [l]. *)
Definition urls_at (s : State) (l : loc) : list url :=
  from_option item_urls [] (objs s !! l).

(** The object made for the first of the dropped files in the examples. *)
Definition first_item : UploadItem :=
  mkItem 0 sample_jpeg queued None None None None 2048 None (Some 0).

(** ** The archive *)

Definition archives (lg : list event) : list (gmap string Blob) :=
  omap (fun e => match e with ZipGenerated files => Some files | _ => None end) lg.

(** The entry that [downloadAllZip] files for the object at [l], if any. *)
Definition entry_of (s : State) (l : loc) : option (string * Blob) :=
  match objs s !! l with
  | Some item =>
      match status item, outputBlob item with
      | done, Some blob =>
          Some (default (outputNameOf (file_name (file item))) (outputName item), blob)
      | _, _ => None
      end
  | None => None
  end.

Definition entries (s : State) : list (string * Blob) := omap (entry_of s) (items s).

(** [zip.file] for every entry of a list, in order. *)
Definition file_all (zip : gmap string Blob) (es : list (string * Blob))
  : gmap string Blob :=
  foldl (fun z e => <[e.1 := e.2]> z) zip es.

(** ** Well-formed states *)

(** The shape that every state of a session has: the list holds distinct,
    live proxies; the identifiers and the URLs of the listed items were
    handed out by the counters, and so were the proxies; no identifier and
    no URL belongs to two listed items.  (A proxy in [selectedPreviewItem]
    that is not in the list may have the identifier and the thumbnail URL
    of a listed item.) *)
Record well_formed (s : State) : Prop := mk_well_formed {
  wf_items_nodup : NoDup (items s);
  wf_items_alive : forall l, l ∈ items s -> is_Some (objs s !! l);
  wf_locs : forall l, is_Some (objs s !! l) -> l < next_loc s;
  wf_bounds :
    forall l it, l ∈ items s -> objs s !! l = Some it ->
      id it < next_uuid s /\
      forall u, u ∈ item_urls it -> u < next_url s;
  wf_ids :
    forall l1 l2 it1 it2, l1 ∈ items s -> l2 ∈ items s ->
      objs s !! l1 = Some it1 -> objs s !! l2 = Some it2 ->
      id it1 = id it2 -> l1 = l2;
  wf_urls :
    forall l1 l2 it1 it2 u, l1 ∈ items s -> l2 ∈ items s ->
      objs s !! l1 = Some it1 -> objs s !! l2 = Some it2 ->
      u ∈ item_urls it1 -> u ∈ item_urls it2 -> l1 = l2;
  wf_item_urls :
    forall l it, l ∈ items s -> objs s !! l = Some it -> NoDup (item_urls it)
}.

(** The object that the preview callback leaves at the selected place. *)
Definition generated (it : UploadItem) (blob : Blob) (size : N) (u : url) : UploadItem :=
  mkItem (id it) (file it) (status it) (errorMessage it) (Some u) (Some blob)
         (Some (outputNameOf (file_name (file it)))) (sizeBefore it) (Some size)
         (thumbnailUrl it).

Definition superseded (it : UploadItem) : list url :=
  match outputBlob it, outputUrl it with
  | Some _, Some u => [u]
  | _, _ => []
  end.

Definition after_generated (blob : Blob) (size : N) (l : loc) (it : UploadItem)
           (s : State) : State :=
  mkState (S (next_url s)) (next_bitmap s) (next_uuid s) (next_loc s) (calls s)
          (log s ++ map RevokeObjectURL (superseded it) ++ [CreateObjectURL (next_url s)])
          (<[l := generated it blob size (next_url s)]> (objs s))
          (items s) (selectedPreviewItem s) (quality s) (preview s).

(** [onWebPGenerated] in one step. *)
Definition generated_step (blob : Blob) (size : N) (s : State) : State :=
  match selectedPreviewItem s with
  | Some l =>
      match objs s !! l with
      | Some it => after_generated blob size l it s
      | None => s
      end
  | None => s
  end.

(** [deleteItem] in one step. *)
Definition delete_step (i : nat) (s : State) : State :=
  match findIndex (item_satisfies (fun it => Nat.eqb (id it) i) s) (items s) with
  | Some index =>
      match items s !! index with
      | Some l =>
          set_items (delete index (items s))
            (let s1 := append_log (map RevokeObjectURL (urls_at s l)) s in
             if selected_has_id i s
             then set_selectedPreviewItem
                    (List.find (item_satisfies not_error s) (delete index (items s))) s1
             else s1)
      | None => s
      end
  | None => s
  end.

(** In the words of the specification: the declared media type is one of
    [image/jpeg] and [image/png]. *)
Definition supported_type (t : string) : bool :=
  bool_decide (t = "image/jpeg" \/ t = "image/png").

(** The objects that [handleFiles] creates for a rejected and for an
    accepted file, and the objects created for a list of files, given the
    next identifier and the next URL. *)
Definition rejected_item (i : nat) (f : File) : UploadItem :=
  mkItem i f error (Some "Unsupported file type. Please upload JPEG or PNG.")
         None None None (file_size f) None None.

Definition queued_item (i : nat) (f : File) (thumbnail : url) : UploadItem :=
  mkItem i f queued None None None None (file_size f) None (Some thumbnail).

Fixpoint classify (fileList : list File) (i : nat) (u : url) : list UploadItem :=
  match fileList with
  | [] => []
  | f :: rest =>
      if supported_type (file_type f)
      then queued_item i f u :: classify rest (S i) (S u)
      else rejected_item i f :: classify rest (S i) u
  end.

(** ** [handleFiles] in closed form *)

Definition thumbnails (raws : list UploadItem) : list url := omap thumbnailUrl raws.

(** The heap with a proxy for each of the raw objects, from [l] on. *)
Fixpoint add_proxies (raws : list UploadItem) (l : loc) (o : gmap loc UploadItem)
  : gmap loc UploadItem :=
  match raws with
  | [] => o
  | raw :: rest => add_proxies rest (S l) (<[l := raw]> o)
  end.

(** The state after the loop that makes the raw objects, and after their
    proxies are pushed to the list. *)
Definition after_new_items (fileList : list File) (s : State) : State :=
  let raws := classify fileList (next_uuid s) (next_url s) in
  mkState (next_url s + List.length (thumbnails raws)) (next_bitmap s)
          (next_uuid s + List.length fileList) (next_loc s) (calls s)
          (log s ++ map CreateObjectURL (thumbnails raws))
          (objs s) (items s) (selectedPreviewItem s) (quality s) (preview s).

Definition pushed (raws : list UploadItem) (s : State) : State :=
  mkState (next_url s) (next_bitmap s) (next_uuid s)
          (next_loc s + List.length raws) (calls s) (log s)
          (add_proxies raws (next_loc s) (objs s))
          (items s ++ seq (next_loc s) (List.length raws))
          (selectedPreviewItem s) (quality s) (preview s).

Definition after_handleFiles (fileList : list File) (s : State) : State :=
  pushed (classify fileList (next_uuid s) (next_url s)) (after_new_items fileList s).

(** The timer of [handleFiles] in closed form. *)
Definition auto_select (newItems : list UploadItem) (s : State) : State :=
  match selectedPreviewItem s, List.find not_error newItems with
  | None, Some firstValid =>
      mkState (next_url s) (next_bitmap s) (next_uuid s) (S (next_loc s)) (calls s)
              (log s) (<[next_loc s := firstValid]> (objs s)) (items s)
              (Some (next_loc s)) (quality s) (preview s)
  | _, _ => s
  end.

(** * Further definitions used to state and prove properties *)

(** The items that [downloadAllZip] packs: the test of its loop, which is
    also the test of [hasDone]. *)
Definition packed (i : UploadItem) : bool :=
  status_eqb (status i) done && bool_decide (is_Some (outputBlob i)).

(** ** The comparison view in closed form *)

(** [write_preview] as a function on states. *)
Definition with_preview (f : Preview -> Preview) (s : State) : State :=
  set_preview (f <$> preview s) s.

(** A new URL is created and the view keeps it in the field that [f]
    sets. *)
Definition store_url (f : url -> Preview -> Preview) (s : State) : State :=
  with_preview (f (next_url s)) (exec createObjectURL s).

(** The view revokes the URLs [us] that it holds. *)
Definition revoke_urls (us : list url) (s : State) : State :=
  append_log (map RevokeObjectURL us) s.

(** What the view does with a converted blob: it stores a URL for it and
    its size, and calls [onWebPGenerated]. *)
Definition show_webp (b : Blob) (s : State) : State :=
  generated_step b (blob_size b)
    (with_preview (set_webpSize (blob_size b)) (store_url set_webpUrl s)).

(** The first effect when the view is mounted and a file is selected. *)
Definition generate_step (host : Host) (f : File) (s : State) : State :=
  let s1 := with_preview (set_isLoading true)
              (with_preview (set_originalSize (file_size f))
                 (store_url set_originalUrl s)) in
  let h := host (calls s) f in
  let s2 := after_convert h f (quality s) s1 in
  with_preview (set_isLoading false)
    match outcome h with
    | Returned b => show_webp b s2
    | Threw _ => s2
    end.

(** The second effect in the same situation. *)
Definition reconvert_step (host : Host) (f : File) (s : State) : State :=
  let h := host (calls s) f in
  let s1 := after_convert h f (quality s) s in
  match outcome h with
  | Returned b =>
      show_webp b (revoke_urls (option_list (preview s ≫= webpUrl)) s1)
  | Threw _ => s1
  end.

(** ** The timers of the page *)

(** The shape of the timers of every page that a sequence of happenings
    leads to: handles are positive and below the next one; a pending timer
    of [updatePreviewItemDebounced] has its handle in [previewUpdateTimeout];
    and the handle in [previewUpdateTimeout] is that of a pending timer of
    [updatePreviewItemDebounced]. *)
Record timers_ok (p : Timed.Page) : Prop := mk_timers_ok {
  tk_next : 0 < Timed.next_timer p;
  tk_handles :
    forall h c, Timed.timers p !! h = Some c -> 0 < h < Timed.next_timer p;
  tk_debounced :
    forall h item,
      Timed.timers p !! h = Some (Timed.SetPreviewItem item) ->
      Timed.previewUpdateTimeout p = Some h;
  tk_handle :
    forall h, Timed.previewUpdateTimeout p = Some h ->
      exists item, Timed.timers p !! h = Some (Timed.SetPreviewItem item)
}.

(** ** The divider *)

(** The position of the divider is [NaN] or a percentage from 5 to 95. *)
Definition divider_in_range (d : Divider.Divider) : Prop :=
  PrimFloat.is_nan (Divider.dividerPosition d) = true \/
  ((5 <=? Divider.dividerPosition d)%float = true /\
   (Divider.dividerPosition d <=? 95)%float = true).

(** * Output names: the pattern against the words of the specification *)

Lemma char_match_lower (p d : ascii) :
  List.In p ["."%char; "j"%char; "p"%char; "e"%char; "g"%char; "n"%char] ->
  Regex.char_match true p d = Ascii.eqb (lower_char d) p.
Proof.
  intros Hp.
  destruct d as [[] [] [] [] [] [] [] []];
    repeat (destruct Hp as [<- | Hp]; [reflexivity |]);
    destruct Hp.
Qed.

Ltac pattern_chars :=
  repeat (rewrite char_match_lower by (simpl; tauto)).

Ltac split_char_tests :=
  repeat match goal with
         | |- context [Ascii.eqb (lower_char ?c) ?p] =>
             let E := fresh "E" in
             destruct (Ascii.eqb_spec (lower_char c) p) as [E|E];
             [try rewrite E | ];
             cbn [Ascii.eqb Bool.eqb andb orb]
         end.

Lemma exec_here_extension (s : string) :
  Regex.exec_here true extension_re s =
  if is_source_extension s then Some "" else None.
Proof.
  unfold Regex.exec_here, is_source_extension, extension_re, source_extensions.
  destruct s as [|c1 [|c2 [|c3 [|c4 [|c5 [|c6 s]]]]]];
    cbn [Regex.run existsb String.eqb lower_string orb]; pattern_chars.
  all: split_char_tests; try reflexivity; try congruence.
Qed.

Lemma replace_extension_step (s : string) :
  Regex.replace true extension_re "" s =
  if is_source_extension s then ""
  else match s with
       | EmptyString => EmptyString
       | String c s' => String c (Regex.replace true extension_re "" s')
       end.
Proof.
  destruct s; cbn [Regex.replace]; rewrite exec_here_extension;
    destruct (is_source_extension _); reflexivity.
Qed.

Lemma substring_whole (s : string) : substring 0 (String.length s) s = s.
Proof. induction s; simpl; congruence. Qed.

Lemma has_extension_cons (ext : string) (c : ascii) (n : string) :
  has_extension ext (String c n) =
  if (String.length ext <=? String.length n)%nat then has_extension ext n
  else (String.length ext =? S (String.length n))%nat
       && String.eqb (lower_string (String c n)) ext.
Proof.
  unfold has_extension. cbn [String.length].
  destruct (Nat.leb_spec (String.length ext) (String.length n)) as [H|H].
  - replace (String.length ext <=? S (String.length n))%nat with true
      by (symmetry; apply Nat.leb_le; lia).
    replace (S (String.length n) - String.length ext)
      with (S (String.length n - String.length ext)) by lia.
    reflexivity.
  - destruct (Nat.eqb_spec (String.length ext) (S (String.length n))) as [E|E].
    + rewrite E, Nat.leb_refl, Nat.sub_diag.
      change (S (String.length n)) with (String.length (String c n)).
      rewrite substring_whole. reflexivity.
    + replace (String.length ext <=? S (String.length n))%nat with false
        by (symmetry; apply Nat.leb_gt; lia).
      reflexivity.
Qed.

Lemma length_lower_string (s : string) :
  String.length (lower_string s) = String.length s.
Proof. induction s; simpl; congruence. Qed.

Lemma lower_string_substring (s : string) : forall a b,
  lower_string (substring a b s) = substring a b (lower_string s).
Proof.
  induction s as [|c s IH]; intros [|a] [|b]; simpl; try reflexivity.
  - rewrite IH. reflexivity.
  - apply IH.
  - apply IH.
Qed.

Lemma has_extension_whole (s : string) :
  is_source_extension s = true ->
  exists ext,
    List.find (fun ext => has_extension ext s) source_extensions = Some ext /\
    String.length ext = String.length s.
Proof.
  unfold is_source_extension, source_extensions. cbn [existsb].
  assert (Hx : forall ext, has_extension ext s =
                 (String.length ext <=? String.length (lower_string s))%nat &&
                 String.eqb (substring (String.length (lower_string s) - String.length ext)
                               (String.length ext) (lower_string s)) ext).
  { intros ext. unfold has_extension.
    rewrite lower_string_substring, length_lower_string. reflexivity. }
  rewrite <- (length_lower_string s).
  cbn [List.find]. rewrite !Hx.
  intros H.
  destruct (String.eqb_spec (lower_string s) ".jpg") as [E|_].
  { rewrite E. vm_compute. eauto. }
  destruct (String.eqb_spec (lower_string s) ".jpeg") as [E|_].
  { rewrite E. vm_compute. eauto. }
  destruct (String.eqb_spec (lower_string s) ".png") as [E|_].
  { rewrite E. vm_compute. eauto. }
  discriminate H.
Qed.

Lemma has_extension_short (ext s : string) :
  (String.length s < String.length ext)%nat -> has_extension ext s = false.
Proof.
  intros H. unfold has_extension.
  replace (String.length ext <=? String.length s)%nat with false
    by (symmetry; apply Nat.leb_gt; lia).
  reflexivity.
Qed.

Lemma has_extension_cons_other (ext : string) (c : ascii) (n : string) :
  is_source_extension (String c n) = false ->
  List.In ext source_extensions ->
  has_extension ext (String c n) = has_extension ext n.
Proof.
  intros Hn Hin. rewrite has_extension_cons.
  destruct (Nat.leb_spec (String.length ext) (String.length n)) as [H|H];
    [reflexivity|].
  rewrite has_extension_short by lia.
  apply andb_false_intro2.
  unfold is_source_extension in Hn.
  apply not_true_is_false. intros E.
  assert (existsb (String.eqb (lower_string (String c n))) source_extensions = true)
    by (apply existsb_exists; eauto).
  congruence.
Qed.

Lemma find_agree {A} (f g : A -> bool) (l : list A) :
  (forall x, List.In x l -> f x = g x) -> List.find f l = List.find g l.
Proof.
  induction l as [|x l IH]; intros H; simpl; [reflexivity|].
  rewrite (H x) by (left; reflexivity).
  destruct (g x); [reflexivity|]. apply IH. intros y Hy. apply H. right. exact Hy.
Qed.

Lemma replace_strip_extension (name : string) :
  Regex.replace true extension_re "" name = strip_extension name.
Proof.
  induction name as [|c n IH].
  - reflexivity.
  - rewrite replace_extension_step.
    destruct (is_source_extension (String c n)) eqn:Hw.
    + destruct (has_extension_whole _ Hw) as (ext & Hf & Hl).
      unfold strip_extension. rewrite Hf, Hl, Nat.sub_diag. reflexivity.
    + rewrite IH. unfold strip_extension.
      rewrite (find_agree (fun ext => has_extension ext (String c n))
                 (fun ext => has_extension ext n))
        by (intros; apply has_extension_cons_other; assumption).
      destruct (List.find _ source_extensions) as [ext|] eqn:Hf; [|reflexivity].
      apply List.find_some in Hf as [_ Hf].
      unfold has_extension in Hf. apply andb_prop in Hf as [Hf _].
      apply Nat.leb_le in Hf. cbn [String.length].
      replace (S (String.length n) - String.length ext)
        with (S (String.length n - String.length ext)) by lia.
      reflexivity.
Qed.

(** C8.  For every file name, the output name computed with the pattern
    [/\.(jpe?g|png)$/i] is the name that the specification describes: the
    file name without one trailing [.jpg], [.jpeg] or [.png], matched in any
    letter case, followed by [.webp]; a name without such an extension is
    kept whole. *)
Theorem outputName_strips_extension (name : string) :
  outputNameOf name = spec_outputName name.
Proof.
  unfold outputNameOf, spec_outputName.
  rewrite replace_strip_extension. unfold strip_extension.
  destruct (List.find _ source_extensions); reflexivity.
Qed.

Lemma outputNameOf_nonempty name : outputNameOf name <> "".
Proof.
  unfold outputNameOf. destruct (Regex.replace _ _ _ _); discriminate.
Qed.

Example outputNameOf_upper : outputNameOf "photo.JPG" = "photo.webp".
Proof. reflexivity. Qed.

Example outputNameOf_last_only : outputNameOf "a.png.jpeg" = "a.png.webp".
Proof. reflexivity. Qed.

Example outputNameOf_other : outputNameOf "anim.gif" = "anim.gif.webp".
Proof. reflexivity. Qed.

Example outputNameOf_inside : outputNameOf "x.jpg.bak" = "x.jpg.bak.webp".
Proof. reflexivity. Qed.

(** * Reasoning about computations and logs *)

Lemma since_app (s s' : State) evs : log s' = log s ++ evs -> since s s' = evs.
Proof. intros H. unfold since. rewrite H. apply drop_app_length. Qed.

Lemma append_log_app evs1 evs2 s :
  append_log evs2 (append_log evs1 s) = append_log (evs1 ++ evs2) s.
Proof. unfold append_log. cbn. rewrite app_assoc. reflexivity. Qed.

Lemma append_log_nil s : append_log [] s = s.
Proof. unfold append_log. rewrite app_nil_r. destruct s; reflexivity. Qed.

Lemma for_each_run {A} (body : A -> M unit) (f : A -> State -> State) :
  (forall x s, body x s = (Returned tt, f x s)) ->
  forall l s, for_each l body s = (Returned tt, foldl (fun s x => f x s) s l).
Proof.
  intros Hb l. induction l as [|x l IH]; intros s; [reflexivity|].
  cbn [for_each foldl]. unfold bind. rewrite Hb. apply IH.
Qed.

Lemma alter_present (f : UploadItem -> UploadItem) l (m : gmap loc UploadItem) it :
  m !! l = Some it -> alter f l m = <[l := f it]> m.
Proof.
  intros H. apply map_eq. intros j.
  destruct (decide (l = j)) as [<-|Hne].
  - rewrite lookup_alter_eq, lookup_insert_eq, H. reflexivity.
  - rewrite lookup_alter_ne, lookup_insert_ne by done. reflexivity.
Qed.

Lemma alter_absent (f : UploadItem -> UploadItem) l (m : gmap loc UploadItem) :
  m !! l = None -> alter f l m = m.
Proof.
  intros H. apply map_eq. intros j.
  destruct (decide (l = j)) as [<-|Hne].
  - rewrite lookup_alter_eq, H. reflexivity.
  - rewrite lookup_alter_ne by done. reflexivity.
Qed.

Lemma elem_of_queue s it : it ∈ queue s -> exists l, l ∈ items s /\ objs s !! l = Some it.
Proof.
  unfold queue. intros H. apply list_elem_of_omap in H as (l & Hl & Ho). eauto.
Qed.

Lemma omap_cons_eq {A B} (f : A -> option B) x l :
  omap f (x :: l) =
  match f x with
  | Some y => y :: omap f l
  | None => omap f l
  end.
Proof. reflexivity. Qed.

(** Reasoning about what a computation keeps *)
Lemma keeps_ret {P : State -> Prop} {A} (a : A) : keeps P (ret a).
Proof. intros s H. exact H. Qed.

Lemma keeps_throw {P : State -> Prop} {A} (e : thrown) : keeps P (@throw A e).
Proof. intros s H. exact H. Qed.

Lemma keeps_bind {P : State -> Prop} {A B} (m : M A) (k : A -> M B) :
  keeps P m -> (forall a, keeps P (k a)) -> keeps P (bind m k).
Proof.
  intros Hm Hk s H. unfold bind. specialize (Hm s H).
  destruct (m s) as [[a|e] s1]; cbn in *; [apply Hk; exact Hm | exact Hm].
Qed.

Lemma keeps_try_catch {P : State -> Prop} {A} (m : M A) (h : thrown -> M A) :
  keeps P m -> (forall e, keeps P (h e)) -> keeps P (try_catch m h).
Proof.
  intros Hm Hh s H. unfold try_catch. specialize (Hm s H).
  destruct (m s) as [[a|e] s1]; cbn in *; [exact Hm | apply Hh; exact Hm].
Qed.

Lemma keeps_gets {P : State -> Prop} {A} (f : State -> A) : keeps P (gets f).
Proof. intros s H. exact H. Qed.

Lemma keeps_when {P : State -> Prop} b m : keeps P m -> keeps P (when b m).
Proof. destruct b; [trivial | intros _; apply keeps_ret]. Qed.

Lemma keeps_for_each {P : State -> Prop} {A} (l : list A) (body : A -> M unit) :
  (forall x, keeps P (body x)) -> keeps P (for_each l body).
Proof.
  intros Hb. induction l as [|x l IH]; cbn [for_each].
  - apply keeps_ret.
  - apply keeps_bind; [apply Hb | intros _; exact IH].
Qed.

(** * The conversion helper and its temporary resources *)

Lemma convertImageToWebP_run host f q s :
  convertImageToWebP host f q s =
  (outcome (host (calls s) f), after_convert (host (calls s) f) f q s).
Proof.
  unfold convertImageToWebP, after_convert, outcome, after_decoding, converter_events,
    outcome, after_decoding.
  unfold bind, next_call, emit, modify, createImageBitmap, getContext, toBlob, decode,
    createObjectURL, revokeObjectURL, emit, modify, ret, throw.
  cbn.
  destruct (host (calls s) f) as [[] [] [b|] [e|]]; cbn;
    rewrite <- ?app_assoc; reflexivity.
Qed.

Arguments convertImageToWebP : simpl never.


Lemma convertImageToWebP_cleanup host f q s :
  let r := convertImageToWebP host f q s in
  bitmaps_closed (since s r.2) =
    (if succeeded r.1 then bitmaps_opened (since s r.2) else []) /\
  revoked (since s r.2) =
    (if succeeded r.1 then created (since s r.2) else []).
Proof.
  cbn zeta. rewrite convertImageToWebP_run. cbn [fst snd].
  unfold since, after_convert. cbn [log]. rewrite drop_app_length.
  unfold converter_events.
  destruct (bitmap_ok _), (succeeded _); split; reflexivity.
Qed.

(** C5.  The code at two failing calls: when the bitmap is decoded and the
    canvas gives no context, the call throws and the bitmap that it opened
    is never closed; when the image element is used and the encoder gives no
    blob, the call throws and the URL that it created is never revoked. *)
Theorem convertImageToWebP_keeps_resources_on_failure :
  let r1 := convertImageToWebP no_context_host sample_jpeg initial_quality initial in
  let r2 := convertImageToWebP no_blob_host sample_jpeg initial_quality initial in
  r1.1 = Threw (ErrorObj "Canvas not supported") /\
  bitmaps_opened (log r1.2) = [0] /\ bitmaps_closed (log r1.2) = [] /\
  r2.1 = Threw (ErrorObj "Blob conversion failed") /\
  created (log r2.2) = [0] /\ revoked (log r2.2) = [].
Proof. repeat split; reflexivity. Qed.

(** * The batch conversion *)

Lemma convertItem_pending host l it s :
  objs s !! l = Some it -> pending it = true ->
  exec (convertItem host l) s = after_item host l it s.
Proof.
  intros Hl Hp.
  unfold exec, convertItem, bind, read, gets. cbn. rewrite Hl, Hp. cbn.
  unfold write_status, try_catch, convert_and_store, store_failure, write_status,
    bind, write, emit, modify, gets, createObjectURL. cbn.
  rewrite convertImageToWebP_run. cbn.
  unfold after_item, final_status.
  destruct (outcome _) as [b|e]; unfold set_objs; cbn.
  - f_equal.
    + rewrite <- !app_assoc. reflexivity.
    + rewrite !alter_alter_eq. rewrite (alter_present _ _ _ _ Hl). reflexivity.
  - f_equal.
    + rewrite <- !app_assoc. reflexivity.
    + rewrite !alter_alter_eq. rewrite (alter_present _ _ _ _ Hl). reflexivity.
Qed.

Lemma convertItem_run host l s :
  convertItem host l s = (Returned tt, convert_step host l s).
Proof.
  unfold convert_step.
  destruct (objs s !! l) as [it|] eqn:Hl.
  - destruct (pending it) eqn:Hp.
    + rewrite <- (convertItem_pending host l it s Hl Hp).
      unfold exec, convertItem, bind, read, gets. cbn. rewrite Hl, Hp. cbn.
      unfold write_status, try_catch, convert_and_store, store_failure, write_status,
        bind, write, emit, modify, gets, createObjectURL. cbn.
      rewrite convertImageToWebP_run. cbn.
      destruct (outcome _); reflexivity.
    + unfold convertItem, bind, read, gets. cbn. rewrite Hl, Hp. reflexivity.
  - unfold convertItem, bind, read, gets. cbn. rewrite Hl. reflexivity.
Qed.

Lemma convertAll_run host s :
  convertAll host s =
  (Returned tt, foldl (fun s l => convert_step host l s) s (items s)).
Proof.
  unfold convertAll, bind, gets.
  apply (for_each_run _ (convert_step host)). apply convertItem_run.
Qed.


Lemma after_item_next_url host l it s :
  next_url s <= next_url (after_convert (host (calls s) (file it)) (file it) (quality s) s)
  /\ next_url (after_convert (host (calls s) (file it)) (file it) (quality s) s)
     <= next_url (after_item host l it s)
  /\ (succeeded (outcome (host (calls s) (file it))) = true ->
      next_url (after_convert (host (calls s) (file it)) (file it) (quality s) s)
      < next_url (after_item host l it s)).
Proof.
  cbn. destruct (bitmap_ok _), (succeeded _); repeat split; intros; try lia; discriminate.
Qed.

Lemma convert_step_frame host l s :
  items (convert_step host l s) = items s /\
  quality (convert_step host l s) = quality s /\
  selectedPreviewItem (convert_step host l s) = selectedPreviewItem s /\
  preview (convert_step host l s) = preview s /\
  next_url s <= next_url (convert_step host l s).
Proof.
  unfold convert_step.
  destruct (objs s !! l) as [it|]; [destruct (pending it)|]; cbn;
    repeat split; try lia.
  destruct (bitmap_ok _), (succeeded _); lia.
Qed.

Lemma convert_step_other host l s l' :
  l' <> l -> objs (convert_step host l s) !! l' = objs s !! l'.
Proof.
  intros Hne. unfold convert_step.
  destruct (objs s !! l) as [it|]; [destruct (pending it)|]; cbn; try reflexivity.
  apply lookup_insert_ne. congruence.
Qed.

Lemma convert_step_calls host l s :
  calls (convert_step host l s) =
  calls s + (if item_satisfies pending s l then 1 else 0).
Proof.
  unfold convert_step, item_satisfies.
  destruct (objs s !! l) as [it|]; [destruct (pending it)|]; cbn; lia.
Qed.









Lemma batch_items host ls : forall s, items (batch host ls s) = items s.
Proof.
  induction ls as [|l ls IH]; intros s; [reflexivity|].
  change (batch host (l :: ls) s) with (batch host ls (convert_step host l s)).
  rewrite IH. apply convert_step_frame.
Qed.

Lemma convert_step_visited host l s it' :
  objs (convert_step host l s) !! l = Some it' ->
  status it' = done \/ status it' = error \/
  (status it' = converting /\ objs s !! l = Some it').
Proof.
  unfold convert_step. destruct (objs s !! l) as [it|] eqn:Hl.
  - destruct (pending it) eqn:Hp.
    + cbn. rewrite lookup_insert_eq. intros [= <-].
      destruct (outcome _); cbn; auto.
    + rewrite Hl. intros [= <-]. unfold pending in Hp.
      destruct (status it); cbn in Hp; try discriminate; auto.
  - rewrite Hl. discriminate.
Qed.

Lemma convert_step_settles_or_keeps host l0 s l it' :
  objs (convert_step host l0 s) !! l = Some it' ->
  status it' = done \/ status it' = error \/ objs s !! l = Some it'.
Proof.
  destruct (decide (l = l0)) as [->|Hne].
  - intros H. destruct (convert_step_visited _ _ _ _ H) as [?|[?|[_ ?]]]; auto.
  - rewrite convert_step_other by exact Hne. auto.
Qed.

Lemma batch_settles_or_keeps host ls : forall s l it',
  objs (batch host ls s) !! l = Some it' ->
  status it' = done \/ status it' = error \/ objs s !! l = Some it'.
Proof.
  induction ls as [|l0 ls IH]; intros s l it' H; [auto|].
  change (batch host (l0 :: ls) s) with (batch host ls (convert_step host l0 s)) in H.
  destruct (IH _ _ _ H) as [?|[?|H1]]; auto.
  apply convert_step_settles_or_keeps in H1. exact H1.
Qed.

Lemma batch_visited host ls : forall s l it',
  l ∈ ls -> objs (batch host ls s) !! l = Some it' ->
  status it' = done \/ status it' = error \/
  (status it' = converting /\ objs s !! l = Some it').
Proof.
  induction ls as [|l0 ls IH]; intros s l it' Hin H.
  - apply elem_of_nil in Hin. contradiction.
  - change (batch host (l0 :: ls) s) with (batch host ls (convert_step host l0 s)) in H.
    destruct (decide (l ∈ ls)) as [Hl|Hl].
    + destruct (IH _ _ _ Hl H) as [?|[?|[Hc H1]]]; auto.
      destruct (convert_step_settles_or_keeps _ _ _ _ _ H1) as [?|[?|?]];
        try congruence. auto.
    + apply elem_of_cons in Hin as [->|Hin]; [|contradiction].
      destruct (batch_settles_or_keeps _ _ _ _ _ H) as [?|[?|H1]]; auto.
      apply convert_step_visited in H1. exact H1.
Qed.

(** If no item of the list is [converting] when [convertAll] is called, then
    after the call every item of the list is [done] or [error]. *)
Lemma convertAll_settles_queue (host : Host) (s : State) :
  Forall (fun it => status it <> converting) (queue s) ->
  Forall (fun it => status it = done \/ status it = error)
         (queue (exec (convertAll host) s)).
Proof.
  intros Hs. unfold exec. rewrite convertAll_run. cbn [snd].
  fold (batch host (items s) s).
  apply Forall_forall. intros it' Hit.
  apply elem_of_queue in Hit as (l & Hl & Ho).
  rewrite batch_items in Hl.
  destruct (batch_visited _ _ _ _ _ Hl Ho) as [?|[?|[Hc H1]]]; auto.
  exfalso. rewrite Forall_forall in Hs. apply (Hs it'); [|exact Hc].
  unfold queue. apply list_elem_of_omap. eauto.
Qed.

(** C10 (amended).  After a call of [convertAll], every item of the list is
    [done] or [error], except an item that was [converting] when the call
    started: such an item is left as it was.  So no item is [queued]
    afterwards, and when no item was [converting] at the start, every item
    is [done] or [error]. *)
Theorem convertAll_settles_every_item
        (host : Host) (s : State) (l : loc) (it' : UploadItem) :
  l ∈ items s ->
  objs (exec (convertAll host) s) !! l = Some it' ->
  status it' = done \/ status it' = error \/
  (status it' = converting /\ objs s !! l = Some it').
Proof.
  intros Hl Ho. unfold exec in Ho. rewrite convertAll_run in Ho. cbn [snd] in Ho.
  exact (batch_visited host (items s) s l it' Hl Ho).
Qed.

Lemma convertAll_settles_every_item_witness :
  (1 ∈ items first_call_suspended) /\
  objs (exec (convertAll good_host) first_call_suspended) !! 1 = Some second_item_done /\
  (status second_item_done = done \/ status second_item_done = error \/
   (status second_item_done = converting /\
    objs first_call_suspended !! 1 = Some second_item_done)).
Proof.
  assert (H1 : 1 ∈ items first_call_suspended)
    by (apply (bool_decide_unpack _); vm_compute; exact I).
  assert (H2 : objs (exec (convertAll good_host) first_call_suspended) !! 1
               = Some second_item_done) by reflexivity.
  split; [exact H1|]. split; [exact H2|].
  exact (convertAll_settles_every_item good_host first_call_suspended 1
           second_item_done H1 H2).
Defined.

(** C10, as stated, fails: when a call of [convertAll] runs while an earlier
    call waits for the conversion of the first item, the later call skips
    that item, and at its completion the item is still [converting]. *)
Lemma convertAll_skips_converting_item :
  ~ Forall (fun it => status it = done \/ status it = error)
      (queue (exec (convertAll good_host) first_call_suspended)).
Proof.
  intros H. vm_compute in H.
  apply Forall_cons in H as [[H|H] _]; discriminate H.
Qed.

(** * Accepting files *)

Lemma accepted_supported f : accepted f = supported_type (file_type f).
Proof.
  unfold accepted, supported_type.
  destruct (String.eqb_spec (file_type f) "image/jpeg") as [E1|E1];
    destruct (String.eqb_spec (file_type f) "image/png") as [E2|E2]; cbn;
    symmetry; first [apply bool_decide_eq_true; tauto
                    | apply bool_decide_eq_false; tauto].
Qed.

Lemma conversions_app l1 l2 : conversions (l1 ++ l2) = conversions l1 ++ conversions l2.
Proof. apply omap_app. Qed.

Lemma classify_length fl : forall i u, List.length (classify fl i u) = List.length fl.
Proof.
  induction fl as [|f fl IH]; intros i u; [reflexivity|].
  cbn. destruct (supported_type _); cbn; rewrite IH; reflexivity.
Qed.

Lemma new_items_run fl : forall s,
  new_items fl s =
  (Returned (classify fl (next_uuid s) (next_url s)), after_new_items fl s).
Proof.
  induction fl as [|f fl IH]; intros s.
  - cbn. unfold ret, after_new_items. cbn.
    rewrite !Nat.add_0_r, app_nil_r. destruct s; reflexivity.
  - cbn [new_items classify]. unfold bind, new_item.
    rewrite accepted_supported.
    destruct (supported_type (file_type f)) eqn:Ha; cbn;
      rewrite IH; cbn; unfold after_new_items, thumbnails; cbn; rewrite Ha; cbn;
      rewrite ?Nat.add_succ_r, <- ?app_assoc; reflexivity.
Qed.

Lemma push_run raws : forall s, push raws s = (Returned tt, pushed raws s).
Proof.
  induction raws as [|raw raws IH]; intros s.
  - cbn. unfold ret, pushed. cbn. rewrite Nat.add_0_r, app_nil_r.
    destruct s; reflexivity.
  - cbn [push]. unfold bind, alloc, modify. cbn. rewrite IH.
    unfold pushed. cbn. rewrite ?Nat.add_succ_r, <- ?app_assoc. reflexivity.
Qed.

Lemma handleFiles_run fl s :
  handleFiles fl s =
  (Returned (match selectedPreviewItem s, fl with
             | None, _ :: _ => Some (classify fl (next_uuid s) (next_url s))
             | _, _ => None
             end),
   after_handleFiles fl s).
Proof.
  unfold handleFiles, bind, gets. rewrite new_items_run, push_run. cbn.
  rewrite classify_length.
  destruct (selectedPreviewItem s), fl; reflexivity.
Qed.

Lemma handleFiles_timeout_run newItems s :
  handleFiles_timeout newItems s = (Returned tt, auto_select newItems s).
Proof.
  unfold handleFiles_timeout, auto_select, bind, gets, when.
  destruct (selectedPreviewItem s) eqn:Hs; cbn; [reflexivity|].
  destruct (List.find not_error newItems); [|reflexivity].
  unfold bind, alloc, modify, set_selectedPreviewItem. cbn. reflexivity.
Qed.

Lemma add_proxies_lookup raws : forall l o k,
  add_proxies raws l o !! k =
  if bool_decide (l <= k < l + List.length raws) then raws !! (k - l) else o !! k.
Proof.
  induction raws as [|raw raws IH]; intros l o k.
  - cbn. rewrite bool_decide_false by lia. reflexivity.
  - cbn [add_proxies List.length]. rewrite IH.
    destruct (decide (S l <= k < S l + List.length raws)) as [H|H].
    + rewrite !bool_decide_true by lia.
      replace (k - l) with (S (k - S l)) by lia. reflexivity.
    + rewrite (bool_decide_false _ H).
      destruct (decide (k = l)) as [->|Hne].
      * rewrite bool_decide_true by lia. rewrite Nat.sub_diag, lookup_insert_eq.
        reflexivity.
      * rewrite bool_decide_false by lia. apply lookup_insert_ne. lia.
Qed.

(** The raw objects of a list of files: identifiers and thumbnail URLs are
    handed out in order. *)
Lemma classify_lookup fl : forall i u k it,
  classify fl i u !! k = Some it ->
  id it = i + k /\
  (exists f, fl !! k = Some f /\ file it = f) /\
  (status it = queued \/
   (status it = error /\
    errorMessage it = Some "Unsupported file type. Please upload JPEG or PNG.")) /\
  outputUrl it = None /\ outputBlob it = None /\
  forall v, v ∈ item_urls it ->
    thumbnailUrl it = Some v /\
    u <= v < u + List.length (thumbnails (classify fl i u)) /\
    v = u + List.length (thumbnails (take k (classify fl i u))).
Proof.
  unfold thumbnails.
  induction fl as [|f fl IH]; intros i u k it H; [discriminate H|].
  cbn [classify] in *.
  destruct (supported_type (file_type f)) eqn:Ha.
  - destruct k as [|k]; cbn in H.
    + injection H as <-. cbn. split; [lia|]. split; [eauto|]. split; [auto|].
      split; [reflexivity|]. split; [reflexivity|].
      intros v Hv. apply list_elem_of_singleton in Hv as ->.
      split; [reflexivity|]. lia.
    + destruct (IH _ _ _ _ H) as (Hid & Hf & Hst & Ho & Hb & Hu).
      split; [lia|]. split; [exact Hf|]. split; [exact Hst|].
      split; [exact Ho|]. split; [exact Hb|].
      intros v Hv. destruct (Hu v Hv) as (Ht & Hr & He).
      split; [exact Ht|]. cbn. lia.
  - destruct k as [|k]; cbn in H.
    + injection H as <-. cbn. split; [lia|]. split; [eauto|]. split; [auto|].
      split; [reflexivity|]. split; [reflexivity|].
      intros v Hv. apply elem_of_nil in Hv. contradiction.
    + destruct (IH _ _ _ _ H) as (Hid & Hf & Hst & Ho & Hb & Hu).
      split; [lia|]. split; [exact Hf|]. split; [exact Hst|].
      split; [exact Ho|]. split; [exact Hb|].
      intros v Hv. destruct (Hu v Hv) as (Ht & Hr & He).
      split; [exact Ht|]. cbn. lia.
Qed.

Lemma thumbnails_queued raws k it v :
  raws !! k = Some it -> thumbnailUrl it = Some v ->
  List.length (thumbnails (take k raws)) < List.length (thumbnails (take (S k) raws)).
Proof.
  revert k. induction raws as [|r raws IH]; intros k H Hv; [discriminate H|].
  destruct k as [|k]; cbn in H.
  - injection H as ->. cbn. unfold thumbnails. cbn. rewrite Hv. cbn. lia.
  - specialize (IH k H Hv). unfold thumbnails in *. cbn [take omap].
    rewrite !omap_cons_eq. destruct (thumbnailUrl r); cbn; lia.
Qed.

Lemma thumbnails_take_mono raws k1 k2 :
  k1 <= k2 ->
  List.length (thumbnails (take k1 raws)) <= List.length (thumbnails (take k2 raws)).
Proof.
  revert k1 k2. induction raws as [|r raws IH]; intros k1 k2 H.
  - rewrite !take_nil. reflexivity.
  - destruct k1 as [|k1]; [cbn; lia|]. destruct k2 as [|k2]; [lia|].
    specialize (IH k1 k2 ltac:(lia)). unfold thumbnails in *. cbn [take].
    rewrite !omap_cons_eq. destruct (thumbnailUrl r); cbn; lia.
Qed.

(** No thumbnail URL is given to two of the raw objects. *)
Lemma classify_urls_inj fl i u k1 k2 it1 it2 v :
  classify fl i u !! k1 = Some it1 -> classify fl i u !! k2 = Some it2 ->
  v ∈ item_urls it1 -> v ∈ item_urls it2 -> k1 = k2.
Proof.
  intros H1 H2 Hv1 Hv2.
  destruct (classify_lookup fl i u k1 it1 H1) as (_ & _ & _ & _ & _ & Hu1).
  destruct (classify_lookup fl i u k2 it2 H2) as (_ & _ & _ & _ & _ & Hu2).
  destruct (Hu1 v Hv1) as (Ht1 & _ & He1). destruct (Hu2 v Hv2) as (Ht2 & _ & He2).
  pose proof (thumbnails_queued _ _ _ _ H1 Ht1) as Hlt1.
  pose proof (thumbnails_queued _ _ _ _ H2 Ht2) as Hlt2.
  destruct (Nat.lt_trichotomy k1 k2) as [Hlt|[Heq|Hlt]]; [|exact Heq|].
  - pose proof (thumbnails_take_mono (classify fl i u) (S k1) k2 ltac:(lia)). lia.
  - pose proof (thumbnails_take_mono (classify fl i u) (S k2) k1 ltac:(lia)). lia.
Qed.

Lemma classify_item_urls fl i u k it :
  classify fl i u !! k = Some it -> NoDup (item_urls it).
Proof.
  intros H. destruct (classify_lookup fl i u k it H) as (_ & _ & _ & Ho & _ & _).
  unfold item_urls. rewrite Ho. cbn.
  destruct (thumbnailUrl it); cbn; [apply NoDup_singleton | apply NoDup_nil_2].
Qed.

(** The objects of the heap after [handleFiles]: the old ones, and behind
    them a proxy for each raw object. *)
Lemma after_handleFiles_lookup fl s l :
  objs (after_handleFiles fl s) !! l =
  if bool_decide (next_loc s <= l < next_loc s + List.length fl)
  then classify fl (next_uuid s) (next_url s) !! (l - next_loc s)
  else objs s !! l.
Proof.
  unfold after_handleFiles, pushed. cbn. rewrite add_proxies_lookup, classify_length.
  reflexivity.
Qed.

Lemma handleFiles_calls_no_conversion fl s :
  conversions (log (exec (handleFiles fl) s)) = conversions (log s).
Proof.
  unfold exec. rewrite handleFiles_run. cbn. rewrite conversions_app.
  induction (thumbnails _) as [|u us IH]; cbn; [apply app_nil_r | exact IH].
Qed.

(** * Revoking, deleting and the preview callback in closed form *)

Lemma revoke_if_run o s :
  revoke_if o s = (Returned tt, append_log (map RevokeObjectURL (option_list o)) s).
Proof.
  destruct o as [u|]; cbn; [reflexivity|].
  unfold ret, append_log. rewrite app_nil_r. destruct s; reflexivity.
Qed.

Lemma revoke_item_run l s :
  revoke_item l s = (Returned tt, append_log (map RevokeObjectURL (urls_at s l)) s).
Proof.
  unfold revoke_item, urls_at, bind, read, gets. cbn.
  destruct (objs s !! l) as [it|]; cbn.
  - rewrite revoke_if_run. rewrite revoke_if_run. cbn [fst snd].
    rewrite append_log_app. unfold item_urls. rewrite map_app. reflexivity.
  - rewrite append_log_nil. reflexivity.
Qed.

Lemma revoke_all_run ls : forall s,
  foldl (fun s l => append_log (map RevokeObjectURL (urls_at s l)) s) s ls =
  append_log (map RevokeObjectURL (concat (map (urls_at s) ls))) s.
Proof.
  induction ls as [|l ls IH]; intros s; cbn [foldl map concat].
  - rewrite append_log_nil. reflexivity.
  - rewrite IH. rewrite append_log_app. rewrite map_app. reflexivity.
Qed.

Lemma held_urls_concat s : held_urls s = concat (map (urls_at s) (items s)).
Proof.
  unfold held_urls, queue, urls_at.
  induction (items s) as [|l ls IH]; [reflexivity|].
  cbn. destruct (objs s !! l) as [it|]; cbn; rewrite IH; reflexivity.
Qed.

Lemma findIndex_Some (p : loc -> bool) ls i :
  findIndex p ls = Some i -> exists l, ls !! i = Some l /\ p l = true.
Proof.
  revert i. induction ls as [|l ls IH]; intros i; cbn; [discriminate|].
  destruct (p l) eqn:Hp.
  - intros [= <-]. exists l. split; [reflexivity | exact Hp].
  - destruct (findIndex p ls) as [j|]; cbn; [|discriminate].
    intros [= <-]. apply IH. reflexivity.
Qed.

Lemma findIndex_None (p : loc -> bool) ls l :
  findIndex p ls = None -> l ∈ ls -> p l = false.
Proof.
  induction ls as [|l0 ls IH]; cbn; intros H Hin.
  - apply elem_of_nil in Hin. contradiction.
  - destruct (p l0) eqn:Hp; [discriminate|].
    destruct (findIndex p ls); [discriminate|].
    apply elem_of_cons in Hin as [->|Hin]; [exact Hp | apply IH; auto].
Qed.

Lemma NoDup_delete_lookup (ls : list loc) i l :
  NoDup ls -> ls !! i = Some l -> l ∉ delete i ls.
Proof.
  intros Hnd Hl. rewrite delete_take_drop.
  rewrite <- (take_drop_middle ls i l Hl) in Hnd.
  apply NoDup_app in Hnd as (_ & H1 & H2).
  apply NoDup_cons in H2 as [H2 _].
  intros Hin. apply elem_of_app in Hin as [Hin|Hin]; [|contradiction].
  apply (H1 l Hin). left.
Qed.

Lemma elem_of_delete_other (ls : list loc) i l l' :
  ls !! i = Some l → l' ≠ l → l' ∈ delete i ls ↔ l' ∈ ls.
Proof.
  intros Hl Hne. rewrite delete_take_drop.
  rewrite <- (take_drop_middle ls i l Hl) at 3.
  rewrite !elem_of_app, elem_of_cons. tauto.
Qed.

Arguments revoke_item : simpl never.

Lemma deleteItem_run_any i s : deleteItem i s = (Returned tt, delete_step i s).
Proof.
  unfold delete_step, deleteItem, bind, gets. cbn.
  destruct (findIndex _ (items s)) as [index|]; [|reflexivity].
  destruct (items s !! index) as [l|]; [|reflexivity].
  rewrite revoke_item_run. cbn.
  change (selected_has_id i (append_log (map RevokeObjectURL (urls_at s l)) s))
    with (selected_has_id i s).
  destruct (selected_has_id i s); reflexivity.
Qed.

Lemma deleteItem_run i s index l :
  findIndex (item_satisfies (fun it => Nat.eqb (id it) i) s) (items s) = Some index ->
  items s !! index = Some l ->
  exec (deleteItem i) s =
  set_items (delete index (items s))
    (let s1 := append_log (map RevokeObjectURL (urls_at s l)) s in
     if selected_has_id i s
     then set_selectedPreviewItem
            (List.find (item_satisfies not_error s) (delete index (items s))) s1
     else s1).
Proof.
  intros Hfi Hi. unfold exec, deleteItem, bind, gets. cbn. rewrite Hfi, Hi.
  rewrite revoke_item_run. cbn.
  change (selected_has_id i (append_log (map RevokeObjectURL (urls_at s l)) s))
    with (selected_has_id i s).
  destruct (selected_has_id i s); reflexivity.
Qed.

Lemma clearAll_run s :
  clearAll s =
  (Returned tt,
   set_selectedPreviewItem None
     (set_items [] (append_log (map RevokeObjectURL (held_urls s)) s))).
Proof.
  unfold clearAll, bind, gets. cbn.
  rewrite (for_each_run revoke_item
             (fun l s => append_log (map RevokeObjectURL (urls_at s l)) s)
             revoke_item_run).
  cbn. rewrite revoke_all_run, held_urls_concat. reflexivity.
Qed.

Lemma onWebPGenerated_run blob size s :
  onWebPGenerated blob size s = (Returned tt, generated_step blob size s).
Proof.
  unfold onWebPGenerated, generated_step, bind, gets.
  destruct (selectedPreviewItem s) as [l|]; [|reflexivity].
  unfold write, read, modify, gets, bind. cbn.
  rewrite lookup_alter_eq.
  destruct (objs s !! l) as [it|] eqn:Hl; cbn.
  - unfold after_generated, superseded, revoke_if.
    destruct (outputBlob it), (outputUrl it); cbn;
      unfold createObjectURL, set_objs, ret; cbn;
      rewrite ?alter_alter_eq, (alter_present _ _ _ _ Hl);
      rewrite <- ?app_assoc; reflexivity.
  - rewrite (alter_absent _ _ _ Hl). destruct s; reflexivity.
Qed.

(** * The archive *)

Lemma omap_entry_cons s l ls :
  omap (entry_of s) (l :: ls) =
  match entry_of s l with
  | Some e => e :: omap (entry_of s) ls
  | None => omap (entry_of s) ls
  end.
Proof. reflexivity. Qed.

Lemma zip_items_run ls : forall zip added s,
  zip_items ls zip added s =
  (Returned (file_all zip (omap (entry_of s) ls),
             added + List.length (omap (entry_of s) ls)), s).
Proof.
  induction ls as [|l ls IH]; intros zip added s.
  - cbn. unfold ret. rewrite Nat.add_0_r. reflexivity.
  - rewrite omap_entry_cons. cbn [zip_items]. unfold bind, read, gets, entry_of.
    destruct (objs s !! l) as [item|]; [|apply IH].
    destruct (status item); try apply IH.
    destruct (outputBlob item) as [blob|]; [|apply IH].
    rewrite IH. cbn [List.length file_all foldl fst snd].
    rewrite Nat.add_succ_r. reflexivity.
Qed.

Lemma downloadAllZip_without_done_item s :
  entries s = [] -> downloadAllZip s = (Returned None, s).
Proof.
  intros H. unfold downloadAllZip, bind, gets. cbn.
  rewrite zip_items_run. fold (entries s). rewrite H. reflexivity.
Qed.

Lemma downloadAllZip_with_done_items s :
  entries s <> [] ->
  since s (exec downloadAllZip s) =
  [ZipGenerated (file_all ∅ (entries s)); CreateObjectURL (next_url s);
   DownloadClicked (next_url s) "converted-webp.zip"].
Proof.
  intros H. unfold exec, downloadAllZip, bind, gets. cbn.
  rewrite zip_items_run. fold (entries s). cbn.
  destruct (entries s) as [|e es]; [contradiction|].
  apply since_app. cbn. rewrite <- !app_assoc. reflexivity.
Qed.

Lemma file_all_names es : forall zip name,
  is_Some (file_all zip es !! name) <-> is_Some (zip !! name) \/ name ∈ es.*1.
Proof.
  induction es as [|[n b] es IH]; intros zip name; cbn.
  - rewrite elem_of_nil. tauto.
  - rewrite IH, elem_of_cons, lookup_insert_is_Some. cbn.
    destruct (decide (n = name)); intuition congruence.
Qed.

Lemma file_all_size es : forall zip,
  NoDup es.*1 -> (forall name, name ∈ es.*1 -> zip !! name = None) ->
  size (file_all zip es) = size zip + List.length es.
Proof.
  induction es as [|[n b] es IH]; intros zip Hnd Hfresh; cbn.
  - lia.
  - cbn in Hnd. apply NoDup_cons in Hnd as [Hn Hnd].
    rewrite IH; [| exact Hnd |].
    + rewrite map_size_insert_None; [lia|]. apply Hfresh. left.
    + intros name Hin. rewrite lookup_insert_ne.
      * apply Hfresh. right. exact Hin.
      * intros ->. contradiction.
Qed.

(** C7.  The code at two converted files whose output names are equal
    ([photo.JPG] and [photo.png]): both items are [done], and the archive
    that [downloadAllZip] generates holds one entry, with the blob of the
    second item. *)
Theorem downloadAllZip_files_equal_names_once :
  let s := run good_host [HandleFiles [sample_jpeg; sample_png]; ConvertAll] initial in
  status <$> queue s = [done; done] /\
  outputName <$> queue s = [Some "photo.webp"; Some "photo.webp"] /\
  archives (since s (exec downloadAllZip s)) = [{["photo.webp" := mkBlob 1 100]}].
Proof. repeat split; reflexivity. Qed.


(** C2.  The code at the scenario of the specification: a JPEG file and a
    GIF file are dropped and the batch conversion runs, in a browser that
    can decode both.  [handleFiles] itself does what the claim says: the
    JPEG file becomes a [queued] item with a thumbnail URL, the GIF file an
    [error] item with the message for unsupported types, and no conversion
    is called.  But [convertAll] treats the rejected item like every
    [error] item: it calls the conversion service on the GIF file, and the
    item ends with status [done], a blob, an output URL and the output name
    [anim.gif.webp], the message for unsupported types still on it; the
    archive then has two entries. *)
Theorem rejected_file_is_converted_by_convertAll :
  let s1 := exec (handleFiles [sample_jpeg; sample_gif]) initial in
  let s2 := exec (convertAll good_host) s1 in
  queue s1 =
    [mkItem 0 sample_jpeg queued None None None None 2048 None (Some 0);
     mkItem 1 sample_gif error (Some "Unsupported file type. Please upload JPEG or PNG.")
            None None None 512 None None] /\
  conversions (log s1) = [] /\
  conversions (since s1 s2) = [sample_jpeg; sample_gif] /\
  queue s2 =
    [mkItem 0 sample_jpeg done None (Some 1) (Some (mkBlob 0 100)) (Some "photo.webp")
            2048 (Some 100%N) (Some 0);
     mkItem 1 sample_gif done (Some "Unsupported file type. Please upload JPEG or PNG.")
            (Some 2) (Some (mkBlob 1 100)) (Some "anim.gif.webp") 512 (Some 100%N) None] /\
  archives (since s2 (exec downloadAllZip s2)) =
    [{["photo.webp" := mkBlob 0 100; "anim.gif.webp" := mkBlob 1 100]}].
Proof. vm_compute. repeat split; reflexivity. Qed.
(** * Sessions keep states well formed *)

Lemma well_formed_initial : well_formed initial.
Proof.
  split; cbn.
  - apply NoDup_nil_2.
  - intros l H. apply elem_of_nil in H. contradiction.
  - intros l [it H]. discriminate H.
  - intros l it H. apply elem_of_nil in H. contradiction.
  - intros l1 l2 it1 it2 H. apply elem_of_nil in H. contradiction.
  - intros l1 l2 it1 it2 u H. apply elem_of_nil in H. contradiction.
  - intros l it H. apply elem_of_nil in H. contradiction.
Qed.

(** Nothing but counters, log, selection, quality and view changes, or items
    leave the list. *)
Lemma well_formed_frame s s' :
  well_formed s ->
  objs s' = objs s ->
  items s' `sublist_of` items s ->
  next_loc s <= next_loc s' -> next_uuid s <= next_uuid s' ->
  next_url s <= next_url s' ->
  well_formed s'.
Proof.
  intros [H1 H2 H3 H4 H5 H6 H7] Ho Hi Hl Hu Hr.
  pose proof (sublist_subseteq _ _ Hi) as Hsub.
  split; rewrite ?Ho.
  - eapply sublist_NoDup; eassumption.
  - intros l Hin. apply H2. exact (Hsub l Hin).
  - intros l Hl'. specialize (H3 l Hl'). lia.
  - intros l it Hin Hit. destruct (H4 l it (Hsub l Hin) Hit) as (Hb & Hc).
    split; [lia|]. intros u Hu'. specialize (Hc u Hu'). lia.
  - intros l1 l2 it1 it2 Hin1 Hin2. apply H5; auto.
  - intros l1 l2 it1 it2 u Hin1 Hin2. apply H6; auto.
  - intros l it Hin. apply H7. auto.
Qed.

(** An object that is not in the list is written, or a new proxy is made
    that is not put in the list. *)
Lemma well_formed_unlisted s s' l it' :
  well_formed s ->
  l ∉ items s ->
  objs s' = <[l := it']> (objs s) ->
  items s' = items s ->
  l < next_loc s' ->
  next_loc s <= next_loc s' -> next_uuid s <= next_uuid s' ->
  next_url s <= next_url s' ->
  well_formed s'.
Proof.
  intros [H1 H2 H3 H4 H5 H6 H7] Hnl Ho Hi Hlt Hl Hu Hr.
  assert (Hsame : forall l0, l0 ∈ items s -> objs s' !! l0 = objs s !! l0).
  { intros l0 Hin. rewrite Ho. apply lookup_insert_ne. intros ->. contradiction. }
  split; rewrite ?Hi.
  - exact H1.
  - intros l0 Hin. rewrite (Hsame l0 Hin). apply H2, Hin.
  - intros l0. rewrite Ho. intros Hs.
    apply lookup_insert_is_Some in Hs as [<-|[_ Hs]]; [exact Hlt|].
    specialize (H3 l0 Hs). lia.
  - intros l0 it0 Hin. rewrite (Hsame l0 Hin). intros Hit.
    destruct (H4 l0 it0 Hin Hit) as (Hb & Hc).
    split; [lia|]. intros u Hu'. specialize (Hc u Hu'). lia.
  - intros l1 l2 it1 it2 Hin1 Hin2. rewrite (Hsame l1 Hin1), (Hsame l2 Hin2).
    apply H5; auto.
  - intros l1 l2 it1 it2 u Hin1 Hin2. rewrite (Hsame l1 Hin1), (Hsame l2 Hin2).
    apply H6; auto.
  - intros l0 it0 Hin. rewrite (Hsame l0 Hin). apply H7, Hin.
Qed.

(** An object of the heap is replaced by one with the same identifier whose
    URLs are its old ones or new ones. *)
Lemma well_formed_update s s' l it it' :
  well_formed s ->
  objs s !! l = Some it ->
  objs s' = <[l := it']> (objs s) ->
  items s' = items s ->
  next_loc s <= next_loc s' -> next_uuid s <= next_uuid s' ->
  next_url s <= next_url s' ->
  id it' = id it ->
  NoDup (item_urls it') ->
  (forall u, u ∈ item_urls it' ->
     (u ∈ item_urls it \/ next_url s <= u) /\ u < next_url s') ->
  well_formed s'.
Proof.
  intros Hwf Hl Ho Hi Hnl Hnu Hnr Hid Hnd Hurls.
  destruct (decide (l ∈ items s)) as [Hlin|Hlin].
  2: { apply (well_formed_unlisted s s' l it' Hwf Hlin Ho Hi); try lia.
       pose proof (wf_locs s Hwf l (mk_is_Some _ _ Hl)). lia. }
  destruct Hwf as [H1 H2 H3 H4 H5 H6 H7].
  assert (Hlook : forall l0 it0, objs s' !! l0 = Some it0 ->
            (l0 = l /\ it0 = it') \/ (l0 <> l /\ objs s !! l0 = Some it0)).
  { intros l0 it0. rewrite Ho. intros H.
    apply lookup_insert_Some in H as [(<- & <-)|(Hne & H)]; [left|right]; auto. }
  split; rewrite ?Hi.
  - exact H1.
  - intros l0 Hin. rewrite Ho.
    destruct (decide (l = l0)) as [<-|Hne].
    + rewrite lookup_insert_eq. eauto.
    + rewrite lookup_insert_ne by exact Hne. apply H2. exact Hin.
  - intros l0. rewrite Ho. intros Hs.
    apply lookup_insert_is_Some in Hs as [<-|[_ Hs]].
    + specialize (H3 l (mk_is_Some _ _ Hl)). lia.
    + specialize (H3 l0 Hs). lia.
  - intros l0 it0 Hin H0. destruct (Hlook _ _ H0) as [(-> & ->)|(Hne & H0')].
    + destruct (H4 l it Hlin Hl) as (Hb & Hc).
      split; [lia|]. intros u Hu. apply Hurls. exact Hu.
    + destruct (H4 l0 it0 Hin H0') as (Hb & Hc).
      split; [lia|]. intros u Hu. specialize (Hc u Hu). lia.
  - intros l1 l2 it1 it2 Hin1 Hin2 Ha Hb Heq.
    destruct (Hlook _ _ Ha) as [(-> & ->)|(Hne1 & Ha')];
      destruct (Hlook _ _ Hb) as [(-> & ->)|(Hne2 & Hb')]; try reflexivity.
    + symmetry. apply (H5 l2 l it2 it Hin2 Hlin Hb' Hl). congruence.
    + apply (H5 l1 l it1 it Hin1 Hlin Ha' Hl). congruence.
    + exact (H5 _ _ _ _ Hin1 Hin2 Ha' Hb' Heq).
  - assert (Hold : forall l0 it0 u, l0 ∈ items s -> l0 <> l ->
              objs s !! l0 = Some it0 ->
              u ∈ item_urls it0 -> u ∈ item_urls it' -> False).
    { intros l0 it0 u Hin0 Hne H0 Hu0 Hu'.
      destruct (Hurls u Hu') as ([Hu|Hge] & _).
      - apply Hne. exact (H6 _ _ _ _ u Hin0 Hlin H0 Hl Hu0 Hu).
      - destruct (H4 l0 it0 Hin0 H0) as (_ & Hc). specialize (Hc u Hu0). lia. }
    intros l1 l2 it1 it2 u Hin1 Hin2 Ha Hb Hu1 Hu2.
    destruct (Hlook _ _ Ha) as [(-> & ->)|(Hne1 & Ha')];
      destruct (Hlook _ _ Hb) as [(-> & ->)|(Hne2 & Hb')]; try reflexivity.
    + exfalso. eapply (Hold l2); eassumption.
    + exfalso. eapply (Hold l1); eassumption.
    + exact (H6 _ _ _ _ u Hin1 Hin2 Ha' Hb' Hu1 Hu2).
  - intros l0 it0 Hin H0. destruct (Hlook _ _ H0) as [(-> & ->)|(Hne & H0')].
    + exact Hnd.
    + exact (H7 _ _ Hin H0').
Qed.

Lemma keeps_frame {A} (m : M A) :
  (forall s, objs (m s).2 = objs s /\ items (m s).2 = items s /\
             next_loc s <= next_loc (m s).2 /\ next_uuid s <= next_uuid (m s).2 /\
             next_url s <= next_url (m s).2) ->
  keeps well_formed m.
Proof.
  intros Hm s H. destruct (Hm s) as (Ho & Hi & Hl & Hu & Hr).
  apply (well_formed_frame s); try assumption. rewrite Hi. reflexivity.
Qed.

Lemma wf_emit e : keeps well_formed (emit e).
Proof. apply keeps_frame. intros s. cbn. repeat split; lia. Qed.

Lemma wf_createObjectURL : keeps well_formed createObjectURL.
Proof. apply keeps_frame. intros s. cbn. repeat split; lia. Qed.

Lemma wf_revoke_if o : keeps well_formed (revoke_if o).
Proof. apply keeps_frame. intros s. destruct o; cbn; repeat split; lia. Qed.

Lemma wf_write_preview f : keeps well_formed (write_preview f).
Proof. apply keeps_frame. intros s. cbn. repeat split; lia. Qed.

Lemma wf_modify_frame (f : State -> State) :
  (forall s, objs (f s) = objs s /\ items (f s) = items s /\
             next_loc (f s) = next_loc s /\ next_uuid (f s) = next_uuid s /\
             next_url (f s) = next_url s) ->
  keeps well_formed (modify f).
Proof.
  intros Hf. apply keeps_frame. intros s. cbn.
  destruct (Hf s) as (-> & -> & -> & -> & ->). repeat split; lia.
Qed.

Lemma wf_convertImageToWebP host f q : keeps well_formed (convertImageToWebP host f q).
Proof.
  apply keeps_frame. intros s. rewrite convertImageToWebP_run. cbn.
  destruct (bitmap_ok _); repeat split; lia.
Qed.

Lemma thumbnail_in_item_urls it u :
  u ∈ option_list (thumbnailUrl it) -> u ∈ item_urls it.
Proof. intros H. unfold item_urls. apply elem_of_app. right. exact H. Qed.

Lemma NoDup_option_list {A} (o : option A) : NoDup (option_list o).
Proof. destruct o; cbn; [apply NoDup_singleton | apply NoDup_nil_2]. Qed.

(** An item gets a new output URL and keeps its thumbnail. *)
Lemma well_formed_new_output s s' l it it' u :
  well_formed s ->
  objs s !! l = Some it ->
  objs s' = <[l := it']> (objs s) ->
  items s' = items s ->
  next_loc s <= next_loc s' -> next_uuid s <= next_uuid s' ->
  next_url s <= u < next_url s' ->
  id it' = id it ->
  item_urls it' = u :: option_list (thumbnailUrl it) ->
  well_formed s'.
Proof.
  intros Hwf Hl Ho Hi Hnl Hnu Hu Hid Hurls.
  destruct (decide (l ∈ items s)) as [Hlin|Hlin].
  2: { apply (well_formed_unlisted s s' l it' Hwf Hlin Ho Hi); try lia.
       pose proof (wf_locs s Hwf l (mk_is_Some _ _ Hl)). lia. }
  assert (Hthumb : forall v, v ∈ option_list (thumbnailUrl it) -> v < next_url s).
  { intros v Hv. apply (wf_bounds s Hwf l it Hlin Hl). apply thumbnail_in_item_urls, Hv. }
  eapply (well_formed_update s s' l it it'); try eassumption; try lia.
  - rewrite Hurls. apply NoDup_cons. split; [|apply NoDup_option_list].
    intros Hin. specialize (Hthumb u Hin). lia.
  - intros v. rewrite Hurls. intros Hv.
    apply elem_of_cons in Hv as [->|Hv].
    + split; [right|]; lia.
    + split; [left; apply thumbnail_in_item_urls, Hv|].
      specialize (Hthumb v Hv). lia.
Qed.

Lemma wf_generated_step blob size s :
  well_formed s -> well_formed (generated_step blob size s).
Proof.
  intros H. unfold generated_step.
  destruct (selectedPreviewItem s) as [l|]; [|exact H].
  destruct (objs s !! l) as [it|] eqn:Hl; [|exact H].
  apply (well_formed_new_output s (after_generated blob size l it s) l it
           (generated it blob size (next_url s)) (next_url s) H Hl);
    cbn; try reflexivity; lia.
Qed.

Lemma wf_onWebPGenerated blob size : keeps well_formed (onWebPGenerated blob size).
Proof. intros s H. rewrite onWebPGenerated_run. apply wf_generated_step, H. Qed.

Lemma wf_convert_step host l s :
  well_formed s -> well_formed (convert_step host l s).
Proof.
  intros H. unfold convert_step.
  destruct (objs s !! l) as [it|] eqn:Hl; [|exact H].
  destruct (pending it); [|exact H].
  destruct (after_item_next_url host l it s) as (Ha & Hb & Hc).
  set (s1 := after_convert (host (calls s) (file it)) (file it) (quality s) s) in *.
  assert (Hobjs : objs (after_item host l it s) =
            <[l := settled it (outcome (host (calls s) (file it))) (next_url s1)]> (objs s))
    by reflexivity.
  assert (Hloc : next_loc s <= next_loc (after_item host l it s)) by (cbn; lia).
  assert (Huuid : next_uuid s <= next_uuid (after_item host l it s)) by (cbn; lia).
  destruct (outcome (host (calls s) (file it))) as [b|e] eqn:Ho.
  - specialize (Hc eq_refl).
    apply (well_formed_new_output s (after_item host l it s) l it
             (converted it b (next_url s1)) (next_url s1) H Hl Hobjs);
      try reflexivity; try assumption; lia.
  - destruct (decide (l ∈ items s)) as [Hlin|Hlin].
    + apply (well_formed_update s (after_item host l it s) l it (failed it e) H Hl Hobjs);
        try reflexivity; try assumption; try lia.
      * apply (wf_item_urls s H l it Hlin Hl).
      * intros u Hu. split; [left; exact Hu|].
        pose proof (proj2 (wf_bounds s H l it Hlin Hl) u Hu). lia.
    + apply (well_formed_unlisted s (after_item host l it s) l (failed it e) H Hlin Hobjs);
        try reflexivity; try lia.
      pose proof (wf_locs s H l (mk_is_Some _ _ Hl)). lia.
Qed.

Lemma wf_convertAll host : keeps well_formed (convertAll host).
Proof.
  intros s H. rewrite convertAll_run. cbn [snd].
  generalize (items s) as ls. intros ls. revert s H.
  induction ls as [|l ls IH]; intros s H; cbn [foldl]; [exact H|].
  apply IH. apply wf_convert_step. exact H.
Qed.

Lemma listed_below_next_loc s l : well_formed s -> l ∈ items s -> l < next_loc s.
Proof. intros H Hl. apply (wf_locs s H), (wf_items_alive s H), Hl. Qed.

Lemma wf_after_handleFiles fl s : well_formed s -> well_formed (after_handleFiles fl s).
Proof.
  intros H.
  set (raws := classify fl (next_uuid s) (next_url s)).
  assert (Hitems : items (after_handleFiles fl s)
                   = items s ++ seq (next_loc s) (List.length fl)).
  { unfold after_handleFiles, pushed. cbn. rewrite classify_length. reflexivity. }
  assert (Hnl : next_loc (after_handleFiles fl s) = next_loc s + List.length fl).
  { unfold after_handleFiles, pushed. cbn. rewrite classify_length. reflexivity. }
  assert (Hnu : next_uuid (after_handleFiles fl s) = next_uuid s + List.length fl)
    by reflexivity.
  assert (Hnr : next_url (after_handleFiles fl s)
                = next_url s + List.length (thumbnails raws)) by reflexivity.
  (* what a listed object is: an old listed one, or the proxy of a raw object *)
  assert (Hcase : forall l it, l ∈ items (after_handleFiles fl s) ->
            objs (after_handleFiles fl s) !! l = Some it ->
            (l ∈ items s /\ objs s !! l = Some it) \/
            (next_loc s <= l /\ raws !! (l - next_loc s) = Some it)).
  { intros l it Hin. rewrite after_handleFiles_lookup. rewrite Hitems in Hin.
    apply elem_of_app in Hin as [Hin|Hin].
    - pose proof (listed_below_next_loc s l H Hin).
      rewrite bool_decide_false by lia. auto.
    - apply elem_of_seq in Hin. rewrite bool_decide_true by lia. intros Hr.
      right. split; [lia | exact Hr]. }
  split.
  - rewrite Hitems. apply NoDup_app. split; [apply (wf_items_nodup s H)|].
    split; [|apply NoDup_seq].
    intros l Hin Hin'. apply elem_of_seq in Hin'.
    pose proof (listed_below_next_loc s l H Hin). lia.
  - intros l Hin. rewrite after_handleFiles_lookup. rewrite Hitems in Hin.
    apply elem_of_app in Hin as [Hin|Hin].
    + pose proof (listed_below_next_loc s l H Hin).
      rewrite bool_decide_false by lia. apply (wf_items_alive s H), Hin.
    + apply elem_of_seq in Hin. rewrite bool_decide_true by lia.
      apply lookup_lt_is_Some. unfold raws. rewrite classify_length. lia.
  - intros l. rewrite after_handleFiles_lookup.
    destruct (bool_decide_reflect (next_loc s <= l < next_loc s + List.length fl)).
    + intros _. lia.
    + intros Hs. pose proof (wf_locs s H l Hs). lia.
  - intros l it Hin Hit. destruct (Hcase l it Hin Hit) as [(Hin0 & Hit0)|(Hge & Hr)].
    + destruct (wf_bounds s H l it Hin0 Hit0) as (Hb & Hc).
      split; [lia|]. intros u Hu. specialize (Hc u Hu). lia.
    + destruct (classify_lookup _ _ _ _ _ Hr) as (Hid & _ & _ & _ & _ & Hu).
      apply lookup_lt_Some in Hr. unfold raws in Hr. rewrite classify_length in Hr.
      split; [lia|]. intros u Hin'. destruct (Hu u Hin') as (_ & Hrange & _).
      fold raws in Hrange. lia.
  - intros l1 l2 it1 it2 Hin1 Hin2 Hit1 Hit2 Heq.
    destruct (Hcase l1 it1 Hin1 Hit1) as [(Ha1 & Hb1)|(Hge1 & Hr1)];
      destruct (Hcase l2 it2 Hin2 Hit2) as [(Ha2 & Hb2)|(Hge2 & Hr2)].
    + exact (wf_ids s H _ _ _ _ Ha1 Ha2 Hb1 Hb2 Heq).
    + destruct (wf_bounds s H l1 it1 Ha1 Hb1) as (Hb & _).
      destruct (classify_lookup _ _ _ _ _ Hr2) as (Hid & _). lia.
    + destruct (wf_bounds s H l2 it2 Ha2 Hb2) as (Hb & _).
      destruct (classify_lookup _ _ _ _ _ Hr1) as (Hid & _). lia.
    + destruct (classify_lookup _ _ _ _ _ Hr1) as (Hid1 & _).
      destruct (classify_lookup _ _ _ _ _ Hr2) as (Hid2 & _). lia.
  - intros l1 l2 it1 it2 u Hin1 Hin2 Hit1 Hit2 Hu1 Hu2.
    destruct (Hcase l1 it1 Hin1 Hit1) as [(Ha1 & Hb1)|(Hge1 & Hr1)];
      destruct (Hcase l2 it2 Hin2 Hit2) as [(Ha2 & Hb2)|(Hge2 & Hr2)].
    + exact (wf_urls s H _ _ _ _ u Ha1 Ha2 Hb1 Hb2 Hu1 Hu2).
    + destruct (wf_bounds s H l1 it1 Ha1 Hb1) as (_ & Hc). specialize (Hc u Hu1).
      destruct (classify_lookup _ _ _ _ _ Hr2) as (_ & _ & _ & _ & _ & Hu).
      destruct (Hu u Hu2) as (_ & Hrange & _). lia.
    + destruct (wf_bounds s H l2 it2 Ha2 Hb2) as (_ & Hc). specialize (Hc u Hu2).
      destruct (classify_lookup _ _ _ _ _ Hr1) as (_ & _ & _ & _ & _ & Hu).
      destruct (Hu u Hu1) as (_ & Hrange & _). lia.
    + pose proof (classify_urls_inj _ _ _ _ _ _ _ u Hr1 Hr2 Hu1 Hu2). lia.
  - intros l it Hin Hit. destruct (Hcase l it Hin Hit) as [(Hin0 & Hit0)|(Hge & Hr)].
    + exact (wf_item_urls s H l it Hin0 Hit0).
    + exact (classify_item_urls _ _ _ _ _ Hr).
Qed.

Lemma wf_handleFiles fl : keeps well_formed (handleFiles fl).
Proof. intros s H. rewrite handleFiles_run. apply wf_after_handleFiles, H. Qed.

Lemma wf_auto_select newItems s : well_formed s -> well_formed (auto_select newItems s).
Proof.
  intros H. unfold auto_select.
  destruct (selectedPreviewItem s); [exact H|].
  destruct (List.find not_error newItems) as [raw|]; [|exact H].
  eapply (well_formed_unlisted s _ (next_loc s) raw H); cbn; try reflexivity; try lia.
  intros Hin. pose proof (listed_below_next_loc s _ H Hin). lia.
Qed.

Lemma wf_handleFiles_timeout ls : keeps well_formed (handleFiles_timeout ls).
Proof. intros s H. rewrite handleFiles_timeout_run. apply wf_auto_select, H. Qed.

Lemma wf_delete_step i s : well_formed s -> well_formed (delete_step i s).
Proof.
  intros H. unfold delete_step.
  destruct (findIndex _ (items s)) as [index|]; [|exact H].
  destruct (items s !! index) as [l|]; [|exact H].
  apply (well_formed_frame s); try exact H.
  - destruct (selected_has_id i s); reflexivity.
  - cbn. apply sublist_delete.
  - destruct (selected_has_id i s); cbn; lia.
  - destruct (selected_has_id i s); cbn; lia.
  - destruct (selected_has_id i s); cbn; lia.
Qed.

Lemma wf_deleteItem i : keeps well_formed (deleteItem i).
Proof. intros s H. rewrite deleteItem_run_any. apply wf_delete_step, H. Qed.

Lemma wf_clearAll : keeps well_formed clearAll.
Proof.
  intros s H. rewrite clearAll_run. cbn [snd].
  apply (well_formed_frame s); try exact H; cbn; try lia; try reflexivity.
  apply sublist_nil_l.
Qed.

Lemma wf_downloadAllZip : keeps well_formed downloadAllZip.
Proof.
  unfold downloadAllZip. apply keeps_bind; [apply keeps_gets|]. intros ls.
  apply keeps_bind.
  { intros s H. rewrite zip_items_run. exact H. }
  intros r. destruct (Nat.eqb _ _); [apply keeps_ret|].
  apply keeps_bind; [apply wf_emit|]. intros _.
  apply keeps_bind; [|intros u; apply keeps_ret].
  unfold downloadBlob. apply keeps_bind; [apply wf_createObjectURL|]. intros u.
  apply keeps_bind; [apply wf_emit|]. intros _. apply keeps_ret.
Qed.

Lemma wf_effect_generate host : keeps well_formed (effect_generate host).
Proof.
  unfold effect_generate. apply keeps_bind; [apply keeps_gets|]. intros [p|].
  2: { apply keeps_bind; [apply keeps_gets|]. intros f. apply keeps_ret. }
  apply keeps_bind; [apply keeps_gets|]. intros [f|]; [|apply keeps_ret].
  apply keeps_bind; [apply wf_createObjectURL|]. intros u.
  repeat (apply keeps_bind; [apply wf_write_preview|]; intros _).
  apply keeps_bind; [|intros _; apply wf_write_preview].
  apply keeps_try_catch; [|intros e; apply keeps_ret].
  apply keeps_bind; [apply keeps_gets|]. intros q.
  apply keeps_bind; [apply wf_convertImageToWebP|]. intros b.
  apply keeps_bind; [apply wf_createObjectURL|]. intros w.
  repeat (apply keeps_bind; [apply wf_write_preview|]; intros _).
  apply wf_onWebPGenerated.
Qed.

Lemma wf_effect_reconvert host : keeps well_formed (effect_reconvert host).
Proof.
  unfold effect_reconvert. apply keeps_bind; [apply keeps_gets|]. intros [p|].
  2: { apply keeps_bind; [apply keeps_gets|]. intros f. apply keeps_ret. }
  apply keeps_bind; [apply keeps_gets|]. intros [f|]; [|apply keeps_ret].
  apply keeps_try_catch; [|intros e; apply keeps_ret].
  apply keeps_bind; [apply keeps_gets|]. intros q.
  apply keeps_bind; [apply wf_convertImageToWebP|]. intros b.
  apply keeps_bind; [apply keeps_gets|]. intros p'.
  apply keeps_bind; [apply wf_revoke_if|]. intros _.
  apply keeps_bind; [apply wf_createObjectURL|]. intros w.
  repeat (apply keeps_bind; [apply wf_write_preview|]; intros _).
  apply wf_onWebPGenerated.
Qed.

Lemma wf_view_teardown : keeps well_formed view_teardown.
Proof.
  unfold view_teardown. apply keeps_bind; [apply keeps_gets|]. intros p.
  repeat (apply keeps_bind; [apply wf_revoke_if|]; intros _).
  apply wf_modify_frame. intros s. repeat split.
Qed.

Lemma step_well_formed host a s : well_formed s -> well_formed (step host a s).
Proof.
  intros H. destruct a; cbn [step]; unfold exec.
  - apply wf_handleFiles, H.
  - apply wf_handleFiles_timeout, H.
  - apply wf_convertAll, H.
  - apply wf_deleteItem, H.
  - apply wf_clearAll, H.
  - apply (wf_modify_frame (set_selectedPreviewItem item)); [|exact H].
    intros s0. repeat split.
  - apply wf_downloadAllZip, H.
  - apply wf_emit, H.
  - apply (well_formed_frame s); try exact H; cbn; try lia; reflexivity.
  - apply wf_onWebPGenerated, H.
  - apply (wf_modify_frame (set_preview _)); [|exact H]. intros s0. repeat split.
  - apply wf_effect_generate, H.
  - apply wf_effect_reconvert, H.
  - apply wf_view_teardown, H.
Qed.

Lemma run_well_formed host acts : forall s,
  well_formed s -> well_formed (run host acts s).
Proof.
  induction acts as [|a acts IH]; intros s H; cbn; [exact H|].
  apply IH, step_well_formed, H.
Qed.

Lemma session_well_formed host acts : well_formed (run host acts initial).
Proof. apply run_well_formed, well_formed_initial. Qed.

Lemma listed_urls_nodup s ls :
  well_formed s -> NoDup ls -> (forall l, l ∈ ls -> l ∈ items s) ->
  NoDup (concat (map (urls_at s) ls)).
Proof.
  intros H. induction ls as [|l ls IH]; intros Hnd Hsub; cbn; [apply NoDup_nil_2|].
  apply NoDup_cons in Hnd as [Hl Hnd].
  assert (Hlin : l ∈ items s) by (apply Hsub; left).
  assert (Hrest : forall l', l' ∈ ls -> l' ∈ items s) by (intros l' Hl'; apply Hsub; right; exact Hl').
  apply NoDup_app. split; [|split; [|apply IH; assumption]].
  - unfold urls_at. destruct (objs s !! l) as [it|] eqn:Hit; cbn.
    + exact (wf_item_urls s H l it Hlin Hit).
    + apply NoDup_nil_2.
  - intros u Hu Hu'. apply list_elem_of_In, in_concat in Hu' as (us & Hus & Hu').
    apply in_map_iff in Hus as (l' & <- & Hl').
    apply list_elem_of_In in Hu'. apply list_elem_of_In in Hl'.
    unfold urls_at in Hu, Hu'.
    destruct (objs s !! l) as [it|] eqn:Hit; cbn in Hu;
      [|apply elem_of_nil in Hu; contradiction].
    destruct (objs s !! l') as [it'|] eqn:Hit'; cbn in Hu';
      [|apply elem_of_nil in Hu'; contradiction].
    assert (l = l')
      by exact (wf_urls s H l l' it it' u Hlin (Hrest l' Hl') Hit Hit' Hu Hu').
    subst l'. contradiction.
Qed.

(** No URL is held twice by the items of a well-formed state. *)
Lemma well_formed_held_urls s : well_formed s -> NoDup (held_urls s).
Proof.
  intros H. rewrite held_urls_concat.
  apply listed_urls_nodup; [exact H | apply (wf_items_nodup s H) | auto].
Qed.

(** The identifier of a listed item finds that item. *)
Lemma well_formed_ids s l it :
  well_formed s -> l ∈ items s -> objs s !! l = Some it ->
  Forall (fun l' => item_satisfies (fun it' => Nat.eqb (id it') (id it)) s l' = true
                    -> l' = l) (items s).
Proof.
  intros H Hin Hl. apply Forall_forall. intros l' Hin' Hsat.
  unfold item_satisfies in Hsat.
  destruct (objs s !! l') as [it'|] eqn:Hl'; [|discriminate].
  apply Nat.eqb_eq in Hsat.
  exact (wf_ids s H l' l it' it Hin' Hin Hl' Hl Hsat).
Qed.

(** * Done items have their output and error items their message *)

Lemma heap_ok_frame host s s' :
  heap_ok host s -> objs s' = objs s -> (forall l, l ∈ items s' -> l ∈ items s) ->
  heap_ok host s'.
Proof. intros H Ho Hi l it Hl. rewrite Ho. apply H, Hi, Hl. Qed.

(** One object is written, and it is in order if it is in the list. *)
Lemma heap_ok_update host s s' l it' :
  heap_ok host s ->
  objs s' = <[l := it']> (objs s) -> items s' = items s ->
  (l ∈ items s -> item_ok host it') ->
  heap_ok host s'.
Proof.
  intros H Ho Hi Hit l0 it0. rewrite Ho, Hi. intros Hin Hl.
  apply lookup_insert_Some in Hl as [(<- & <-)|(_ & Hl)]; [exact (Hit Hin)|].
  exact (H l0 it0 Hin Hl).
Qed.

Lemma keeps_same_objs host {A} (m : M A) :
  (forall s, objs (m s).2 = objs s /\ items (m s).2 = items s) ->
  keeps (heap_ok host) m.
Proof.
  intros Hm s H. destruct (Hm s) as (Ho & Hi).
  apply (heap_ok_frame host s); [exact H | exact Ho |]. rewrite Hi. auto.
Qed.

Lemma keeps_emit host e : keeps (heap_ok host) (emit e).
Proof. apply keeps_same_objs. intros s. split; reflexivity. Qed.

Lemma keeps_createObjectURL host : keeps (heap_ok host) createObjectURL.
Proof. apply keeps_same_objs. intros s. split; reflexivity. Qed.

Lemma keeps_revoke_if host o : keeps (heap_ok host) (revoke_if o).
Proof. apply keeps_same_objs. intros s. destruct o; split; reflexivity. Qed.

Lemma keeps_write_preview host f : keeps (heap_ok host) (write_preview f).
Proof. apply keeps_same_objs. intros s. split; reflexivity. Qed.

Lemma keeps_convertImageToWebP host host' f q :
  keeps (heap_ok host) (convertImageToWebP host' f q).
Proof.
  apply keeps_same_objs. intros s. rewrite convertImageToWebP_run. split; reflexivity.
Qed.

Lemma item_ok_generated host it blob size u :
  item_ok host it -> item_ok host (generated it blob size u).
Proof.
  intros [Hd He]. split; cbn.
  - intros _. repeat split; eauto. eexists. split; [reflexivity|].
    apply outputNameOf_nonempty.
  - exact He.
Qed.

Lemma generated_step_heap_ok host blob size s :
  heap_ok host s -> heap_ok host (generated_step blob size s).
Proof.
  intros H. unfold generated_step.
  destruct (selectedPreviewItem s) as [l|]; [|exact H].
  destruct (objs s !! l) as [it|] eqn:Hl; [|exact H].
  apply (heap_ok_update host s _ l (generated it blob size (next_url s)) H);
    try reflexivity.
  intros Hin. apply item_ok_generated. exact (H l it Hin Hl).
Qed.

Lemma keeps_onWebPGenerated host blob size :
  keeps (heap_ok host) (onWebPGenerated blob size).
Proof. intros s H. rewrite onWebPGenerated_run. apply generated_step_heap_ok, H. Qed.

(** A failure without a message is a rejection of [img.decode()] without a
    message. *)
Lemma failure_message_empty h e :
  outcome h = Threw e -> failure_message e = "" ->
  bitmap_ok h = false /\ decode_error h = Some (ErrorObj "").
Proof.
  unfold outcome, after_decoding.
  destruct h as [[] [] [b|] [[m|]|]]; cbn; intros H; inversion H; subst; cbn;
    try discriminate; intros ->; split; reflexivity.
Qed.

Lemma item_ok_settled host n it u :
  item_ok host (settled it (outcome (host n (file it))) u).
Proof.
  destruct (outcome _) as [b|e] eqn:Ho; split; cbn; try discriminate.
  - intros _. repeat split; eauto. eexists. split; [reflexivity|].
    apply outputNameOf_nonempty.
  - intros _. eexists. split; [reflexivity|]. intros He. exists n.
    exact (failure_message_empty _ _ Ho He).
Qed.

Lemma convert_step_heap_ok host l s :
  heap_ok host s -> heap_ok host (convert_step host l s).
Proof.
  intros H. unfold convert_step.
  destruct (objs s !! l) as [it|]; [destruct (pending it)|]; try exact H.
  eapply (heap_ok_update host s _ l); [exact H | reflexivity | reflexivity |].
  intros _. apply item_ok_settled.
Qed.

Lemma keeps_convertAll host : keeps (heap_ok host) (convertAll host).
Proof.
  intros s H. rewrite convertAll_run. cbn [snd].
  generalize (items s) as ls. intros ls. revert s H.
  induction ls as [|l ls IH]; intros s H; cbn [foldl]; [exact H|].
  apply IH. apply convert_step_heap_ok. exact H.
Qed.

Lemma item_ok_classify host fl i u k it :
  classify fl i u !! k = Some it -> item_ok host it.
Proof.
  intros H. destruct (classify_lookup _ _ _ _ _ H) as (_ & _ & Hs & _).
  split.
  - intros Hd. destruct Hs as [Hs|(Hs & _)]; rewrite Hs in Hd; discriminate.
  - intros He. destruct Hs as [Hs|(_ & Hm)].
    + rewrite Hs in He. discriminate He.
    + eexists. split; [exact Hm | discriminate].
Qed.

Lemma after_handleFiles_heap_ok host fl s :
  well_formed s -> heap_ok host s -> heap_ok host (after_handleFiles fl s).
Proof.
  intros Hwf H l it Hin. rewrite after_handleFiles_lookup.
  assert (Hitems : items (after_handleFiles fl s)
                   = items s ++ seq (next_loc s) (List.length fl)).
  { unfold after_handleFiles, pushed. cbn. rewrite classify_length. reflexivity. }
  rewrite Hitems in Hin. apply elem_of_app in Hin as [Hin|Hin].
  - pose proof (listed_below_next_loc s l Hwf Hin).
    rewrite bool_decide_false by lia. apply H, Hin.
  - apply elem_of_seq in Hin. rewrite bool_decide_true by lia.
    apply item_ok_classify.
Qed.

Lemma auto_select_heap_ok host newItems s :
  well_formed s -> heap_ok host s -> heap_ok host (auto_select newItems s).
Proof.
  intros Hwf H. unfold auto_select.
  destruct (selectedPreviewItem s); [exact H|].
  destruct (List.find not_error newItems) as [raw|]; [|exact H].
  eapply (heap_ok_update host s _ (next_loc s)); [exact H | reflexivity | reflexivity |].
  intros Hin. pose proof (listed_below_next_loc s _ Hwf Hin). lia.
Qed.

Lemma delete_step_heap_ok host i s : heap_ok host s -> heap_ok host (delete_step i s).
Proof.
  intros H. unfold delete_step.
  destruct (findIndex _ (items s)) as [index|]; [|exact H].
  destruct (items s !! index) as [l|]; [|exact H].
  apply (heap_ok_frame host s); [exact H | |].
  - destruct (selected_has_id i s); reflexivity.
  - cbn. intros l0 Hl0. eapply sublist_subseteq; [apply sublist_delete | exact Hl0].
Qed.

Lemma keeps_downloadAllZip host : keeps (heap_ok host) downloadAllZip.
Proof.
  unfold downloadAllZip. apply keeps_bind; [apply keeps_gets|]. intros ls.
  apply keeps_bind.
  { intros s H. rewrite zip_items_run. exact H. }
  intros r. destruct (Nat.eqb _ _); [apply keeps_ret|].
  apply keeps_bind; [apply keeps_emit|]. intros _.
  apply keeps_bind; [|intros u; apply keeps_ret].
  unfold downloadBlob. apply keeps_bind; [apply keeps_createObjectURL|]. intros u.
  apply keeps_bind; [apply keeps_emit|]. intros _. apply keeps_ret.
Qed.

Lemma keeps_effect_generate host : keeps (heap_ok host) (effect_generate host).
Proof.
  unfold effect_generate. apply keeps_bind; [apply keeps_gets|]. intros [p|].
  2: { apply keeps_bind; [apply keeps_gets|]. intros f. apply keeps_ret. }
  apply keeps_bind; [apply keeps_gets|]. intros [f|]; [|apply keeps_ret].
  apply keeps_bind; [apply keeps_createObjectURL|]. intros u.
  repeat (apply keeps_bind; [apply keeps_write_preview|]; intros _).
  apply keeps_bind; [|intros _; apply keeps_write_preview].
  apply keeps_try_catch; [|intros e; apply keeps_ret].
  apply keeps_bind; [apply keeps_gets|]. intros q.
  apply keeps_bind; [apply keeps_convertImageToWebP|]. intros b.
  apply keeps_bind; [apply keeps_createObjectURL|]. intros w.
  repeat (apply keeps_bind; [apply keeps_write_preview|]; intros _).
  apply keeps_onWebPGenerated.
Qed.

Lemma keeps_effect_reconvert host : keeps (heap_ok host) (effect_reconvert host).
Proof.
  unfold effect_reconvert. apply keeps_bind; [apply keeps_gets|]. intros [p|].
  2: { apply keeps_bind; [apply keeps_gets|]. intros f. apply keeps_ret. }
  apply keeps_bind; [apply keeps_gets|]. intros [f|]; [|apply keeps_ret].
  apply keeps_try_catch; [|intros e; apply keeps_ret].
  apply keeps_bind; [apply keeps_gets|]. intros q.
  apply keeps_bind; [apply keeps_convertImageToWebP|]. intros b.
  apply keeps_bind; [apply keeps_gets|]. intros p'.
  apply keeps_bind; [apply keeps_revoke_if|]. intros _.
  apply keeps_bind; [apply keeps_createObjectURL|]. intros w.
  repeat (apply keeps_bind; [apply keeps_write_preview|]; intros _).
  apply keeps_onWebPGenerated.
Qed.

Lemma keeps_view_teardown host : keeps (heap_ok host) view_teardown.
Proof.
  unfold view_teardown. apply keeps_bind; [apply keeps_gets|]. intros p.
  repeat (apply keeps_bind; [apply keeps_revoke_if|]; intros _).
  apply keeps_same_objs. intros s. split; reflexivity.
Qed.

Lemma step_heap_ok host a s :
  well_formed s -> heap_ok host s -> heap_ok host (step host a s).
Proof.
  intros Hwf H. destruct a; cbn [step]; unfold exec.
  - rewrite handleFiles_run. apply after_handleFiles_heap_ok; assumption.
  - rewrite handleFiles_timeout_run. apply auto_select_heap_ok; assumption.
  - apply keeps_convertAll, H.
  - rewrite deleteItem_run_any. apply delete_step_heap_ok, H.
  - rewrite clearAll_run. cbn [snd]. apply (heap_ok_frame host s); [exact H | reflexivity |].
    cbn. intros l Hl. apply elem_of_nil in Hl. contradiction.
  - exact H.
  - apply keeps_downloadAllZip, H.
  - exact H.
  - exact H.
  - apply keeps_onWebPGenerated, H.
  - exact H.
  - apply keeps_effect_generate, H.
  - apply keeps_effect_reconvert, H.
  - apply keeps_view_teardown, H.
Qed.

Lemma run_heap_ok host acts : forall s,
  well_formed s -> heap_ok host s -> heap_ok host (run host acts s).
Proof.
  induction acts as [|a acts IH]; intros s Hwf H; cbn; [exact H|].
  apply IH; [apply step_well_formed, Hwf | apply step_heap_ok; assumption].
Qed.

(** C3, as stated, fails: a JPEG file is dropped and converted in a browser
    that cannot decode it and rejects [img.decode()] with an [Error] whose
    message is the empty string; [convertAll] stores [err.message] as it
    is, and the item ends with status [error] and an empty error message. *)
Lemma error_item_with_empty_message :
  let s := run mute_host [HandleFiles [sample_jpeg]; ConvertAll] initial in
  queue s = [mkItem 0 sample_jpeg error (Some "") None None None 2048 None (Some 0)] /\
  ~ Forall
      (fun it =>
         (status it = done ->
          is_Some (outputBlob it) /\ is_Some (outputUrl it) /\
          exists n, outputName it = Some n /\ n <> "") /\
         (status it = error -> exists m, errorMessage it = Some m /\ m <> ""))
      (queue s).
Proof.
  cbn zeta.
  assert (E : queue (run mute_host [HandleFiles [sample_jpeg]; ConvertAll] initial)
              = [mkItem 0 sample_jpeg error (Some "") None None None 2048 None (Some 0)])
    by (vm_compute; reflexivity).
  split; [exact E|]. rewrite E. intros H.
  apply Forall_cons in H as [[_ H] _].
  destruct (H eq_refl) as (m & Hm & Hne). cbn in Hm. injection Hm as <-.
  apply Hne. reflexivity.
Qed.

(** C3, amended.  After any sequence of steps from the empty queue (the four
    queue operations, and also the timers, the preview callback and the
    view), every item of the list with status [done] has an output blob, an
    output URL and a non-empty output name, and every item with status
    [error] has an error message; this message is non-empty unless the
    browser, at one of its calls, could not make a bitmap of the item's file
    and rejected [img.decode()] with an [Error] whose message is empty. *)
Theorem done_and_error_items_are_complete (host : Host) (acts : list action) :
  Forall
    (fun it =>
       (status it = done ->
        is_Some (outputBlob it) /\ is_Some (outputUrl it) /\
        exists n, outputName it = Some n /\ n <> "") /\
       (status it = error ->
        exists m, errorMessage it = Some m /\
          (m = "" ->
           exists n, bitmap_ok (host n (file it)) = false /\
                     decode_error (host n (file it)) = Some (ErrorObj ""))))
    (queue (run host acts initial)).
Proof.
  apply Forall_forall. intros it Hit.
  apply elem_of_queue in Hit as (l & Hin & Hl).
  assert (H0 : heap_ok host initial).
  { intros l' it' H. apply elem_of_nil in H. contradiction. }
  exact (run_heap_ok host acts initial well_formed_initial H0 l it Hin Hl).
Qed.
(** * Clearing the queue and deleting the previewed item *)

(** C4 (amended).  In a well-formed state, and so in every state of a
    session, [clearAll] empties the list, clears the preview selection, and
    makes exactly one revoke call for each output URL and each thumbnail URL
    that an item of the list holds, and no other revoke call; these URLs are
    pairwise different.  URLs that no listed item holds at that time (those
    of the comparison view, of a download link, or an output URL that was
    overwritten) are not touched by [clearAll]. *)
Theorem clearAll_revokes_the_held_urls (s : State) :
  well_formed s ->
  items (exec clearAll s) = [] /\
  selectedPreviewItem (exec clearAll s) = None /\
  since s (exec clearAll s) = map RevokeObjectURL (held_urls s) /\
  NoDup (held_urls s).
Proof.
  intros H. unfold exec. rewrite clearAll_run. cbn [snd].
  repeat split.
  - apply since_app. reflexivity.
  - apply well_formed_held_urls, H.
Qed.

Lemma clearAll_revokes_the_held_urls_witness :
  let s := run good_host [HandleFiles [sample_jpeg; sample_png]; ConvertAll] initial in
  well_formed s /\
  items (exec clearAll s) = [] /\
  since s (exec clearAll s) =
    [RevokeObjectURL 2; RevokeObjectURL 0; RevokeObjectURL 3; RevokeObjectURL 1].
Proof.
  intros s.
  assert (H : well_formed s) by apply session_well_formed.
  destruct (clearAll_revokes_the_held_urls s H) as (H1 & _ & H3 & _).
  split; [exact H|]. split; [exact H1|].
  rewrite H3. vm_compute. reflexivity.
Defined.

(** What [handleFiles] hands to its timer when one JPEG file is dropped on
    the empty queue: the object made for the file, as it was made. *)
Lemma handleFiles_hands_new_item_to_timer :
  (handleFiles [sample_jpeg] initial).1 = Returned (Some [queued_item 0 sample_jpeg 0]).
Proof. reflexivity. Qed.

(** C4, as stated, fails: a file is dropped, the timer of [handleFiles]
    selects it for preview, the view converts it (which gives the previewed
    object an output URL) and converts it again, the batch conversion runs,
    and [clearAll] runs.  By then the list is empty and the selection
    cleared, but the URLs of the view and the output URL of the previewed
    object have not been revoked. *)
Lemma clearAll_leaves_urls_unrevoked :
  let s := run good_host
             [HandleFiles [sample_jpeg];
              HandleFilesTimeout [queued_item 0 sample_jpeg 0]; ViewMount;
              ViewGenerate; ViewReconvert; ConvertAll; ClearAll] initial in
  ~ (items s = [] /\ selectedPreviewItem s = None /\
     every_url_revoked_once (log s) = true).
Proof.
  intros s (_ & _ & H). vm_compute in H. discriminate H.
Qed.

Lemma clearAll_leaves_urls_unrevoked_log :
  let s := run good_host
             [HandleFiles [sample_jpeg];
              HandleFilesTimeout [queued_item 0 sample_jpeg 0]; ViewMount;
              ViewGenerate; ViewReconvert; ConvertAll; ClearAll] initial in
  created (log s) = [0; 1; 2; 3; 4; 5; 6] /\ revoked (log s) = [2; 3; 6; 0].
Proof. vm_compute. split; reflexivity. Qed.

(** C6.  The code on its default path: a file is dropped, and [handleFiles]
    hands its new object to the timer; the timer stores this object in
    [selectedPreviewItem], which makes a proxy of its own for it, different
    from the proxy in the list; the comparison view converts the file, and
    the callback writes the output URL (URL 3) to the previewed object.
    [deleteItem], called with the identifier of the item, revokes the
    thumbnail URL of the object in the list (URL 0) and nothing else, empties
    the list and clears the selection: the output URL of the previewed item
    is not revoked, neither then nor when the view is taken down. *)
Theorem deleteItem_keeps_preview_output_url :
  let s := run good_host
             [HandleFiles [sample_jpeg];
              HandleFilesTimeout [queued_item 0 sample_jpeg 0]; ViewMount;
              ViewGenerate] initial in
  (handleFiles [sample_jpeg] initial).1 = Returned (Some [queued_item 0 sample_jpeg 0]) /\
  items s = [0] /\
  objs s !! 0 = Some (mkItem 0 sample_jpeg queued None None None None 2048 None (Some 0)) /\
  selectedPreviewItem s = Some 1 /\
  objs s !! 1 = Some (mkItem 0 sample_jpeg queued None (Some 3) (Some (mkBlob 0 100))
                        (Some "photo.webp") 2048 (Some 100%N) (Some 0)) /\
  since s (exec (deleteItem 0) s) = [RevokeObjectURL 0] /\
  items (exec (deleteItem 0) s) = [] /\
  selectedPreviewItem (exec (deleteItem 0) s) = None /\
  created (log (run good_host [DeleteItem 0; ViewTeardown] s)) = [0; 1; 2; 3] /\
  revoked (log (run good_host [DeleteItem 0; ViewTeardown] s)) = [0; 1; 2].
Proof. vm_compute. repeat split; reflexivity. Qed.

(** X16.  What [deleteItem] does for the item under preview, whichever
    object the selection holds (the item of the list itself, after a click
    on its thumbnail, or the object that the timer of [handleFiles] made for
    it): in a well-formed state in which the previewed object has the
    identifier of an item of the list, [deleteItem] with this identifier
    revokes the output URL and the thumbnail URL that the item of the list
    holds (and nothing else), takes it off the list and keeps every other
    item; afterwards the preview selection is empty or is an item of the
    remaining list, different from the deleted one, whose status is not
    [error]. *)
Theorem deleteItem_reselects_preview (s : State) (l p : loc) (it pit : UploadItem) :
  well_formed s ->
  l ∈ items s ->
  objs s !! l = Some it ->
  selectedPreviewItem s = Some p ->
  objs s !! p = Some pit ->
  id pit = id it ->
  since s (exec (deleteItem (id it)) s) = map RevokeObjectURL (item_urls it) /\
  (l ∉ items (exec (deleteItem (id it)) s)) /\
  (forall l', l' <> l ->
     (l' ∈ items (exec (deleteItem (id it)) s) <-> l' ∈ items s)) /\
  (selectedPreviewItem (exec (deleteItem (id it)) s) = None \/
   exists l' it',
     selectedPreviewItem (exec (deleteItem (id it)) s) = Some l' /\
     l' ∈ items (exec (deleteItem (id it)) s) /\ l' <> l /\
     objs (exec (deleteItem (id it)) s) !! l' = Some it' /\ status it' <> error).
Proof.
  intros Hwf Hin Hobj Hsel Hp Hid.
  pose proof (wf_items_nodup s Hwf) as Hnd.
  pose proof (well_formed_ids s l it Hwf Hin Hobj) as Huniq.
  set (q := item_satisfies (fun it' => Nat.eqb (id it') (id it)) s).
  assert (Hpl : q l = true).
  { unfold q, item_satisfies. rewrite Hobj. apply Nat.eqb_refl. }
  destruct (findIndex q (items s)) as [i|] eqn:Hfi.
  2: { rewrite (findIndex_None _ _ _ Hfi Hin) in Hpl. discriminate. }
  destruct (findIndex_Some _ _ _ Hfi) as (l0 & Hi & Hp0).
  assert (l0 = l) as ->.
  { rewrite Forall_forall in Huniq. apply Huniq; [|exact Hp0].
    eapply list_elem_of_lookup_2. exact Hi. }
  rewrite (deleteItem_run _ _ _ _ Hfi Hi).
  assert (Hsid : selected_has_id (id it) s = true).
  { unfold selected_has_id, item_satisfies. rewrite Hsel, Hp.
    apply Nat.eqb_eq. exact Hid. }
  rewrite Hsid. cbn.
  split.
  { unfold since, urls_at. cbn. rewrite Hobj. apply drop_app_length. }
  split; [apply NoDup_delete_lookup; assumption|].
  split; [intros l' Hne; apply elem_of_delete_other with l; assumption|].
  destruct (List.find _ (delete i (items s))) as [l'|] eqn:Hfind;
    [right|left; reflexivity].
  apply List.find_some in Hfind as [Hl' Hne'].
  apply list_elem_of_In in Hl'.
  unfold item_satisfies in Hne'.
  destruct (objs s !! l') as [it'|] eqn:Hobj'; [|discriminate].
  exists l', it'. repeat split; try assumption.
  - intros ->. eapply NoDup_delete_lookup; eassumption.
  - unfold not_error in Hne'. intros Hst. rewrite Hst in Hne'. discriminate.
Qed.

Lemma deleteItem_reselects_preview_witness :
  let s := run good_host
             [HandleFiles [sample_jpeg; sample_gif; sample_png];
              HandleFilesTimeout (classify [sample_jpeg; sample_gif; sample_png] 0 0)]
             initial in
  well_formed s /\
  (0 ∈ items s) /\
  objs s !! 0 = Some first_item /\
  selectedPreviewItem s = Some 3 /\
  objs s !! 3 = Some first_item /\
  since s (exec (deleteItem 0) s) = [RevokeObjectURL 0] /\
  selectedPreviewItem (exec (deleteItem 0) s) = Some 2.
Proof.
  intros s.
  assert (H0 : well_formed s) by apply session_well_formed.
  assert (H1 : 0 ∈ items s) by (apply (bool_decide_unpack _); vm_compute; exact I).
  assert (H2 : objs s !! 0 = Some first_item) by (vm_compute; reflexivity).
  assert (H3 : selectedPreviewItem s = Some 3) by (vm_compute; reflexivity).
  assert (H4 : objs s !! 3 = Some first_item) by (vm_compute; reflexivity).
  destruct (deleteItem_reselects_preview s 0 3 first_item first_item H0 H1 H2 H3 H4 eq_refl)
    as (Hlog & _ & _ & _).
  split; [exact H0|]. split; [exact H1|]. split; [exact H2|]. split; [exact H3|].
  split; [exact H4|]. split; [exact Hlog | vm_compute; reflexivity].
Defined.
(** * Zoom and pan *)

Section ZoomAndPan.

Import View.
Local Open Scope float_scope.

Lemma reset_pan_at_one_resets z :
  (scale (reset_pan_at_one z) =? 1) = true ->
  panX (reset_pan_at_one z) = 0 /\ panY (reset_pan_at_one z) = 0.
Proof.
  unfold reset_pan_at_one. destruct (scale z =? 1) eqn:H; cbn.
  - intros _. split; reflexivity.
  - intros H'. congruence.
Qed.

Lemma resetZoom_resets z :
  scale (resetZoom z) = 1 /\ panX (resetZoom z) = 0 /\ panY (resetZoom z) = 0.
Proof. repeat split. Qed.

Lemma handleWheel_resets_at_one e z :
  scale (handleWheel e z) <> scale z ->
  (scale (handleWheel e z) =? 1) = true ->
  panX (handleWheel e z) = 0 /\ panY (handleWheel e z) = 0.
Proof.
  unfold handleWheel. destruct (ctrlKey e || metaKey e || altKey e); [|congruence].
  cbn zeta. destruct (negb _); [|cbn; congruence].
  intros _. apply reset_pan_at_one_resets.
Qed.

Lemma zoom_out_key_resets_at_one z active :
  (scale (handleKeyDown (mkKey "-" true active) z) =? 1) = true ->
  panX (handleKeyDown (mkKey "-" true active) z) = 0 /\
  panY (handleKeyDown (mkKey "-" true active) z) = 0.
Proof. apply reset_pan_at_one_resets. Qed.

Lemma handleImageMouseDown_guard e z :
  isPanning z = false -> isPanning (handleImageMouseDown e z) = true ->
  (scale z <=? 1) = false.
Proof.
  unfold handleImageMouseDown. destruct (onDivider e); [congruence|].
  cbn. destruct (scale z <=? 1); cbn; congruence.
Qed.

Lemma arrow_keys_guard e z :
  List.In (key e) ["ArrowLeft"; "ArrowRight"; "ArrowUp"; "ArrowDown"]%string ->
  (1 <? scale z) = false ->
  panX (handleKeyDown e z) = panX z /\ panY (handleKeyDown e z) = panY z.
Proof.
  intros Hk Hs. unfold handleKeyDown, key_is.
  destruct (targetInside e); cbn [negb]; [|split; reflexivity].
  repeat (destruct Hk as [<-|Hk]; [cbn; rewrite Hs; split; reflexivity|]).
  destruct Hk.
Qed.

(** C9.  The code at two drags: the user zooms in, presses the mouse button
    on the image and then, with the button still down, resets the zoom with
    Enter (first case) or zooms out below 1 (second case); the next mouse
    move changes the pan offset although the scale is exactly 1, or below
    1. *)
Theorem pan_moves_while_not_zoomed_in :
  let zoom_in := Wheel (mkWheel true false false (-100)) in
  let zoom_out := Wheel (mkWheel true false false 100) in
  let press := MouseDown (mkMouse false 0 0) in
  let drag := MouseMove (mkMouse false 5 0) in
  let z1 := play [zoom_in; press; GlobalKeyDown "Enter" false] initial in
  let z2 := play [zoom_in; press; zoom_out] initial in
  ((scale z1 =? 1) = true /\ panX z1 = 0 /\
   (scale (handle drag z1) =? 1) = true /\ panX (handle drag z1) = 5) /\
  ((scale z2 <? 1) = true /\ panX z2 = 0 /\
   (scale (handle drag z2) <? 1) = true /\ panX (handle drag z2) = 5).
Proof. repeat split; reflexivity. Qed.

End ZoomAndPan.

(** * Further properties of the code *)

(** * The conversion helper: its result and its temporary resources *)

(** X1.  [convertImageToWebP] returns a blob exactly when the image is
    decoded (by [createImageBitmap] or, when that fails, by [img.decode()]),
    the canvas gives a context and the encoder gives a blob, and the blob is
    the one of the encoder.  Otherwise it throws, in this order of
    precedence: what [img.decode()] rejected with, ["Canvas not supported"],
    ["Blob conversion failed"].  The failure of [createImageBitmap] itself
    is never thrown. *)
Theorem convertImageToWebP_result (host : Host) (f : File) (q : float) (s : State) :
  let h := host (calls s) f in
  match (convertImageToWebP host f q s).1 with
  | Returned b =>
      (bitmap_ok h = true \/ decode_error h = None) /\
      context_ok h = true /\ encoded h = Some b
  | Threw e =>
      (bitmap_ok h = false /\ decode_error h = Some e) \/
      ((bitmap_ok h = true \/ decode_error h = None) /\
       ((context_ok h = false /\ e = ErrorObj "Canvas not supported") \/
        (context_ok h = true /\ encoded h = None /\
         e = ErrorObj "Blob conversion failed")))
  end.
Proof.
  cbn zeta. rewrite convertImageToWebP_run. cbn [fst].
  unfold outcome, after_decoding.
  destruct (host (calls s) f) as [[] [] [b|] [e|]]; cbn; intuition congruence.
Qed.

(** X2.  A call of [convertImageToWebP] that returns has taken exactly one
    temporary resource, a bitmap or an object URL, and has given it back:
    the bitmaps closed during the call are the bitmaps opened during the
    call, and the URLs revoked are the URLs created.  The call reads
    nothing of the page and leaves its objects, its list and its selection
    as they are. *)
Theorem convertImageToWebP_releases_on_success
        (host : Host) (f : File) (q : float) (s : State) (b : Blob) :
  (convertImageToWebP host f q s).1 = Returned b ->
  let s' := (convertImageToWebP host f q s).2 in
  bitmaps_closed (since s s') = bitmaps_opened (since s s') /\
  revoked (since s s') = created (since s s') /\
  List.length (bitmaps_opened (since s s')) + List.length (created (since s s')) = 1 /\
  conversions (since s s') = [f] /\
  objs s' = objs s /\ items s' = items s /\
  selectedPreviewItem s' = selectedPreviewItem s.
Proof.
  intros Hr. cbn zeta. rewrite convertImageToWebP_run in *. cbn [fst snd] in *.
  unfold since, after_convert. cbn [log objs items selectedPreviewItem].
  rewrite drop_app_length. unfold converter_events. rewrite Hr. cbn [succeeded].
  destruct (bitmap_ok _); repeat split; reflexivity.
Qed.

Lemma convertImageToWebP_releases_on_success_witness :
  let r := convertImageToWebP good_host sample_jpeg initial_quality initial in
  r.1 = Returned (mkBlob 0 100) /\
  bitmaps_closed (since initial r.2) = bitmaps_opened (since initial r.2) /\
  revoked (since initial r.2) = created (since initial r.2).
Proof.
  intros r.
  assert (H : r.1 = Returned (mkBlob 0 100)) by reflexivity.
  destruct (convertImageToWebP_releases_on_success good_host sample_jpeg
              initial_quality initial (mkBlob 0 100) H) as (H1 & H2 & _).
  split; [exact H|]. split; [exact H1 | exact H2].
Defined.

(** * Adding files: the timer and the automatic selection *)

Lemma omap_seq_lookup {A} (f : nat -> option A) (raws : list A) : forall n,
  (forall k a, raws !! k = Some a -> f (n + k) = Some a) ->
  omap f (seq n (List.length raws)) = raws.
Proof.
  induction raws as [|a raws IH]; intros n H; [reflexivity|].
  cbn [List.length seq]. rewrite omap_cons_eq.
  rewrite <- (Nat.add_0_r n) at 1. rewrite (H 0 a eq_refl).
  f_equal. apply IH. intros k b Hk.
  replace (S n + k) with (n + S k) by lia. apply H. exact Hk.
Qed.

Lemma queue_after_handleFiles fl s :
  well_formed s ->
  queue (after_handleFiles fl s) = queue s ++ classify fl (next_uuid s) (next_url s).
Proof.
  intros H. unfold queue.
  replace (items (after_handleFiles fl s))
    with (items s ++ seq (next_loc s) (List.length fl))
    by (unfold after_handleFiles, pushed; cbn; rewrite classify_length; reflexivity).
  rewrite omap_app. f_equal.
  - apply list_omap_ext. apply Forall2_same_length_lookup_2; [reflexivity|].
    intros i l l' Hl Hl'. assert (l' = l) as -> by congruence.
    rewrite after_handleFiles_lookup.
    pose proof (listed_below_next_loc s l H (list_elem_of_lookup_2 _ _ _ Hl)).
    rewrite bool_decide_false by lia. reflexivity.
  - rewrite <- (classify_length fl (next_uuid s) (next_url s)).
    apply omap_seq_lookup. intros k it Hk.
    rewrite after_handleFiles_lookup.
    apply lookup_lt_Some in Hk as Hlt. rewrite classify_length in Hlt.
    rewrite bool_decide_true by lia.
    replace (next_loc s + k - next_loc s) with k by lia. exact Hk.
Qed.

(** X3.  In a well-formed state, and so in every state of a session,
    [handleFiles] appends one item per file, in the order of the files: for
    a file whose declared type is [image/jpeg] or [image/png] an item with
    status [queued] and a thumbnail URL created in this call, for any other
    file an item with status [error], the message for unsupported types and
    no URL.  The items get the next identifiers and the thumbnails the next
    URLs; the calls that [handleFiles] makes are the creations of these
    thumbnail URLs and nothing else, so it calls no conversion.  It arms
    the timer of the automatic selection exactly when no item is selected
    and there is a file, and the timer gets the new objects as they were
    made. *)
Theorem handleFiles_classifies_files (fileList : list File) (s : State) :
  well_formed s ->
  queue (exec (handleFiles fileList) s) =
    queue s ++ classify fileList (next_uuid s) (next_url s) /\
  since s (exec (handleFiles fileList) s) =
    map CreateObjectURL (thumbnails (classify fileList (next_uuid s) (next_url s))) /\
  conversions (log (exec (handleFiles fileList) s)) = conversions (log s) /\
  selectedPreviewItem (exec (handleFiles fileList) s) = selectedPreviewItem s /\
  (handleFiles fileList s).1 =
    Returned (match selectedPreviewItem s, fileList with
              | None, _ :: _ => Some (classify fileList (next_uuid s) (next_url s))
              | _, _ => None
              end).
Proof.
  intros H. split; [|split; [|split; [apply handleFiles_calls_no_conversion|]]];
    unfold exec; rewrite handleFiles_run; cbn [fst snd].
  - apply queue_after_handleFiles, H.
  - apply since_app. reflexivity.
  - split; reflexivity.
Qed.

Lemma handleFiles_classifies_files_witness :
  let s := exec (handleFiles [sample_png]) initial in
  well_formed s /\
  queue (exec (handleFiles [sample_jpeg; sample_gif]) s) =
    [mkItem 0 sample_png queued None None None None 4096 None (Some 0);
     mkItem 1 sample_jpeg queued None None None None 2048 None (Some 1);
     mkItem 2 sample_gif error (Some "Unsupported file type. Please upload JPEG or PNG.")
            None None None 512 None None] /\
  since s (exec (handleFiles [sample_jpeg; sample_gif]) s) = [CreateObjectURL 1].
Proof.
  intros s.
  assert (H : well_formed s) by apply (session_well_formed good_host [HandleFiles [sample_png]]).
  destruct (handleFiles_classifies_files [sample_jpeg; sample_gif] s H) as (H1 & H2 & _).
  split; [exact H|].
  split; [rewrite H1 | rewrite H2]; vm_compute; reflexivity.
Defined.

Lemma classify_supported fl : forall i u k it f,
  classify fl i u !! k = Some it -> fl !! k = Some f ->
  supported_type (file_type f) = true ->
  it = queued_item (i + k) f (u + List.length (thumbnails (take k (classify fl i u)))).
Proof.
  unfold thumbnails.
  induction fl as [|g fl IH]; intros i u k it f Hk Hf Hs; [discriminate Hf|].
  cbn [classify] in *. destruct k as [|k].
  - cbn in Hf. injection Hf as ->. rewrite Hs in *. cbn in Hk. injection Hk as <-.
    cbn. rewrite !Nat.add_0_r. reflexivity.
  - cbn in Hf. destruct (supported_type (file_type g)); cbn in Hk |- *;
      rewrite (IH _ _ _ _ _ Hk Hf Hs); f_equal; lia.
Qed.

Lemma find_not_error_classify fl : forall i u,
  List.find not_error (classify fl i u) =
  ((fun r => queued_item (i + r.1) r.2
               (u + List.length (thumbnails (take r.1 (classify fl i u)))))
     <$> list_find (fun f => supported_type (file_type f) = true) fl).
Proof.
  induction fl as [|f fl IH]; intros i u; [reflexivity|].
  cbn [classify list_find].
  destruct (supported_type (file_type f)) eqn:Hs.
  - rewrite decide_True by reflexivity. cbn.
    rewrite Nat.add_0_r, Nat.add_0_r. reflexivity.
  - rewrite decide_False by discriminate. cbn [List.find not_error rejected_item status].
    cbn. rewrite IH.
    destruct (list_find _ fl) as [[k g]|]; cbn; [|reflexivity].
    unfold thumbnails. cbn. f_equal. f_equal; lia.
Qed.

(** X4.  When files are added while no item is selected and the timer of
    [handleFiles] runs next, the selection becomes a new object for the
    first file of an accepted type: it has the identifier, the file, the
    thumbnail URL and the status [queued] of the item that [handleFiles]
    put in the list for this file, but it is another object than that item
    and is not in the list.  When no file is of an accepted type, the timer
    changes nothing.  The timer leaves the list, its items and the log as
    they are. *)
Theorem handleFiles_timer_selects_first_accepted (fileList : list File) (s : State) :
  well_formed s ->
  selectedPreviewItem s = None ->
  let raws := classify fileList (next_uuid s) (next_url s) in
  let s1 := exec (handleFiles fileList) s in
  let s2 := exec (handleFiles_timeout raws) s1 in
  match list_find (fun f => supported_type (file_type f) = true) fileList with
  | Some (i, f) =>
      exists p l it,
        selectedPreviewItem s2 = Some p /\ (p ∉ items s2) /\
        items s2 !! (List.length (items s) + i) = Some l /\ l <> p /\
        objs s2 !! l = Some it /\ objs s2 !! p = Some it /\
        file it = f /\ status it = queued /\ id it = next_uuid s + i
  | None => s2 = s1
  end /\
  items s2 = items s1 /\ log s2 = log s1 /\
  (forall l, l ∈ items s1 -> objs s2 !! l = objs s1 !! l).
Proof.
  intros Hwf Hsel. cbn zeta. unfold exec.
  rewrite handleFiles_run, handleFiles_timeout_run. cbn [snd].
  pose proof (wf_after_handleFiles fileList s Hwf) as Hwf1.
  set (s1 := after_handleFiles fileList s) in *.
  assert (Hsel1 : selectedPreviewItem s1 = None) by exact Hsel.
  assert (Hitems : items s1 = items s ++ seq (next_loc s) (List.length fileList)).
  { unfold s1, after_handleFiles, pushed. cbn. rewrite classify_length. reflexivity. }
  assert (Hnl : next_loc s1 = next_loc s + List.length fileList).
  { unfold s1, after_handleFiles, pushed. cbn. rewrite classify_length. reflexivity. }
  unfold auto_select. rewrite Hsel1, find_not_error_classify.
  destruct (list_find _ fileList) as [[i f]|] eqn:Hfind; cbn [fmap option_fmap option_map].
  - cbn [items log objs selectedPreviewItem fst snd].
    apply list_find_Some in Hfind as (Hi & Hsup & _).
    pose proof (lookup_lt_Some _ _ _ Hi) as Hlt.
    assert (Hraw : classify fileList (next_uuid s) (next_url s) !! i =
              Some (queued_item (next_uuid s + i) f
                      (next_url s + List.length
                         (thumbnails (take i (classify fileList (next_uuid s) (next_url s))))))).
    { destruct (classify fileList (next_uuid s) (next_url s) !! i) as [it|] eqn:E.
      2: { apply lookup_ge_None in E. rewrite classify_length in E. lia. }
      destruct (classify_lookup _ _ _ _ _ E) as (Hid & (f' & Hf' & Hfile) & Hst & Hou & Hob & Hu).
      assert (f' = f) as -> by congruence.
      pose proof (classify_supported _ _ _ _ _ _ E Hi Hsup) as Hq.
      rewrite Hq. reflexivity. }
    split; [|split; [reflexivity|split; [reflexivity|]]].
    + eexists (next_loc s1), (next_loc s + i), _.
      split; [reflexivity|]. split.
      { intros Hin. pose proof (listed_below_next_loc s1 _ Hwf1 Hin). lia. }
      split.
      { rewrite Hitems, lookup_app_r by lia.
        replace (List.length (items s) + i - List.length (items s)) with i by lia.
        apply lookup_seq_lt. exact Hlt. }
      split; [lia|]. split.
      { rewrite lookup_insert_ne by lia. unfold s1.
        rewrite after_handleFiles_lookup, bool_decide_true by lia.
        replace (next_loc s + i - next_loc s) with i by lia. exact Hraw. }
      split; [apply lookup_insert_eq|]. repeat split.
    + intros l Hin. apply lookup_insert_ne.
      pose proof (listed_below_next_loc s1 _ Hwf1 Hin). lia.
  - split; [reflexivity|]. repeat split.
Qed.

Lemma handleFiles_timer_selects_first_accepted_witness :
  let s1 := exec (handleFiles [sample_gif; sample_png; sample_jpeg]) initial in
  let s2 := exec (handleFiles_timeout (classify [sample_gif; sample_png; sample_jpeg] 0 0)) s1 in
  well_formed initial /\
  selectedPreviewItem initial = None /\
  items s2 = [0; 1; 2] /\
  selectedPreviewItem s2 = Some 3 /\
  objs s2 !! 3 = Some (mkItem 1 sample_png queued None None None None 4096 None (Some 0)) /\
  objs s2 !! 1 = Some (mkItem 1 sample_png queued None None None None 4096 None (Some 0)).
Proof.
  cbn zeta.
  destruct (handleFiles_timer_selects_first_accepted
              [sample_gif; sample_png; sample_jpeg] initial well_formed_initial eq_refl)
    as (_ & H & _).
  split; [exact well_formed_initial|]. split; [reflexivity|].
  split; [etransitivity; [exact H | vm_compute; reflexivity]|].
  repeat split; vm_compute; reflexivity.
Defined.
(** * The batch conversion and the buttons *)

Lemma hasQueued_false s l it :
  hasQueued s = false -> l ∈ items s -> objs s !! l = Some it -> pending it = false.
Proof.
  unfold hasQueued. intros H Hl Ho.
  destruct (pending it) eqn:Hp; [|reflexivity].
  rewrite <- H. symmetry. apply existsb_exists. exists it. split; [|exact Hp].
  apply list_elem_of_In. unfold queue. apply list_elem_of_omap. eauto.
Qed.

Lemma batch_without_pending host ls : forall s,
  (forall l it, l ∈ ls -> objs s !! l = Some it -> pending it = false) ->
  batch host ls s = s.
Proof.
  induction ls as [|l ls IH]; intros s H; [reflexivity|].
  change (batch host (l :: ls) s) with (batch host ls (convert_step host l s)).
  assert (Hl : convert_step host l s = s).
  { unfold convert_step. destruct (objs s !! l) as [it|] eqn:Ho; [|reflexivity].
    rewrite (H l it) by (auto; left). reflexivity. }
  rewrite Hl. apply IH. intros l' it Hin. apply H. right. exact Hin.
Qed.

Lemma convertAll_without_pending host s :
  hasQueued s = false -> convertAll host s = (Returned tt, s).
Proof.
  intros H. rewrite convertAll_run. f_equal.
  apply (batch_without_pending host (items s) s).
  intros l it. apply hasQueued_false. exact H.
Qed.

Lemma convert_step_calls_le host l s : calls s <= calls (convert_step host l s).
Proof. rewrite convert_step_calls. lia. Qed.

Lemma batch_calls_le host ls : forall s, calls s <= calls (batch host ls s).
Proof.
  induction ls as [|l ls IH]; intros s; [reflexivity|].
  change (batch host (l :: ls) s) with (batch host ls (convert_step host l s)).
  etransitivity; [apply (convert_step_calls_le host l)|apply IH].
Qed.

Lemma batch_with_pending host ls : forall s,
  existsb (item_satisfies pending s) ls = true ->
  calls s < calls (batch host ls s).
Proof.
  induction ls as [|l ls IH]; intros s H; [discriminate H|].
  change (batch host (l :: ls) s) with (batch host ls (convert_step host l s)).
  cbn [existsb] in H.
  destruct (item_satisfies pending s l) eqn:Hp.
  - pose proof (batch_calls_le host ls (convert_step host l s)) as Hle.
    rewrite convert_step_calls, Hp in Hle. lia.
  - assert (Hl : convert_step host l s = s).
    { unfold convert_step. unfold item_satisfies in Hp.
      destruct (objs s !! l) as [it|]; [rewrite Hp|]; reflexivity. }
    rewrite Hl. apply IH. exact H.
Qed.

Lemma hasQueued_existsb s :
  hasQueued s = existsb (item_satisfies pending s) (items s).
Proof.
  unfold hasQueued, queue, item_satisfies.
  induction (items s) as [|l ls IH]; [reflexivity|].
  cbn. destruct (objs s !! l) as [it|]; cbn; rewrite IH; reflexivity.
Qed.

(** What a round of the loop adds to the log: one call of the conversion
    service per round that counts, and no revoke call for a URL that
    existed before the round. *)
Lemma convert_step_log host l s :
  exists evs, log (convert_step host l s) = log s ++ evs /\
    List.length (conversions evs) + calls s = calls (convert_step host l s) /\
    forall u, u ∈ revoked evs -> next_url s <= u.
Proof.
  unfold convert_step.
  destruct (objs s !! l) as [it|]; [destruct (pending it)|];
    try (exists []; rewrite app_nil_r; repeat split; auto;
         intros u Hu; apply elem_of_nil in Hu; contradiction).
  eexists. split; [reflexivity|]. unfold converter_events.
  destruct (bitmap_ok _), (succeeded _); cbn; (split; [lia|]);
    intros u Hu; repeat (apply elem_of_cons in Hu as [->|Hu]; [lia|]);
    apply elem_of_nil in Hu; contradiction.
Qed.

Lemma revoked_app l1 l2 : revoked (l1 ++ l2) = revoked l1 ++ revoked l2.
Proof. apply omap_app. Qed.

Lemma batch_log host ls : forall s,
  exists evs, log (batch host ls s) = log s ++ evs /\
    List.length (conversions evs) + calls s = calls (batch host ls s) /\
    forall u, u ∈ revoked evs -> next_url s <= u.
Proof.
  induction ls as [|l ls IH]; intros s.
  - exists []. cbn. rewrite app_nil_r. repeat split; auto.
    intros u Hu. apply elem_of_nil in Hu. contradiction.
  - change (batch host (l :: ls) s) with (batch host ls (convert_step host l s)).
    destruct (convert_step_log host l s) as (evs1 & Hl1 & Hc1 & Hr1).
    destruct (IH (convert_step host l s)) as (evs2 & Hl2 & Hc2 & Hr2).
    exists (evs1 ++ evs2). rewrite Hl2, Hl1, <- app_assoc.
    split; [reflexivity|]. rewrite conversions_app, length_app, revoked_app.
    split; [lia|]. intros u Hu. apply elem_of_app in Hu as [Hu|Hu]; [auto|].
    specialize (Hr2 u Hu).
    destruct (convert_step_frame host l s) as (_ & _ & _ & _ & Hn). lia.
Qed.

(** X5.  The "Convert all" button is enabled exactly when [convertAll] has
    something to do: when [hasQueued] is false, a call of [convertAll]
    changes nothing (no status is written, the conversion service is not
    called), and when it is true, the call reaches the conversion service
    at least once. *)
Theorem convertAll_acts_iff_hasQueued (host : Host) (s : State) :
  if hasQueued s
  then conversions (since s (exec (convertAll host) s)) <> []
  else convertAll host s = (Returned tt, s).
Proof.
  destruct (hasQueued s) eqn:H; [|apply convertAll_without_pending, H].
  rewrite hasQueued_existsb in H.
  unfold exec. rewrite convertAll_run. cbn [snd]. fold (batch host (items s) s).
  destruct (batch_log host (items s) s) as (evs & Hl & Hc & _).
  rewrite (since_app _ _ _ Hl).
  pose proof (batch_with_pending host (items s) s H) as Hlt.
  intros Hnil. rewrite Hnil in Hc. cbn in Hc. lia.
Qed.

Lemma settled_without_error host s :
  Forall (fun it => status it <> converting) (queue s) ->
  Forall (fun it => status it <> error) (queue (exec (convertAll host) s)) ->
  hasQueued (exec (convertAll host) s) = false.
Proof.
  intros Hc He. pose proof (convertAll_settles_queue host s Hc) as Hd.
  unfold hasQueued. apply not_true_is_false. intros H.
  apply existsb_exists in H as (it & Hin & Hp). apply list_elem_of_In in Hin.
  rewrite Forall_forall in Hd, He.
  destruct (Hd it Hin) as [Hs|Hs]; [rewrite Hs in Hp; discriminate Hp|].
  exact (He it Hin Hs).
Qed.

(** X6.  Finished work is not repeated: when no item is [converting] at the
    start of a call of [convertAll] and no conversion of that call fails, a
    second call (with whatever the browser would answer) changes nothing
    and calls the conversion service for no item. *)
Theorem convertAll_again_does_nothing (host host' : Host) (s : State) :
  Forall (fun it => status it <> converting) (queue s) ->
  Forall (fun it => status it <> error) (queue (exec (convertAll host) s)) ->
  convertAll host' (exec (convertAll host) s) =
  (Returned tt, exec (convertAll host) s).
Proof.
  intros Hc He. apply convertAll_without_pending, settled_without_error; assumption.
Qed.

Lemma convertAll_again_does_nothing_witness :
  let s := exec (handleFiles [sample_jpeg; sample_png]) initial in
  Forall (fun it => status it <> converting) (queue s) /\
  Forall (fun it => status it <> error) (queue (exec (convertAll good_host) s)) /\
  convertAll no_context_host (exec (convertAll good_host) s) =
  (Returned tt, exec (convertAll good_host) s).
Proof.
  intros s.
  assert (H1 : Forall (fun it => status it <> converting) (queue s)).
  { replace (queue s) with [queued_item 0 sample_jpeg 0; queued_item 1 sample_png 1]
      by (vm_compute; reflexivity).
    do 2 (apply List.Forall_cons; [discriminate|]). apply List.Forall_nil. }
  assert (H2 : Forall (fun it => status it <> error)
                 (queue (exec (convertAll good_host) s))).
  { replace (queue (exec (convertAll good_host) s))
      with [converted (queued_item 0 sample_jpeg 0) (mkBlob 0 100) 2;
            converted (queued_item 1 sample_png 1) (mkBlob 1 100) 3]
      by (vm_compute; reflexivity).
    do 2 (apply List.Forall_cons; [discriminate|]). apply List.Forall_nil. }
  split; [exact H1|]. split; [exact H2|].
  exact (convertAll_again_does_nothing good_host no_context_host s H1 H2).
Defined.

Lemma convert_step_keeps host l0 s l it :
  objs s !! l = Some it ->
  exists it', objs (convert_step host l0 s) !! l = Some it' /\
    id it' = id it /\ file it' = file it /\ sizeBefore it' = sizeBefore it /\
    thumbnailUrl it' = thumbnailUrl it.
Proof.
  intros Ho. destruct (decide (l = l0)) as [->|Hne].
  - unfold convert_step. rewrite Ho.
    destruct (pending it); [|exists it; auto].
    cbn. rewrite lookup_insert_eq. eexists. split; [reflexivity|].
    destruct (outcome _); cbn; auto.
  - exists it. rewrite convert_step_other by exact Hne. auto.
Qed.

Lemma batch_keeps host ls : forall s l it,
  objs s !! l = Some it ->
  exists it', objs (batch host ls s) !! l = Some it' /\
    id it' = id it /\ file it' = file it /\ sizeBefore it' = sizeBefore it /\
    thumbnailUrl it' = thumbnailUrl it.
Proof.
  induction ls as [|l0 ls IH]; intros s l it Ho; [exists it; auto|].
  change (batch host (l0 :: ls) s) with (batch host ls (convert_step host l0 s)).
  destruct (convert_step_keeps host l0 s l it Ho) as (it1 & Ho1 & H1 & H2 & H3 & H4).
  destruct (IH _ l it1 Ho1) as (it' & Ho' & H1' & H2' & H3' & H4').
  exists it'. split; [exact Ho'|]. repeat split; congruence.
Qed.

(** X7.  [convertAll] keeps the list, the preview selection, the quality
    and the view as they are, and every object keeps its identifier, its
    file, its original size and its thumbnail URL.  It revokes no URL that
    existed before the call: neither a thumbnail URL nor the output URL that
    an item had and that the call replaces. *)
Theorem convertAll_keeps_items_and_urls (host : Host) (s : State) :
  let s' := exec (convertAll host) s in
  items s' = items s /\ selectedPreviewItem s' = selectedPreviewItem s /\
  quality s' = quality s /\ preview s' = preview s /\
  (forall l it, objs s !! l = Some it ->
     exists it', objs s' !! l = Some it' /\
       id it' = id it /\ file it' = file it /\ sizeBefore it' = sizeBefore it /\
       thumbnailUrl it' = thumbnailUrl it) /\
  Forall (fun u => next_url s <= u) (revoked (since s s')).
Proof.
  cbn zeta. unfold exec. rewrite convertAll_run. cbn [snd].
  fold (batch host (items s) s).
  assert (Hframe : forall ls s0,
            items (batch host ls s0) = items s0 /\
            selectedPreviewItem (batch host ls s0) = selectedPreviewItem s0 /\
            quality (batch host ls s0) = quality s0 /\
            preview (batch host ls s0) = preview s0).
  { induction ls as [|l ls IH]; intros s0; [auto|].
    change (batch host (l :: ls) s0) with (batch host ls (convert_step host l s0)).
    destruct (IH (convert_step host l s0)) as (-> & -> & -> & ->).
    destruct (convert_step_frame host l s0) as (-> & -> & -> & -> & _). auto. }
  destruct (Hframe (items s) s) as (H1 & H2 & H3 & H4).
  split; [exact H1|]. split; [exact H2|]. split; [exact H3|]. split; [exact H4|].
  split; [apply batch_keeps|].
  destruct (batch_log host (items s) s) as (evs & Hl & _ & Hr).
  rewrite (since_app _ _ _ Hl). apply Forall_forall. exact Hr.
Qed.

(** * Deleting and clearing *)

Lemma findIndex_all_false (p : loc -> bool) ls :
  (forall l, l ∈ ls -> p l = false) -> findIndex p ls = None.
Proof.
  induction ls as [|l ls IH]; intros H; [reflexivity|].
  cbn. rewrite (H l) by left. rewrite IH; [reflexivity|].
  intros l' Hl'. apply H. right. exact Hl'.
Qed.

(** X8.  [deleteItem] with an identifier that no item of the list has
    changes nothing: nothing is revoked, and the list and the preview
    selection stay as they are. *)
Theorem deleteItem_unknown_id (i : nat) (s : State) :
  Forall (fun it => id it <> i) (queue s) ->
  deleteItem i s = (Returned tt, s).
Proof.
  intros H. rewrite deleteItem_run_any. f_equal. unfold delete_step.
  rewrite findIndex_all_false; [reflexivity|].
  intros l Hl. unfold item_satisfies.
  destruct (objs s !! l) as [it|] eqn:Ho; [|reflexivity].
  apply Nat.eqb_neq. rewrite Forall_forall in H. apply H.
  unfold queue. apply list_elem_of_omap. eauto.
Qed.

Lemma deleteItem_unknown_id_witness :
  let s := exec (handleFiles [sample_jpeg; sample_png]) initial in
  Forall (fun it => id it <> 7) (queue s) /\
  deleteItem 7 s = (Returned tt, s).
Proof.
  intros s.
  assert (H : Forall (fun it => id it <> 7) (queue s)).
  { replace (queue s) with [queued_item 0 sample_jpeg 0; queued_item 1 sample_png 1]
      by (vm_compute; reflexivity).
    do 2 (apply List.Forall_cons; [discriminate|]). apply List.Forall_nil. }
  split; [exact H | exact (deleteItem_unknown_id 7 s H)].
Defined.

Lemma filter_other (ls : list loc) l :
  l ∉ ls -> filter (fun l' => l' <> l) ls = ls.
Proof.
  induction ls as [|l0 ls IH]; intros H; [reflexivity|].
  apply not_elem_of_cons in H as [H0 H].
  rewrite filter_cons_True by auto. rewrite IH by exact H. reflexivity.
Qed.

Lemma delete_filter (ls : list loc) : forall i l,
  NoDup ls -> ls !! i = Some l -> delete i ls = filter (fun l' => l' <> l) ls.
Proof.
  induction ls as [|l0 ls IH]; intros i l Hnd Hi; [discriminate Hi|].
  apply NoDup_cons in Hnd as [Hl0 Hnd].
  destruct i as [|i]; cbn in Hi.
  - injection Hi as ->. change (delete 0 (l :: ls)) with ls.
    rewrite filter_cons_False by auto.
    symmetry. apply filter_other. exact Hl0.
  - change (delete (S i) (l0 :: ls)) with (l0 :: delete i ls).
    rewrite filter_cons_True.
    + f_equal. apply IH; assumption.
    + intros ->. apply Hl0. eapply list_elem_of_lookup_2. exact Hi.
Qed.

(** X9.  In a well-formed state, [deleteItem] with the identifier of an
    item of the list, when the previewed object (if there is one) has
    another identifier, takes that item off the list and keeps the other
    items in their order, revokes the URLs that the item holds and no other,
    and leaves the preview selection and every object as they are. *)
Theorem deleteItem_of_other_item (s : State) (l : loc) (it : UploadItem) :
  well_formed s ->
  l ∈ items s ->
  objs s !! l = Some it ->
  (forall p pit, selectedPreviewItem s = Some p -> objs s !! p = Some pit ->
                 id pit <> id it) ->
  let s' := exec (deleteItem (id it)) s in
  items s' = filter (fun l' => l' <> l) (items s) /\
  since s s' = map RevokeObjectURL (item_urls it) /\
  selectedPreviewItem s' = selectedPreviewItem s /\
  objs s' = objs s.
Proof.
  intros Hwf Hin Hobj Hsel. cbn zeta.
  pose proof (wf_items_nodup s Hwf) as Hnd.
  pose proof (well_formed_ids s l it Hwf Hin Hobj) as Huniq.
  set (p := item_satisfies (fun it' => Nat.eqb (id it') (id it)) s).
  assert (Hpl : p l = true).
  { unfold p, item_satisfies. rewrite Hobj. apply Nat.eqb_refl. }
  destruct (findIndex p (items s)) as [i|] eqn:Hfi.
  2: { rewrite (findIndex_None _ _ _ Hfi Hin) in Hpl. discriminate. }
  destruct (findIndex_Some _ _ _ Hfi) as (l0 & Hi & Hp0).
  assert (l0 = l) as ->.
  { rewrite Forall_forall in Huniq. apply Huniq; [|exact Hp0].
    eapply list_elem_of_lookup_2. exact Hi. }
  rewrite (deleteItem_run _ _ _ _ Hfi Hi).
  assert (Hsid : selected_has_id (id it) s = false).
  { unfold selected_has_id. destruct (selectedPreviewItem s) as [l1|] eqn:Hs1;
      [|reflexivity].
    unfold item_satisfies. destruct (objs s !! l1) as [it1|] eqn:Ho1; [|reflexivity].
    apply Nat.eqb_neq. exact (Hsel l1 it1 eq_refl Ho1). }
  rewrite Hsid. cbn.
  split; [apply delete_filter; assumption|].
  split; [|split; reflexivity].
  unfold since, urls_at. cbn. rewrite Hobj. apply drop_app_length.
Qed.

Lemma deleteItem_of_other_item_witness :
  let s := run good_host
             [HandleFiles [sample_jpeg; sample_gif; sample_png];
              HandleFilesTimeout (classify [sample_jpeg; sample_gif; sample_png] 0 0)]
             initial in
  let s' := exec (deleteItem 2) s in
  well_formed s /\ (2 ∈ items s) /\
  objs s !! 2 = Some (queued_item 2 sample_png 1) /\
  selectedPreviewItem s = Some 3 /\ objs s !! 3 = Some first_item /\
  items s' = [0; 1] /\ since s s' = [RevokeObjectURL 1] /\
  selectedPreviewItem s' = Some 3.
Proof.
  intros s s'.
  assert (H0 : well_formed s) by apply session_well_formed.
  assert (H1 : 2 ∈ items s) by (apply (bool_decide_unpack _); vm_compute; exact I).
  assert (H2 : objs s !! 2 = Some (queued_item 2 sample_png 1))
    by (vm_compute; reflexivity).
  assert (H3 : selectedPreviewItem s = Some 3) by (vm_compute; reflexivity).
  assert (H4 : objs s !! 3 = Some first_item) by (vm_compute; reflexivity).
  assert (H5 : forall p pit, selectedPreviewItem s = Some p -> objs s !! p = Some pit ->
                 id pit <> id (queued_item 2 sample_png 1)).
  { intros p pit Hp Ho. rewrite H3 in Hp. injection Hp as <-.
    rewrite H4 in Ho. injection Ho as <-. discriminate. }
  destruct (deleteItem_of_other_item s 2 (queued_item 2 sample_png 1) H0 H1 H2 H5)
    as (Ha & Hb & Hc & _).
  split; [exact H0|]. split; [exact H1|]. split; [exact H2|]. split; [exact H3|].
  split; [exact H4|].
  split; [etransitivity; [exact Ha | vm_compute; reflexivity]|].
  split; [exact Hb|]. etransitivity; [exact Hc | exact H3].
Defined.

(** X10.  After [clearAll] there is nothing left to do: both buttons are
    disabled ([hasQueued] and [hasDone] are false), and [convertAll],
    [downloadAllZip], [deleteItem] with any identifier and a second
    [clearAll] change nothing; in particular no URL is revoked a second
    time. *)
Theorem clearAll_leaves_nothing_to_do (host : Host) (i : nat) (s : State) :
  let s' := exec clearAll s in
  hasQueued s' = false /\ hasDone s' = false /\
  convertAll host s' = (Returned tt, s') /\
  downloadAllZip s' = (Returned None, s') /\
  deleteItem i s' = (Returned tt, s') /\
  clearAll s' = (Returned tt, s').
Proof.
  cbn zeta. unfold exec. rewrite clearAll_run. cbn [snd].
  set (s' := set_selectedPreviewItem None _).
  assert (Hi : items s' = []) by reflexivity.
  assert (Hq : queue s' = []) by (unfold queue; rewrite Hi; reflexivity).
  split; [unfold hasQueued; rewrite Hq; reflexivity|].
  split; [unfold hasDone; rewrite Hq; reflexivity|].
  split; [apply convertAll_without_pending; unfold hasQueued; rewrite Hq; reflexivity|].
  split; [apply downloadAllZip_without_done_item; unfold entries; rewrite Hi;
          reflexivity|].
  split.
  - rewrite deleteItem_run_any. unfold delete_step. rewrite Hi. reflexivity.
  - rewrite clearAll_run. unfold held_urls. rewrite Hq. cbn.
    rewrite append_log_nil. unfold s'. reflexivity.
Qed.

(** * The archive of [downloadAllZip] *)


Lemma entry_of_done s l :
  is_Some (entry_of s l) <->
  exists it, objs s !! l = Some it /\ status it = done /\ is_Some (outputBlob it).
Proof.
  unfold entry_of. destruct (objs s !! l) as [it|].
  - destruct (status it) eqn:Hs, (outputBlob it) eqn:Hb; split;
      try (intros [x Hx]; discriminate Hx);
      try (intros (it' & [= <-] & H1 & [b' H2]); congruence).
    + intros _. exists it. rewrite Hs, Hb. eauto.
    + intros _. eauto.
  - split; [intros [x Hx]; discriminate Hx | intros (it' & H & _); discriminate H].
Qed.

Lemma hasDone_entries s : hasDone s = true <-> entries s <> [].
Proof.
  unfold hasDone, entries, queue.
  induction (items s) as [|l ls IH]; [cbn; split; [discriminate | congruence]|].
  rewrite omap_entry_cons, omap_cons_eq.
  destruct (entry_of s l) as [e|] eqn:He.
  - split; [discriminate|]. intros _.
    destruct (proj1 (entry_of_done s l)) as (it & Ho & Hs & Hb); [rewrite He; eauto|].
    rewrite Ho. cbn. rewrite Hs. cbn. rewrite bool_decide_true by exact Hb. reflexivity.
  - destruct (objs s !! l) as [it|] eqn:Ho; [|exact IH]. cbn [existsb].
    assert (Hn : status_eqb (status it) done && bool_decide (is_Some (outputBlob it))
                 = false).
    { apply not_true_is_false. intros H. apply andb_prop in H as [H1 H2].
      apply bool_decide_eq_true in H2.
      assert (Hs : status it = done) by (destruct (status it); try discriminate H1; auto).
      destruct (proj2 (entry_of_done s l)) as [e He']; [eauto|]. congruence. }
    rewrite Hn. exact IH.
Qed.

Lemma file_all_lookup es : forall zip name,
  file_all zip es !! name =
  match last (filter (fun e => e.1 = name) es) with
  | Some e => Some e.2
  | None => zip !! name
  end.
Proof.
  induction es as [|[n b] es IH]; intros zip name; [reflexivity|].
  change (file_all zip ((n, b) :: es)) with (file_all (<[n := b]> zip) es).
  rewrite IH. destruct (decide (n = name)) as [->|Hne].
  - rewrite filter_cons_True by reflexivity.
    destruct (filter _ es) as [|e es'] eqn:Hf.
    + cbn. apply lookup_insert_eq.
    + change (last ((name, b) :: e :: es')) with (last (e :: es')).
      destruct (last (e :: es')) eqn:Hl; [reflexivity|].
      apply last_None in Hl. discriminate Hl.
  - rewrite filter_cons_False by exact Hne.
    destruct (last _); [reflexivity|]. apply lookup_insert_ne. exact Hne.
Qed.

Lemma downloadAllZip_run s :
  entries s <> [] ->
  downloadAllZip s =
  (Returned (Some (next_url s)),
   mkState (S (next_url s)) (next_bitmap s) (next_uuid s) (next_loc s) (calls s)
     (log s ++ [ZipGenerated (file_all ∅ (entries s)); CreateObjectURL (next_url s);
                DownloadClicked (next_url s) "converted-webp.zip"])
     (objs s) (items s) (selectedPreviewItem s) (quality s) (preview s)).
Proof.
  intros H. unfold downloadAllZip, bind, gets. cbn.
  rewrite zip_items_run. fold (entries s). cbn.
  destruct (entries s) as [|e es]; [contradiction|].
  cbn. rewrite <- !app_assoc. reflexivity.
Qed.

(** X11.  The "Download all (zip)" button is enabled exactly when
    [downloadAllZip] has something to pack.  When [hasDone] is false the
    call changes nothing.  When it is true, the call generates one archive,
    creates one object URL for it and clicks a link to that URL with the
    file name [converted-webp.zip]; the function returns that URL for the
    timer that revokes it.  Under a name the archive holds the blob of the
    last [done] item of the list with that output name, and it holds
    nothing under a name that no [done] item has. *)
Theorem downloadAllZip_acts_iff_hasDone (s : State) :
  if hasDone s
  then exists z,
    (downloadAllZip s).1 = Returned (Some (next_url s)) /\
    since s (exec downloadAllZip s) =
      [ZipGenerated z; CreateObjectURL (next_url s);
       DownloadClicked (next_url s) "converted-webp.zip"] /\
    forall name,
      z !! name = snd <$> last (filter (fun e => e.1 = name) (entries s))
  else downloadAllZip s = (Returned None, s).
Proof.
  destruct (hasDone s) eqn:H.
  - apply hasDone_entries in H. exists (file_all ∅ (entries s)).
    unfold exec. rewrite (downloadAllZip_run s H). cbn [fst snd].
    split; [reflexivity|]. split; [apply since_app; reflexivity|].
    intros name. rewrite file_all_lookup.
    destruct (last _); [reflexivity | apply lookup_empty].
  - apply downloadAllZip_without_done_item.
    destruct (entries s) eqn:He; [reflexivity|].
    assert (Ht : hasDone s = true) by (apply hasDone_entries; rewrite He; discriminate).
    congruence.
Qed.

Lemma length_entries s :
  List.length (entries s) = List.length (List.filter packed (queue s)).
Proof.
  unfold entries, queue.
  induction (items s) as [|l ls IH]; [reflexivity|].
  rewrite omap_entry_cons, omap_cons_eq.
  destruct (entry_of s l) as [e|] eqn:He.
  - destruct (proj1 (entry_of_done s l)) as (it & Ho & Hs & Hb); [rewrite He; eauto|].
    rewrite Ho. cbn [List.filter]. unfold packed at 1. rewrite Hs.
    rewrite bool_decide_true by exact Hb. cbn. rewrite IH. reflexivity.
  - destruct (objs s !! l) as [it|] eqn:Ho; [|exact IH].
    cbn [List.filter]. destruct (packed it) eqn:Hp; [|exact IH].
    unfold packed in Hp. apply andb_prop in Hp as [H1 H2].
    apply bool_decide_eq_true in H2.
    assert (Hs : status it = done) by (destruct (status it); try discriminate H1; auto).
    destruct (proj2 (entry_of_done s l)) as [e He']; [eauto|]. congruence.
Qed.

(** X12.  When the output names of the [done] items are pairwise different,
    the archive of [downloadAllZip] has exactly one entry per [done] item (a
    [done] item being one with status [done] and an output blob, the test
    [packed]), and under
    the output name of each of them it holds the blob of that item. *)
Theorem downloadAllZip_one_entry_per_item (s : State) :
  entries s <> [] ->
  NoDup (entries s).*1 ->
  exists z,
    archives (since s (exec downloadAllZip s)) = [z] /\
    size z = List.length (List.filter packed (queue s)) /\
    Forall (fun e => z !! e.1 = Some e.2) (entries s).
Proof.
  intros Hne Hnd. exists (file_all ∅ (entries s)).
  split; [rewrite (downloadAllZip_with_done_items s Hne); reflexivity|].
  split.
  - rewrite (file_all_size _ _ Hnd), map_size_empty, length_entries; [reflexivity|].
    intros name _. apply lookup_empty.
  - apply Forall_forall. intros [n b] Hin. cbn [fst snd].
    rewrite file_all_lookup.
    assert (Hf : filter (fun e : string * Blob => e.1 = n) (entries s) = [(n, b)]).
    { clear Hne. induction (entries s) as [|[n0 b0] es IH];
        [apply elem_of_nil in Hin; contradiction|].
      cbn in Hnd. apply NoDup_cons in Hnd as [Hn0 Hnd].
      apply elem_of_cons in Hin as [[= <- <-]|Hin].
      - rewrite filter_cons_True by reflexivity. f_equal.
        clear IH. induction es as [|[n1 b1] es IHes]; [reflexivity|].
        cbn in Hn0, Hnd. apply not_elem_of_cons in Hn0 as [Hne Hn0].
        apply NoDup_cons in Hnd as [_ Hnd].
        rewrite filter_cons_False by (cbn; congruence). apply IHes; assumption.
      - rewrite filter_cons_False; [apply IH; assumption|].
        cbn. intros ->. apply Hn0. apply list_elem_of_fmap. exists (n, b). auto. }
    rewrite Hf. reflexivity.
Qed.

Lemma downloadAllZip_one_entry_per_item_witness :
  let s := run good_host [HandleFiles [sample_jpeg; sample_gif]; ConvertAll] initial in
  entries s <> [] /\ NoDup (entries s).*1 /\
  exists z, archives (since s (exec downloadAllZip s)) = [z] /\ size z = 2.
Proof.
  intros s.
  assert (He : entries s = [("photo.webp", mkBlob 0 100); ("anim.gif.webp", mkBlob 1 100)])
    by (vm_compute; reflexivity).
  assert (H1 : entries s <> []) by (rewrite He; discriminate).
  assert (H2 : NoDup (entries s).*1).
  { rewrite He. apply (bool_decide_unpack _). vm_compute. exact I. }
  destruct (downloadAllZip_one_entry_per_item s H1 H2) as (z & Hz & Hs & _).
  split; [exact H1|]. split; [exact H2|].
  exists z. split; [exact Hz | rewrite Hs; vm_compute; reflexivity].
Defined.

(** * The preview callback and the effects of the comparison view *)

Lemma generated_step_lookup blob size s l :
  objs (generated_step blob size s) !! l =
  if bool_decide (selectedPreviewItem s = Some l)
  then (fun it => generated it blob size (next_url s)) <$> objs s !! l
  else objs s !! l.
Proof.
  unfold generated_step.
  destruct (selectedPreviewItem s) as [l0|] eqn:Hs.
  - destruct (decide (l0 = l)) as [->|Hne].
    + rewrite bool_decide_true by reflexivity.
      destruct (objs s !! l) as [it|] eqn:Ho; cbn; [|rewrite Ho; reflexivity].
      apply lookup_insert_eq.
    + rewrite bool_decide_false by congruence.
      destruct (objs s !! l0) as [it|]; cbn; [|reflexivity].
      apply lookup_insert_ne. exact Hne.
  - rewrite bool_decide_false by discriminate. reflexivity.
Qed.

Lemma generated_step_frame blob size s :
  items (generated_step blob size s) = items s /\
  selectedPreviewItem (generated_step blob size s) = selectedPreviewItem s /\
  preview (generated_step blob size s) = preview s /\
  quality (generated_step blob size s) = quality s /\
  calls (generated_step blob size s) = calls s.
Proof.
  unfold generated_step.
  destruct (selectedPreviewItem s) as [l|] eqn:Hs; [|repeat split; exact Hs].
  destruct (objs s !! l); cbn; repeat split; auto.
Qed.

(** X13.  The preview callback [onWebPGenerated] never changes the status
    of an item, so it makes no item [done] and enables no button: the
    statuses in the list are the same before and after.  It changes no
    object but the previewed one, which receives the blob, a new output
    URL, the output name and the size; it revokes the output URL that it
    replaces exactly when the object had both an output blob and an output
    URL, and revokes nothing else.  Without a previewed object it does
    nothing. *)
Theorem onWebPGenerated_keeps_statuses (blob : Blob) (size : N) (s : State) :
  let s' := exec (onWebPGenerated blob size) s in
  status <$> queue s' = status <$> queue s /\
  items s' = items s /\ selectedPreviewItem s' = selectedPreviewItem s /\
  match selectedPreviewItem s with
  | Some l =>
      match objs s !! l with
      | Some it =>
          objs s' = <[l := generated it blob size (next_url s)]> (objs s) /\
          since s s' =
            map RevokeObjectURL (superseded it) ++ [CreateObjectURL (next_url s)]
      | None => s' = s
      end
  | None => s' = s
  end.
Proof.
  cbn zeta. unfold exec. rewrite onWebPGenerated_run. cbn [snd].
  destruct (generated_step_frame blob size s) as (Hi & Hs & _).
  split; [|split; [exact Hi|split; [exact Hs|]]].
  - unfold queue. rewrite Hi. clear Hi.
    induction (items s) as [|l ls IH]; [reflexivity|].
    rewrite !omap_cons_eq, generated_step_lookup.
    destruct (bool_decide _); destruct (objs s !! l) as [it|]; cbn;
      rewrite ?IH; try reflexivity; exact IH.
  - unfold generated_step.
    destruct (selectedPreviewItem s) as [l|]; [|reflexivity].
    destruct (objs s !! l) as [it|]; [|reflexivity].
    split; [reflexivity|]. apply since_app. reflexivity.
Qed.

Arguments onWebPGenerated : simpl never.

Lemma effect_generate_run host s p f :
  preview s = Some p -> originalFile s = Some f ->
  effect_generate host s = (Returned tt, generate_step host f s).
Proof.
  intros Hp Hf. unfold effect_generate, bind, gets. cbn. rewrite Hp, Hf.
  unfold write_preview, try_catch, bind, gets, modify, createObjectURL. cbn.
  rewrite convertImageToWebP_run. cbn.
  unfold generate_step, show_webp, store_url, with_preview, exec, createObjectURL. cbn.
  destruct (outcome (host (calls s) f)) as [b|e]; cbn; [|reflexivity].
  rewrite onWebPGenerated_run. reflexivity.
Qed.

Lemma effect_generate_idle host s :
  preview s = None \/ originalFile s = None ->
  effect_generate host s = (Returned tt, s).
Proof.
  intros H. unfold effect_generate, bind, gets. cbn.
  destruct (preview s), (originalFile s); try reflexivity.
  destruct H; discriminate.
Qed.

Lemma effect_reconvert_run host s p f :
  preview s = Some p -> originalFile s = Some f ->
  effect_reconvert host s = (Returned tt, reconvert_step host f s).
Proof.
  intros Hp Hf. unfold effect_reconvert, bind, gets. cbn. rewrite Hp, Hf.
  unfold write_preview, try_catch, bind, gets, modify, createObjectURL. cbn.
  rewrite convertImageToWebP_run. cbn.
  unfold reconvert_step, show_webp, store_url, with_preview, revoke_urls, exec,
    createObjectURL. cbn.
  destruct (outcome (host (calls s) f)) as [b|e]; cbn; [|reflexivity].
  rewrite Hp. cbn. rewrite revoke_if_run. cbn.
  rewrite onWebPGenerated_run, ?Hp. reflexivity.
Qed.

Lemma effect_reconvert_idle host s :
  preview s = None \/ originalFile s = None ->
  effect_reconvert host s = (Returned tt, s).
Proof.
  intros H. unfold effect_reconvert, bind, gets. cbn.
  destruct (preview s), (originalFile s); try reflexivity.
  destruct H; discriminate.
Qed.

Lemma generated_step_log blob size s :
  exists evs, log (generated_step blob size s) = log s ++ evs /\
    conversions evs = [] /\
    next_url s <= next_url (generated_step blob size s).
Proof.
  unfold generated_step.
  destruct (selectedPreviewItem s) as [l|];
    [destruct (objs s !! l) as [it|]|];
    try (exists []; rewrite app_nil_r; split; [reflexivity|split; [reflexivity|lia]]).
  eexists. split; [reflexivity|]. split; [|cbn; lia].
  rewrite conversions_app. unfold superseded.
  destruct (outputBlob it), (outputUrl it); reflexivity.
Qed.

(** X14.  The first effect of the view ("Generate URLs and WebP
    conversion") never throws, whatever the conversion does.  When the view
    is mounted on a selected file, the effect stores a new URL for the
    original and the size of the file, calls the conversion service once,
    and ends with [isLoading] false; when the conversion returns, the view
    also holds a new URL for the result and its size, and when it throws,
    the view keeps the result that it had and no object of the page is
    changed.  Without a mounted view or a selected file the effect does
    nothing. *)
Theorem effect_generate_always_completes (host : Host) (s : State) :
  (effect_generate host s).1 = Returned tt /\
  match preview s, originalFile s with
  | Some p, Some f =>
      let s' := exec (effect_generate host) s in
      exists p', preview s' = Some p' /\ isLoading p' = false /\
        originalUrl p' = Some (next_url s) /\ originalSize p' = file_size f /\
        conversions (since s s') = [f] /\
        match (convertImageToWebP host f (quality s) s).1 with
        | Returned b =>
            webpSize p' = blob_size b /\
            exists w, webpUrl p' = Some w /\ next_url s < w < next_url s'
        | Threw _ =>
            webpUrl p' = webpUrl p /\ webpSize p' = webpSize p /\ objs s' = objs s
        end
  | _, _ => exec (effect_generate host) s = s
  end.
Proof.
  destruct (preview s) as [p|] eqn:Hp.
  2: { unfold exec. rewrite effect_generate_idle by auto. auto. }
  destruct (originalFile s) as [f|] eqn:Hf.
  2: { unfold exec. rewrite effect_generate_idle by auto. auto. }
  cbn zeta. unfold exec. rewrite (effect_generate_run host s p f Hp Hf). cbn [fst snd].
  split; [reflexivity|].
  rewrite convertImageToWebP_run. cbn [fst].
  unfold generate_step.
  destruct (outcome (host (calls s) f)) as [b|e] eqn:Ho.
  - unfold show_webp.
    match goal with |- context [generated_step b (blob_size b) ?s0] =>
      destruct (generated_step_frame b (blob_size b) s0) as (_ & _ & Hpv & _);
      destruct (generated_step_log b (blob_size b) s0) as (evs & Hlog & Hc & Hn);
      set (s5 := generated_step b (blob_size b) s0) in *
    end.
    eexists. split; [unfold with_preview at 1; cbn; rewrite Hpv; cbn; rewrite Hp;
                     reflexivity|].
    cbn. repeat split.
    + unfold since. change (log (with_preview (set_isLoading false) s5)) with (log s5).
      rewrite Hlog. cbn. rewrite <- !app_assoc. rewrite drop_app_length.
      rewrite !conversions_app, Hc. cbn. unfold converter_events.
      destruct (bitmap_ok _), (succeeded _); reflexivity.
    + eexists. split; [reflexivity|]. cbn in Hn.
      destruct (bitmap_ok _); lia.
  - eexists. split; [cbn; rewrite Hp; reflexivity|].
    cbn. repeat split.
    unfold since. cbn. rewrite <- !app_assoc. rewrite drop_app_length. cbn.
    unfold converter_events. rewrite Ho. cbn. destruct (bitmap_ok _); reflexivity.
Qed.

(** X15.  The second effect of the view ("Re-convert when quality
    changes") never throws.  When the conversion returns, the view gets a
    new URL for the result and the URL that it held for the previous result
    is revoked; when the conversion throws, the view and the objects of the
    page stay as they are and nothing is revoked, so the previous result
    stays on display.  Without a mounted view or a selected file the effect
    does nothing. *)
Theorem effect_reconvert_replaces_webpUrl (host : Host) (s : State) :
  (effect_reconvert host s).1 = Returned tt /\
  match preview s, originalFile s with
  | Some p, Some f =>
      let s' := exec (effect_reconvert host) s in
      match (convertImageToWebP host f (quality s) s).1 with
      | Returned b =>
          (exists w, preview s' = Some (set_webpSize (blob_size b) (set_webpUrl w p)) /\
                     next_url s <= w < next_url s') /\
          Forall (fun u => u ∈ revoked (since s s')) (option_list (webpUrl p))
      | Threw _ =>
          preview s' = preview s /\ objs s' = objs s /\ revoked (since s s') = []
      end
  | _, _ => exec (effect_reconvert host) s = s
  end.
Proof.
  destruct (preview s) as [p|] eqn:Hp.
  2: { unfold exec. rewrite effect_reconvert_idle by auto. auto. }
  destruct (originalFile s) as [f|] eqn:Hf.
  2: { unfold exec. rewrite effect_reconvert_idle by auto. auto. }
  cbn zeta. unfold exec. rewrite (effect_reconvert_run host s p f Hp Hf). cbn [fst snd].
  split; [reflexivity|].
  rewrite convertImageToWebP_run. cbn [fst].
  unfold reconvert_step.
  destruct (outcome (host (calls s) f)) as [b|e] eqn:Ho.
  - unfold show_webp.
    match goal with |- context [generated_step b (blob_size b) ?s0] =>
      destruct (generated_step_frame b (blob_size b) s0) as (_ & _ & Hpv & _);
      destruct (generated_step_log b (blob_size b) s0) as (evs & Hlog & Hc & Hn);
      set (s5 := generated_step b (blob_size b) s0) in *
    end.
    split.
    + eexists. split; [rewrite Hpv; cbn; rewrite Hp; reflexivity|].
      cbn in Hn. destruct (bitmap_ok _); lia.
    + unfold since. rewrite Hlog. cbn. rewrite Hp. cbn.
      rewrite <- !app_assoc. rewrite drop_app_length.
      apply Forall_forall. intros u Hu.
      rewrite !revoked_app. apply elem_of_app. right. apply elem_of_app. left.
      destruct (webpUrl p) as [w0|]; cbn in *; [|apply elem_of_nil in Hu; contradiction].
      exact Hu.
  - cbn. rewrite Hp. repeat split.
    unfold since. cbn. rewrite drop_app_length. cbn.
    unfold converter_events. rewrite Ho. cbn. destruct (bitmap_ok _); reflexivity.
Qed.

(** * The divider of the comparison view *)

Section DividerRange.

Import Divider.
Local Open Scope float_scope.

Lemma ltb_leb (a b : float) : (a <? b) = true -> (a <=? b) = true.
Proof.
  rewrite ltb_spec, leb_spec. unfold SFltb, SFleb.
  destruct (SFcompare _ _) as [[]|]; congruence.
Qed.

(** [Math.max(lo, Math.min(hi, x))] is [NaN] or lies between the bounds. *)
Lemma clamp_range (lo hi x : float) :
  (lo <=? hi) = true -> (lo <=? lo) = true -> (hi <=? hi) = true ->
  let r := View.Math_max lo (View.Math_min hi x) in
  PrimFloat.is_nan r = true \/ ((lo <=? r) = true /\ (r <=? hi) = true).
Proof.
  intros Hlh Hll Hhh. cbn zeta. unfold View.Math_max, View.Math_min.
  destruct (PrimFloat.is_nan hi || PrimFloat.is_nan x) eqn:Hn1.
  { left. replace (PrimFloat.is_nan nan) with true by reflexivity.
    rewrite orb_true_r. reflexivity. }
  set (m := if x <? hi then x else hi).
  assert (Hm : (m <=? hi) = true).
  { unfold m. destruct (x <? hi) eqn:Hx; [apply ltb_leb, Hx | exact Hhh]. }
  destruct (PrimFloat.is_nan lo || PrimFloat.is_nan m) eqn:Hn2; [left; reflexivity|].
  right. destruct (lo <? m) eqn:Hl.
  - split; [apply ltb_leb, Hl | exact Hm].
  - split; [exact Hll | exact Hlh].
Qed.

Lemma updateDividerPosition_in_range c x d :
  divider_in_range d -> divider_in_range (updateDividerPosition c x d).
Proof.
  intros H. destruct c as [rect|]; [|exact H].
  apply (clamp_range 5 95); reflexivity.
Qed.

Lemma handle_in_range i d : divider_in_range d -> divider_in_range (handle i d).
Proof.
  intros H. destruct i as [c x|c x|]; cbn [handle].
  - apply updateDividerPosition_in_range. exact H.
  - unfold handleMouseMove. destruct (negb (isDragging d)); [exact H|].
    apply updateDividerPosition_in_range. exact H.
  - exact H.
Qed.

(** X17.  Whatever the mouse does, the position of the divider is a
    percentage between 5 and 95, or it is [NaN]; it starts at 50.  [NaN]
    does occur: a press on the divider while the container has no width and
    the pointer is at its left edge divides 0 by 0, and the clamp keeps
    [NaN].  The divider follows the mouse only while the button is held:
    after the button is released, a mouse move changes nothing. *)
Theorem divider_stays_in_range (inputs : list input) :
  let d := play inputs initial in
  (PrimFloat.is_nan (dividerPosition d) = true \/
   ((5 <=? dividerPosition d) = true /\ (dividerPosition d <=? 95) = true)) /\
  PrimFloat.is_nan
    (dividerPosition (play [MouseDown (Some (mkRect 0 0)) 0] initial)) = true /\
  forall c x, handle (MouseMove c x) (handle MouseUp d) = handle MouseUp d.
Proof.
  cbn zeta. split; [|split; [reflexivity|reflexivity]].
  change (divider_in_range (play inputs initial)).
  assert (H0 : divider_in_range initial) by (right; split; reflexivity).
  revert H0. unfold play. generalize initial as d.
  induction inputs as [|i inputs IH]; intros d H; [exact H|].
  cbn [foldl]. apply IH, handle_in_range, H.
Qed.

End DividerRange.

(** * The timers of the page *)

Section Timers.

Lemma timers_ok_initial : timers_ok Timed.initial.
Proof.
  split; cbn.
  - lia.
  - intros h c H. rewrite lookup_empty in H. discriminate H.
  - intros h item H. rewrite lookup_empty in H. discriminate H.
  - intros h H. discriminate H.
Qed.

(** A handler of the page does not touch the timers. *)
Lemma timers_ok_page_state p p' :
  timers_ok p ->
  Timed.previewUpdateTimeout p' = Timed.previewUpdateTimeout p ->
  Timed.timers p' = Timed.timers p -> Timed.next_timer p' = Timed.next_timer p ->
  timers_ok p'.
Proof.
  intros [H1 H2 H3 H4] Hp Ht Hn. split; rewrite ?Hp, ?Ht, ?Hn; assumption.
Qed.

Lemma timers_ok_in_state {A} (m : M A) p : timers_ok p -> timers_ok (Timed.in_state m p).2.
Proof. intros H. apply (timers_ok_page_state p); auto. Qed.

(** A timer of another kind is armed. *)
Lemma timers_ok_setTimeout c p :
  (forall item, c <> Timed.SetPreviewItem item) ->
  timers_ok p -> timers_ok (Timed.setTimeout c p).2.
Proof.
  intros Hc [H1 H2 H3 H4]. split; cbn.
  - lia.
  - intros h c' H. apply lookup_insert_Some in H as [(<- & _)|(_ & H)]; [lia|].
    specialize (H2 h c' H). lia.
  - intros h item H. apply lookup_insert_Some in H as [(_ & H)|(_ & H)].
    + exfalso. exact (Hc item H).
    + exact (H3 h item H).
  - intros h H. destruct (H4 h H) as (item & Hi). exists item.
    rewrite lookup_insert_ne; [exact Hi|].
    intros <-. specialize (H2 _ _ Hi). lia.
Qed.

Lemma timers_ok_updatePreviewItemDebounced item p :
  timers_ok p -> timers_ok (Timed.updatePreviewItemDebounced item p).
Proof.
  intros [H1 H2 H3 H4]. unfold Timed.updatePreviewItemDebounced.
  set (p1 := match Timed.previewUpdateTimeout p with
             | Some h => if Nat.eqb h 0 then p else Timed.clearTimeout h p
             | None => p
             end).
  assert (Hn : Timed.next_timer p1 = Timed.next_timer p).
  { unfold p1. destruct (Timed.previewUpdateTimeout p) as [h|]; [|reflexivity].
    destruct (Nat.eqb h 0); reflexivity. }
  assert (Hsub : forall h c, Timed.timers p1 !! h = Some c -> Timed.timers p !! h = Some c).
  { unfold p1. destruct (Timed.previewUpdateTimeout p) as [h0|]; [|auto].
    destruct (Nat.eqb h0 0); [auto|]. cbn. intros h c H.
    apply lookup_delete_Some in H as [_ H]. exact H. }
  assert (Hnone : forall h item', Timed.timers p1 !! h <> Some (Timed.SetPreviewItem item')).
  { intros h item' H. pose proof (Hsub _ _ H) as H'.
    pose proof (H3 _ _ H') as Hp. revert H. unfold p1. rewrite Hp.
    destruct (Nat.eqb h 0) eqn:E.
    - apply Nat.eqb_eq in E. specialize (H2 _ _ H'). lia.
    - cbn. rewrite lookup_delete_eq. discriminate. }
  split; cbn; rewrite ?Hn.
  - lia.
  - intros h c H. apply lookup_insert_Some in H as [(<- & _)|(_ & H)]; [lia|].
    specialize (H2 h c (Hsub _ _ H)). lia.
  - intros h item' H. apply lookup_insert_Some in H as [(<- & _)|(_ & H)];
      [reflexivity|].
    exfalso. exact (Hnone _ _ H).
  - intros h [= <-]. exists item. apply lookup_insert_eq.
Qed.

Lemma timers_ok_fire h p : timers_ok p -> timers_ok (Timed.fire h p).
Proof.
  intros [H1 H2 H3 H4]. unfold Timed.fire.
  destruct (Timed.timers p !! h) as [c|] eqn:Hc; [|split; assumption].
  assert (Hdel : forall h' c', Timed.timers (Timed.clearTimeout h p) !! h' = Some c' ->
                   h <> h' /\ Timed.timers p !! h' = Some c').
  { cbn. intros h' c' H. apply lookup_delete_Some in H. exact H. }
  destruct c as [newItems|item|href]; cbn [Timed.run_callback].
  - split; cbn.
    + exact H1.
    + intros h' c' H. apply Hdel in H as [_ H]. exact (H2 _ _ H).
    + intros h' item' H. apply Hdel in H as [_ H]. exact (H3 _ _ H).
    + intros h' H. destruct (H4 h' H) as (item' & Hi). exists item'.
      apply lookup_delete_Some. split; [|exact Hi].
      intros ->. rewrite Hc in Hi. discriminate Hi.
  - split; cbn.
    + exact H1.
    + intros h' c' H. apply Hdel in H as [_ H]. exact (H2 _ _ H).
    + intros h' item' H. apply Hdel in H as [Hne H].
      pose proof (H3 _ _ H) as Ha. pose proof (H3 _ _ Hc) as Hb. congruence.
    + intros h' H. discriminate H.
  - split; cbn.
    + exact H1.
    + intros h' c' H. apply Hdel in H as [_ H]. exact (H2 _ _ H).
    + intros h' item' H. apply Hdel in H as [_ H]. exact (H3 _ _ H).
    + intros h' H. destruct (H4 h' H) as (item' & Hi). exists item'.
      apply lookup_delete_Some. split; [|exact Hi].
      intros ->. rewrite Hc in Hi. discriminate Hi.
Qed.

Lemma timers_ok_handleFiles fl p : timers_ok p -> timers_ok (Timed.handleFiles fl p).
Proof.
  intros H. unfold Timed.handleFiles.
  pose proof (timers_ok_in_state (handleFiles fl) p H) as H1.
  destruct (Timed.in_state _ p) as [[[newItems|]|e] p1]; cbn in H1; try exact H1.
  apply timers_ok_setTimeout; [discriminate | exact H1].
Qed.

Lemma timers_ok_step host e p : timers_ok p -> timers_ok (Timed.step host e p).
Proof.
  intros H. destruct e; cbn [Timed.step].
  - unfold Timed.onDrop. destruct dataTransfer; [apply timers_ok_handleFiles|]; exact H.
  - unfold Timed.onFileInputChange. destruct files; [apply timers_ok_handleFiles|]; exact H.
  - destruct (hasQueued _); [apply timers_ok_in_state|]; exact H.
  - destruct (hasDone _); [|exact H]. unfold Timed.downloadAllZip.
    pose proof (timers_ok_in_state downloadAllZip p H) as H1.
    destruct (Timed.in_state _ p) as [[[href|]|e] p1]; cbn in H1; try exact H1.
    apply timers_ok_setTimeout; [discriminate | exact H1].
  - apply timers_ok_in_state, H.
  - unfold Timed.click_delete. destruct (objs _ !! l); [|exact H].
    destruct (bool_decide _); [apply timers_ok_in_state|]; exact H.
  - unfold Timed.click_thumbnail. destruct (bool_decide _); [|exact H].
    pose proof (timers_ok_in_state (thumbnail_target l) p H) as H1.
    destruct (Timed.in_state _ p) as [[item|e] p1]; cbn in H1; [|exact H1].
    apply timers_ok_updatePreviewItemDebounced, H1.
  - apply (timers_ok_page_state p); auto.
  - apply timers_ok_fire, H.
  - apply timers_ok_in_state, H.
  - apply timers_ok_in_state, H.
  - apply timers_ok_in_state, H.
  - apply timers_ok_in_state, H.
  - apply timers_ok_in_state, H.
Qed.

Lemma timers_ok_run host es : forall p, timers_ok p -> timers_ok (Timed.run host es p).
Proof.
  induction es as [|e es IH]; intros p H; [exact H|].
  cbn. apply IH, timers_ok_step, H.
Qed.

(** X18.  The preview selection made by clicks on thumbnails is debounced:
    in every page that a sequence of happenings (user input, timers that
    run, the view) leads to, at most one timer of
    [updatePreviewItemDebounced] is pending; it is the one whose handle is in
    [previewUpdateTimeout], and a further call of
    [updatePreviewItemDebounced] cancels it and arms a new one in its place,
    so that only the last item clicked gets selected. *)
Theorem preview_update_is_debounced
        (host : Host) (es : list Timed.happening) (h : nat) (item : option loc) :
  let p := Timed.run host es Timed.initial in
  Timed.timers p !! h = Some (Timed.SetPreviewItem item) ->
  Timed.previewUpdateTimeout p = Some h /\
  (forall h' item', Timed.timers p !! h' = Some (Timed.SetPreviewItem item') ->
                    h' = h /\ item' = item) /\
  forall next,
    let p' := Timed.updatePreviewItemDebounced next p in
    Timed.timers p' = <[Timed.next_timer p := Timed.SetPreviewItem next]>
                        (delete h (Timed.timers p)) /\
    Timed.timers p' !! h = None /\
    Timed.previewUpdateTimeout p' = Some (Timed.next_timer p) /\
    Timed.page_state p' = Timed.page_state p.
Proof.
  cbn zeta. intros Hh.
  pose proof (timers_ok_run host es Timed.initial timers_ok_initial) as [H1 H2 H3 H4].
  set (p := Timed.run host es Timed.initial) in *.
  pose proof (H3 h item Hh) as Hp.
  split; [exact Hp|]. split.
  - intros h' item' H'. pose proof (H3 h' item' H') as Hp'.
    assert (h' = h) as -> by congruence. split; [reflexivity | congruence].
  - intros next. unfold Timed.updatePreviewItemDebounced. rewrite Hp.
    pose proof (H2 h _ Hh) as Hpos.
    destruct (Nat.eqb h 0) eqn:E; [apply Nat.eqb_eq in E; lia|]. cbn.
    split; [reflexivity|]. split; [|split; reflexivity].
    rewrite lookup_insert_ne by lia. apply lookup_delete_eq.
Qed.

Lemma preview_update_is_debounced_witness :
  let p := Timed.run good_host
             [Timed.Drop (Some [sample_jpeg; sample_png]); Timed.ClickThumbnail 0;
              Timed.ClickThumbnail 1] Timed.initial in
  Timed.timers p !! 3 = Some (Timed.SetPreviewItem (Some 1)) /\
  Timed.previewUpdateTimeout p = Some 3 /\
  Timed.timers p !! 2 = None /\
  selectedPreviewItem (Timed.page_state (Timed.step good_host (Timed.TimerRuns 3) p)) = Some 1.
Proof.
  intros p.
  assert (H : Timed.timers p !! 3 = Some (Timed.SetPreviewItem (Some 1)))
    by (vm_compute; reflexivity).
  destruct (preview_update_is_debounced good_host _ 3 (Some 1) H) as (H1 & _ & _).
  split; [exact H|]. split; [exact H1|]. split; vm_compute; reflexivity.
Defined.

(** X19.  The URL that [downloadBlob] creates for the archive is revoked by
    its timer: in every page that a sequence of happenings leads to and in
    which the download button is enabled, a click on it creates one URL and
    arms one timer, and when this timer runs it revokes exactly this URL and
    leaves the other timers as they were. *)
Theorem download_url_is_revoked_by_its_timer (host : Host) (es : list Timed.happening) :
  let p := Timed.run host es Timed.initial in
  hasDone (Timed.page_state p) = true ->
  let p1 := Timed.step host Timed.ClickDownloadAll p in
  let p2 := Timed.step host (Timed.TimerRuns (Timed.next_timer p)) p1 in
  Timed.timers p1 =
    <[Timed.next_timer p := Timed.RevokeDownload (next_url (Timed.page_state p))]>
      (Timed.timers p) /\
  created (since (Timed.page_state p) (Timed.page_state p1)) =
    [next_url (Timed.page_state p)] /\
  since (Timed.page_state p1) (Timed.page_state p2) =
    [RevokeObjectURL (next_url (Timed.page_state p))] /\
  Timed.timers p2 = Timed.timers p.
Proof.
  cbn zeta. intros Hd.
  pose proof (timers_ok_run host es Timed.initial timers_ok_initial) as [H1 H2 H3 H4].
  set (p := Timed.run host es Timed.initial) in *.
  assert (Hfresh : Timed.timers p !! Timed.next_timer p = None).
  { destruct (Timed.timers p !! Timed.next_timer p) as [c|] eqn:E; [|reflexivity].
    specialize (H2 _ _ E). lia. }
  cbn [Timed.step]. rewrite Hd.
  unfold Timed.downloadAllZip, Timed.in_state.
  rewrite (downloadAllZip_run _ (proj1 (hasDone_entries _) Hd)). cbn [fst snd].
  cbn [Timed.setTimeout Timed.set_page_state Timed.timers Timed.page_state
       Timed.next_timer Timed.previewUpdateTimeout snd].
  split; [reflexivity|]. split.
  { unfold since. cbn [log]. rewrite drop_app_length. reflexivity. }
  unfold Timed.fire. cbn [Timed.timers]. rewrite lookup_insert_eq.
  cbn [Timed.run_callback Timed.clearTimeout Timed.in_state Timed.page_state
       Timed.set_page_state Timed.timers snd fst].
  split.
  - unfold since. cbn. rewrite drop_app_length. reflexivity.
  - rewrite delete_insert_eq. apply delete_id. exact Hfresh.
Qed.

Lemma download_url_is_revoked_by_its_timer_witness :
  let p := Timed.run good_host
             [Timed.Drop (Some [sample_jpeg]); Timed.ClickConvertAll] Timed.initial in
  let p1 := Timed.step good_host Timed.ClickDownloadAll p in
  let p2 := Timed.step good_host (Timed.TimerRuns 2) p1 in
  hasDone (Timed.page_state p) = true /\
  since (Timed.page_state p) (Timed.page_state p1) =
    [ZipGenerated {["photo.webp" := mkBlob 0 100]}; CreateObjectURL 2;
     DownloadClicked 2 "converted-webp.zip"] /\
  since (Timed.page_state p1) (Timed.page_state p2) = [RevokeObjectURL 2].
Proof.
  intros p p1 p2.
  assert (H : hasDone (Timed.page_state p) = true) by (vm_compute; reflexivity).
  destruct (download_url_is_revoked_by_its_timer good_host _ H) as (_ & _ & H3 & _).
  fold p in H3. fold p1 in H3.
  assert (E : Timed.next_timer p = 2) by (vm_compute; reflexivity).
  rewrite E in H3. fold p2 in H3.
  split; [exact H|]. split; [vm_compute; reflexivity|].
  rewrite H3. vm_compute. reflexivity.
Defined.

End Timers.
